(** * cash-cushion: the credential vault pipeline and its envelope codec

    A shallow embedding of the route handlers that exchange, encrypt, store,
    fetch and decrypt a Plaid access token, with the properties the design
    document states about them.

    Conventions of the embedding
    - a JavaScript string is the list of its UTF-16 code units ([jsstring]);
      identifiers and messages that are plain ASCII are Rocq [string]s;
    - a [Buffer] is a [list byte];
    - the runtime's services (the AEAD cipher, the random source, the clock
      and the time zone, the date parser, the sort, the identity provider,
      the aggregation API) are parameters: records of operations, with the
      laws the code relies on;
    - a handler is a state-passing computation that yields a value, answers
      the request early, or throws. *)

From Stdlib Require Import NArith ZArith List Bool Lia.
From Stdlib.Strings Require Import String Ascii Byte.
From Stdlib Require Import DecimalString.
From Stdlib Require Import Permutation Sorted.
Import ListNotations.

Open Scope N_scope.

(* ================================================================== *)
(** * Part I.  The program *)
(* ================================================================== *)

(* ------------------------------------------------------------------ *)
(** * Bytes and JavaScript strings *)
(* ------------------------------------------------------------------ *)

(** UTF-16 code units, each below [2^16]. *)
Definition jsstring := list N.

(** An ASCII literal as a JavaScript string. *)
Definition js (s : string) : jsstring :=
  map N_of_ascii (list_ascii_of_string s).

(** The byte with value [n mod 256]. *)
Definition byte_of (n : N) : byte :=
  match Byte.of_N (n mod 256) with
  | Some b => b
  | None => x00
  end.

(** [String.prototype.substring(start, end)] for [start <= end]: indices are
    clamped to the length of the string. *)
Definition substring (first last : nat) (s : jsstring) : jsstring :=
  firstn (last - first) (skipn first s).

(** [String.prototype.substring(start)]. *)
Definition substring_from (first : nat) (s : jsstring) : jsstring :=
  skipn first s.

Module Hex.

(** The lower-case digit of a nibble, as [Buffer.prototype.toString('hex')]
    writes it. *)
Definition digit (d : N) : N :=
  if d <? 10 then 48 + d else 87 + d.

(** The value of a hexadecimal digit in either case; [None] for every other
    character.  The runtime's decoder reads a code unit by its low byte
    ([unhex] takes a [uint8_t]), so U+0161 is read as ["a"] and U+0130 as
    ["0"]. *)
Definition unhex (c : N) : option N :=
  let x := c mod 256 in
  if (48 <=? x) && (x <=? 57) then Some (x - 48)
  else if (97 <=? x) && (x <=? 102) then Some (x - 87)
  else if (65 <=? x) && (x <=? 70) then Some (x - 55)
  else None.

(** [buf.toString('hex')]: two lower-case digits per byte. *)
Fixpoint encode (bs : list byte) : jsstring :=
  match bs with
  | [] => []
  | b :: rest =>
      digit (Byte.to_N b / 16) :: digit (Byte.to_N b mod 16) :: encode rest
  end.

(** [Buffer.from(s, 'hex')]: pairs of digits are decoded from the left; the
    result ends at the first pair that is not two hexadecimal digits, and a
    trailing single character is dropped. *)
Fixpoint decode (s : jsstring) : list byte :=
  match s with
  | hi :: lo :: rest =>
      match unhex hi, unhex lo with
      | Some h, Some l => byte_of (16 * h + l) :: decode rest
      | _, _ => []
      end
  | _ => []
  end.

End Hex.

(** [Buffer.from(s, 'base64')]: the characters of the standard and of the
    URL-safe alphabet are worth six bits each; any other character is
    passed over; a ['='] ends the text; the bits are cut into bytes and the
    bits left over are dropped.  A code unit is read by its low byte, as in
    the hexadecimal decoder. *)
Module Base64.

Definition unbase64 (c : N) : option N :=
  let x := c mod 256 in
  if (65 <=? x) && (x <=? 90) then Some (x - 65)
  else if (97 <=? x) && (x <=? 122) then Some (x - 71)
  else if (48 <=? x) && (x <=? 57) then Some (x + 4)
  else if (x =? 43) || (x =? 45) then Some 62
  else if (x =? 47) || (x =? 95) then Some 63
  else None.

Fixpoint sextets (s : jsstring) : list N :=
  match s with
  | [] => []
  | c :: rest =>
      if c mod 256 =? 61 then []
      else match unbase64 c with
           | Some v => v :: sextets rest
           | None => sextets rest
           end
  end.

Fixpoint pack (vs : list N) : list byte :=
  match vs with
  | a :: b :: c :: d :: rest =>
      byte_of (4 * a + b / 16) :: byte_of (16 * (b mod 16) + c / 4)
        :: byte_of (64 * (c mod 4) + d) :: pack rest
  | [a; b; c] => [byte_of (4 * a + b / 16); byte_of (16 * (b mod 16) + c / 4)]
  | [a; b] => [byte_of (4 * a + b / 16)]
  | _ => []
  end.

Definition decode (s : jsstring) : list byte := pack (sextets s).

End Base64.

(* ------------------------------------------------------------------ *)
(** * UTF-8, as the runtime converts strings to bytes and back *)
(* ------------------------------------------------------------------ *)

Module Utf8.

Definition is_high (u : N) : bool := (0xD800 <=? u) && (u <=? 0xDBFF).
Definition is_low (u : N) : bool := (0xDC00 <=? u) && (u <=? 0xDFFF).

(** U+FFFD, written for whatever cannot be converted. *)
Definition replacement : N := 0xFFFD.

(** The one to four bytes of a code point. *)
Definition of_code_point (c : N) : list byte :=
  if c <? 0x80 then [byte_of c]
  else if c <? 0x800 then
    [byte_of (0xC0 + c / 64); byte_of (0x80 + c mod 64)]
  else if c <? 0x10000 then
    [byte_of (0xE0 + c / 4096); byte_of (0x80 + (c / 64) mod 64);
     byte_of (0x80 + c mod 64)]
  else
    [byte_of (0xF0 + c / 262144); byte_of (0x80 + (c / 4096) mod 64);
     byte_of (0x80 + (c / 64) mod 64); byte_of (0x80 + c mod 64)].

(** A string written with the ['utf8'] encoding: a surrogate pair is one
    code point; a surrogate without its partner is written as U+FFFD. *)
Fixpoint encode (s : jsstring) : list byte :=
  match s with
  | [] => []
  | u :: rest =>
      if is_high u then
        match rest with
        | v :: rest' =>
            if is_low v
            then of_code_point (0x10000 + (u - 0xD800) * 0x400 + (v - 0xDC00))
                   ++ encode rest'
            else of_code_point replacement ++ encode rest
        | [] => of_code_point replacement
        end
      else if is_low u then of_code_point replacement ++ encode rest
      else of_code_point u ++ encode rest
  end.

(** The decoder's state between two bytes: nothing pending, or a code point
    begun, the number of continuation bytes still due, and the range the
    next byte must be in. *)
Inductive pending :=
| Idle
| Need (cp : N) (more : nat) (lower upper : N).

(** A byte met with nothing pending. *)
Definition start (b : N) : pending * list N :=
  if b <? 0x80 then (Idle, [b])
  else if (0xC2 <=? b) && (b <=? 0xDF) then (Need (b - 0xC0) 1 0x80 0xBF, [])
  else if (0xE0 <=? b) && (b <=? 0xEF) then
    (Need (b - 0xE0) 2 (if b =? 0xE0 then 0xA0 else 0x80)
                       (if b =? 0xED then 0x9F else 0xBF), [])
  else if (0xF0 <=? b) && (b <=? 0xF4) then
    (Need (b - 0xF0) 3 (if b =? 0xF0 then 0x90 else 0x80)
                       (if b =? 0xF4 then 0x8F else 0xBF), [])
  else (Idle, [replacement]).

(** One byte: a continuation byte in range extends the pending code point;
    any other byte ends it with U+FFFD and is read again as a first byte. *)
Definition step (st : pending) (b : N) : pending * list N :=
  match st with
  | Idle => start b
  | Need cp more lower upper =>
      if (lower <=? b) && (b <=? upper) then
        let cp' := cp * 64 + (b - 0x80) in
        match more with
        | S (S r) => (Need cp' (S r) 0x80 0xBF, [])
        | _ => (Idle, [cp'])
        end
      else
        let (st', out) := start b in (st', replacement :: out)
  end.

(** The code points of a byte sequence; a sequence cut short ends with
    U+FFFD. *)
Fixpoint run (st : pending) (bs : list byte) : list N :=
  match bs with
  | [] => match st with Idle => [] | Need _ _ _ _ => [replacement] end
  | b :: rest =>
      let (st', out) := step st (Byte.to_N b) in out ++ run st' rest
  end.

(** The code units of a code point: itself, or a surrogate pair. *)
Definition units (c : N) : list N :=
  if c <? 0x10000 then [c]
  else [0xD800 + (c - 0x10000) / 0x400; 0xDC00 + (c - 0x10000) mod 0x400].

(** A buffer read with the ['utf8'] encoding. *)
Definition decode (bs : list byte) : jsstring :=
  flat_map units (run Idle bs).

(** Well-formed UTF-16: every surrogate is half of a pair. *)
Fixpoint well_formed (s : jsstring) : bool :=
  match s with
  | [] => true
  | u :: rest =>
      if is_high u then
        match rest with
        | v :: rest' => is_low v && well_formed rest'
        | [] => false
        end
      else if is_low u then false
      else (u <? 0x10000) && well_formed rest
  end.

End Utf8.

(* ------------------------------------------------------------------ *)
(** * The runtime: errors, the cipher, the random source *)
(* ------------------------------------------------------------------ *)

(** The body of a failed call to the aggregation API ([error.response.data]
    of the SDK's error). *)
Record PlaidErrorData := {
  error_code : string;
  error_message : option string
}.

(** [error.response] of an HTTP client error. *)
Record ErrorResponse := {
  response_status : option N;
  response_data : option PlaidErrorData
}.

(** A thrown [Error]: its message and, for an HTTP client error, the
    response.  The stack is a property of the object that no code below
    reads. *)
Record JsError := {
  message : string;
  stack : string;
  response : option ErrorResponse
}.

(** [new Error(message)]: the stack begins with the message; the frames
    that follow are the runtime's. *)
Definition new_Error (msg : string) : JsError :=
  {| message := msg; stack := ("Error: " ++ msg)%string; response := None |}.

(** What a function call comes to: a value, or an exception. *)
Inductive result (A : Type) : Type :=
| Ok (a : A)
| Thrown (e : JsError).
Arguments Ok {A} a.
Arguments Thrown {A} e.

(** The runtime's ['aes-256-gcm'].  [seal key iv plain] is what
    [createCipheriv], [update], [final] and [getAuthTag] produce: the
    ciphertext and the tag.  [setup key iv tag] is the error that
    [createDecipheriv] or [setAuthTag] throws, if one does (a key, a nonce
    or a tag it cannot use).  [open key iv tag data] is [update] and
    [final] on the bytes of the data: the plaintext, or the error [final]
    throws when the data does not authenticate. *)
Record Cipher := {
  seal : list byte -> list byte -> list byte -> list byte * list byte;
  setup : list byte -> list byte -> list byte -> option JsError;
  open : list byte -> list byte -> list byte -> list byte -> result (list byte)
}.

(** What the code relies on, for a 32-byte key and a 16-byte nonce: the tag
    has 16 bytes and is taken, and what was sealed opens to the
    plaintext. *)
Record Lawful (c : Cipher) : Prop := {
  tag_length : forall key iv plain,
    List.length key = 32%nat -> List.length iv = 16%nat ->
    List.length (snd (seal c key iv plain)) = 16%nat;
  setup_seal : forall key iv plain,
    List.length key = 32%nat -> List.length iv = 16%nat ->
    setup c key iv (snd (seal c key iv plain)) = None;
  open_seal : forall key iv plain,
    List.length key = 32%nat -> List.length iv = 16%nat ->
    open c key iv (snd (seal c key iv plain)) (fst (seal c key iv plain))
    = Ok plain
}.

(** The random source, [crypto.randomBytes]: an unbounded supply of bytes
    and the number already handed out. *)
Record Rng := {
  supply : nat -> byte;
  drawn : nat
}.

Definition randomBytes (n : nat) (g : Rng) : list byte * Rng :=
  (map (supply g) (seq (drawn g) n),
   {| supply := supply g; drawn := drawn g + n |}).

(* ------------------------------------------------------------------ *)
(** * The envelope codec *)
(* ------------------------------------------------------------------ *)

(** Module initialisation, the same in every route that holds the key:
    [Buffer.from(process.env.ENCRYPTION_KEY!, 'base64')] and the length
    check.  [base64] is the runtime's decoder; an unset variable makes
    [Buffer.from] throw a [TypeError]. *)
Section KeyGuard.

Variable base64 : jsstring -> list byte.
Variable guard_message : string.

Definition load_encryptionKey (env : option jsstring) : result (list byte) :=
  match env with
  | None =>
      Thrown (new_Error "The first argument must be of type string or an instance of Buffer, ArrayBuffer, or Array or an Array-like Object. Received undefined")
  | Some value =>
      let encryptionKey := base64 value in
      if Nat.eqb (List.length encryptionKey) 32
      then Ok encryptionKey
      else Thrown (new_Error guard_message)
  end.

End KeyGuard.

(** [encrypt] as written in the token exchange route. *)
Module ExchangeTokenCodec.
Section WithKey.

Variable cipher : Cipher.
Variable encryptionKey : list byte.

Definition IV_LENGTH : nat := 16.

Definition guard_message : string :=
  "ENCRYPTION_KEY must be 32 bytes (base64‑encoded)".

(** The body of [encrypt] after the nonce is drawn. *)
Definition encrypt_with (iv : list byte) (plain : jsstring) : jsstring :=
  let (enc, authTag) := seal cipher encryptionKey iv (Utf8.encode plain) in
  Hex.encode (iv ++ authTag ++ enc).

Definition encrypt (plain : jsstring) (g : Rng) : jsstring * Rng :=
  let (iv, g') := randomBytes IV_LENGTH g in
  (encrypt_with iv plain, g').

End WithKey.
End ExchangeTokenCodec.

(** [encrypt] as written in the earlier, insert-based token exchange route:
    the three parts are converted to hexadecimal one by one. *)
Module InsertTokenCodec.
Section WithKey.

Variable cipher : Cipher.
Variable encryptionKey : list byte.

Definition IV_LENGTH : nat := 16.
Definition AUTH_TAG_LENGTH : nat := 16.

Definition guard_message : string :=
  "Invalid ENCRYPTION_KEY length. Must be a 32-byte base64 encoded string.".

Definition encrypt_with (iv : list byte) (text : jsstring) : jsstring :=
  let (encrypted, authTag) := seal cipher encryptionKey iv (Utf8.encode text) in
  Hex.encode iv ++ Hex.encode authTag ++ Hex.encode encrypted.

Definition encrypt (text : jsstring) (g : Rng) : jsstring * Rng :=
  let (iv, g') := randomBytes IV_LENGTH g in
  (encrypt_with iv text, g').

End WithKey.
End InsertTokenCodec.

(** [decrypt] as written in the transaction route. *)
Module GetTransactionsCodec.
Section WithKey.

Variable cipher : Cipher.
Variable encryptionKey : list byte.

Definition IV_LENGTH : nat := 16.
Definition AUTH_TAG_LENGTH : nat := 16.

Definition guard_message : string :=
  "Invalid ENCRYPTION_KEY length. Must be a 32-byte base64 encoded string.".

(** The three parts read from the text. *)
Definition iv_of (encryptedText : jsstring) : list byte :=
  Hex.decode (substring 0 (IV_LENGTH * 2) encryptedText).

Definition authTag_of (encryptedText : jsstring) : list byte :=
  Hex.decode (substring (IV_LENGTH * 2) ((IV_LENGTH + AUTH_TAG_LENGTH) * 2)
                encryptedText).

Definition encrypted_of (encryptedText : jsstring) : jsstring :=
  substring_from ((IV_LENGTH + AUTH_TAG_LENGTH) * 2) encryptedText.

(** What [update(data, 'hex', ..)] throws for a text of odd length, before
    it reads any of it. *)
Definition invalid_encoding (data : jsstring) : JsError :=
  new_Error ("The argument 'encoding' is invalid for data of length "
             ++ NilZero.string_of_uint (Nat.to_uint (List.length data))
             ++ ". Received 'hex'")%string.

(** Whatever is thrown on the way is caught and thrown again as
    ["Decryption failed: <its message>"]; the plaintext is returned only
    after [final] has checked the tag. *)
Definition decrypt (encryptedText : jsstring) : result jsstring :=
  let failed (error : JsError) : result jsstring :=
    Thrown (new_Error ("Decryption failed: " ++ message error)%string) in
  let iv := iv_of encryptedText in
  let authTag := authTag_of encryptedText in
  let encrypted := encrypted_of encryptedText in
  match setup cipher encryptionKey iv authTag with
  | Some error => failed error
  | None =>
      if Nat.odd (List.length encrypted) then
        failed (invalid_encoding encrypted)
      else
        match open cipher encryptionKey iv authTag (Hex.decode encrypted) with
        | Ok decrypted => Ok (Utf8.decode decrypted)
        | Thrown error => failed error
        end
  end.

End WithKey.
End GetTransactionsCodec.

(* ------------------------------------------------------------------ *)
(** * AES-256-GCM, the cipher the routes name *)
(* ------------------------------------------------------------------ *)

(** The cipher behind ['aes-256-gcm'], written out so that the statements
    about the codec can be run on real envelopes: AES with a 256-bit key
    (FIPS 197) in Galois/Counter Mode (SP 800-38D), with the checks the
    runtime makes before it deciphers.  Inside the module a byte is its
    value. *)
Module Aes256Gcm.

(** ** The field of 256 elements and the S-box *)

Definition xtime (a : N) : N :=
  if 2 * a <? 256 then 2 * a else N.lxor (2 * a - 256) 0x1B.

Fixpoint gmul_bits (n : nat) (a b : N) : N :=
  match n with
  | O => 0
  | S n' => N.lxor (if N.odd b then a else 0) (gmul_bits n' (xtime a) (b / 2))
  end.

Definition gmul (a b : N) : N := gmul_bits 8 a b.

Definition ginv (a : N) : N :=
  let a2 := gmul a a in
  let a4 := gmul a2 a2 in
  let a8 := gmul a4 a4 in
  let a16 := gmul a8 a8 in
  let a32 := gmul a16 a16 in
  let a64 := gmul a32 a32 in
  let a128 := gmul a64 a64 in
  gmul a128 (gmul a64 (gmul a32 (gmul a16 (gmul a8 (gmul a4 a2))))).

Definition rotl8 (x : N) (n : N) : N :=
  N.lor (N.shiftl x n mod 256) (N.shiftr x (8 - n)).

Definition sbox_of (x : N) : N :=
  let i := ginv x in
  N.lxor (N.lxor (N.lxor (N.lxor (N.lxor i (rotl8 i 1)) (rotl8 i 2)) (rotl8 i 3))
            (rotl8 i 4)) 0x63.

Definition sbox_table : list N :=
  Eval vm_compute in map (fun i => sbox_of (N.of_nat i)) (seq 0 256).

Definition sbox (x : N) : N := nth (N.to_nat x) sbox_table 0.

(** ** The block cipher *)

Definition xor_list (a b : list N) : list N :=
  map (fun p => N.lxor (fst p) (snd p)) (combine a b).

Definition SubBytes (s : list N) : list N := map sbox s.

Definition ShiftRows (s : list N) : list N :=
  map (fun i => nth i s 0) [0; 5; 10; 15; 4; 9; 14; 3; 8; 13; 2; 7; 12; 1; 6; 11]%nat.

Definition mix_column (a0 a1 a2 a3 : N) : list N :=
  [N.lxor (N.lxor (gmul 2 a0) (gmul 3 a1)) (N.lxor a2 a3);
   N.lxor (N.lxor a0 (gmul 2 a1)) (N.lxor (gmul 3 a2) a3);
   N.lxor (N.lxor a0 a1) (N.lxor (gmul 2 a2) (gmul 3 a3));
   N.lxor (N.lxor (gmul 3 a0) a1) (N.lxor a2 (gmul 2 a3))].

Fixpoint MixColumns (s : list N) : list N :=
  match s with
  | a0 :: a1 :: a2 :: a3 :: rest => mix_column a0 a1 a2 a3 ++ MixColumns rest
  | _ => []
  end.

Definition RotWord (w : list N) : list N :=
  match w with
  | a :: rest => rest ++ [a]
  | [] => []
  end.

Definition Rcon (j : nat) : list N := [Nat.iter (j - 1) xtime 1; 0; 0; 0].

(** The key schedule for a 256-bit key: [ws] holds the words so far, the
    latest first. *)
Fixpoint expand (n i : nat) (ws : list (list N)) : list (list N) :=
  match n with
  | O => ws
  | S n' =>
      let prev := nth 0 ws [] in
      let temp :=
        if Nat.eqb (Nat.modulo i 8) 0
        then xor_list (map sbox (RotWord prev)) (Rcon (Nat.div i 8))
        else if Nat.eqb (Nat.modulo i 8) 4 then map sbox prev
        else prev in
      expand n' (S i) (xor_list (nth 7 ws []) temp :: ws)
  end.

Fixpoint words (bs : list N) : list (list N) :=
  match bs with
  | a :: b :: c :: d :: rest => [a; b; c; d] :: words rest
  | _ => []
  end.

Definition KeyExpansion (key : list N) : list (list N) :=
  rev (expand 52 8 (rev (words key))).

Fixpoint round_keys (ws : list (list N)) : list (list N) :=
  match ws with
  | a :: b :: c :: d :: rest => (a ++ b ++ c ++ d) :: round_keys rest
  | _ => []
  end.

Fixpoint rounds (s : list N) (rks : list (list N)) : list N :=
  match rks with
  | [] => s
  | [last] => xor_list (ShiftRows (SubBytes s)) last
  | rk :: rest => rounds (xor_list (MixColumns (ShiftRows (SubBytes s))) rk) rest
  end.

Definition encrypt_block (key block : list N) : list N :=
  match round_keys (KeyExpansion key) with
  | rk0 :: rest => rounds (xor_list block rk0) rest
  | [] => block
  end.

(** ** The counter mode with GHASH authentication *)

(** A block as a number, its first byte the most significant. *)
Definition number_of (bs : list N) : N :=
  fold_left (fun acc b => acc * 256 + b) bs 0.

Definition block_of (bs : list N) : N :=
  number_of (firstn 16 (bs ++ repeat 0 16)).

Fixpoint bytes_of (n : nat) (x : N) : list N :=
  match n with
  | O => []
  | S n' => (x / 256 ^ N.of_nat n') mod 256 :: bytes_of n' x
  end.

Definition E (key : list N) (x : N) : N :=
  number_of (encrypt_block key (bytes_of 16 x)).

Definition R : N := 0xE1 * 2 ^ 120.

(** The product in the field of [2^128] elements, bits taken from the most
    significant end. *)
Fixpoint gf128_mul_bits (n : nat) (x v z : N) : N :=
  match n with
  | O => z
  | S n' =>
      gf128_mul_bits n' x
        (if N.odd v then N.lxor (N.shiftr v 1) R else N.shiftr v 1)
        (if N.testbit x (N.of_nat n') then N.lxor z v else z)
  end.

Definition gf128_mul (x y : N) : N := gf128_mul_bits 128 x y 0.

Definition GHASH (h : N) (blocks : list N) : N :=
  fold_left (fun y x => gf128_mul (N.lxor y x) h) blocks 0.

(** The 16-byte blocks of a byte string, the last one padded with zeros. *)
Fixpoint blocks (fuel : nat) (bs : list N) : list N :=
  match fuel, bs with
  | S fuel', _ :: _ => block_of bs :: blocks fuel' (skipn 16 bs)
  | _, _ => []
  end.

Definition bits (bs : list N) : N := 8 * N.of_nat (List.length bs).

(** The pre-counter block: a 12-byte nonce is used as it is; any other is
    hashed. *)
Definition J0 (h : N) (iv : list N) : N :=
  if Nat.eqb (List.length iv) 12 then number_of iv * 2 ^ 32 + 1
  else GHASH h (blocks (List.length iv) iv ++ [bits iv]).

Definition inc32 (x : N) : N :=
  (x / 2 ^ 32) * 2 ^ 32 + (x mod 2 ^ 32 + 1) mod 2 ^ 32.

Fixpoint keystream (key : list N) (n : nat) (cb : N) : list N :=
  match n with
  | O => []
  | S n' => bytes_of 16 (E key cb) ++ keystream key n' (inc32 cb)
  end.

(** The bytes that a text of [len] bytes is combined with. *)
Definition stream (key iv : list N) (len : nat) : list N :=
  let h := E key 0 in
  firstn len (keystream key (Nat.div (len + 15) 16) (inc32 (J0 h iv))).

Definition tag_of (key iv ct : list N) : list N :=
  let h := E key 0 in
  let s := GHASH h (blocks (List.length ct) ct ++ [bits ct]) in
  bytes_of 16 (N.lxor (E key (J0 h iv)) s).

(** ** The cipher as the runtime offers it *)

Definition values (bs : list byte) : list N := map Byte.to_N bs.
Definition bytes (vs : list N) : list byte := map byte_of vs.

Fixpoint bytes_eqb (a b : list byte) : bool :=
  match a, b with
  | [], [] => true
  | x :: a', y :: b' => Byte.eqb x y && bytes_eqb a' b'
  | _, _ => false
  end.

(** The tag lengths [setAuthTag] takes when [authTagLength] was not given. *)
Definition valid_tag_length (n : nat) : bool :=
  Nat.eqb n 4 || Nat.eqb n 8 || (Nat.leb 12 n && Nat.leb n 16).

Definition seal (key iv plain : list byte) : list byte * list byte :=
  let ct := xor_list (values plain)
              (stream (values key) (values iv) (List.length plain)) in
  (bytes ct, bytes (tag_of (values key) (values iv) ct)).

(** [createDecipheriv] refuses a key that is not 32 bytes and an empty
    nonce; [setAuthTag] refuses a tag of an invalid length. *)
Definition setup (key iv tag : list byte) : option JsError :=
  if negb (Nat.eqb (List.length key) 32) then
    Some (new_Error "Invalid key length")
  else if Nat.eqb (List.length iv) 0 then
    Some (new_Error "Invalid initialization vector")
  else if negb (valid_tag_length (List.length tag)) then
    Some (new_Error ("Invalid authentication tag length: "
                     ++ NilZero.string_of_uint (Nat.to_uint (List.length tag))))
  else None.

(** [final] compares the tag it was given with the leading bytes of the
    tag of the data. *)
Definition open (key iv tag data : list byte) : result (list byte) :=
  if bytes_eqb
       (firstn (List.length tag)
          (bytes (tag_of (values key) (values iv) (values data))))
       tag
  then Ok (bytes (xor_list (values data)
                    (stream (values key) (values iv) (List.length data))))
  else Thrown (new_Error "Unsupported state or unable to authenticate data").

Definition cipher : Cipher := Build_Cipher seal setup open.

End Aes256Gcm.

(* ------------------------------------------------------------------ *)
(** * Requests, responses and the collaborators of a route *)
(* ------------------------------------------------------------------ *)

(** A row of the table [plaid_items]: the owner, the provider's item
    identifier (the column with the unique constraint), the encrypted
    credential, and the time the row was created. *)
Record Row := {
  user_id : string;
  item_id : string;
  access_token : jsstring;
  created_at : N
}.

(** The provider's data, with the fields this code names. *)
Record Transaction := {
  transaction_id : string;
  account_id : string;
  date : string;
  name : string
}.

Record Account := {
  account_account_id : string;
  account_name : string
}.

Record Item := {
  item_item_id : string;
  institution_id : option string
}.

(** [response.data] of [transactionsGet]. *)
Record TransactionsGetResponse := {
  transactions : list Transaction;
  accounts : list Account;
  item : Item;
  total_transactions : N;
  request_id : string
}.

(** The request to [transactionsGet].  A date is the number of its day
    (day 0 is 1970-01-01); on the wire it is the text [YYYY-MM-DD] of that
    day. *)
Record TransactionsGetRequest := {
  request_access_token : jsstring;
  start_date : Z;
  end_date : Z;
  count : N;
  offset : N
}.

(** [response.data] of [itemPublicTokenExchange]. *)
Record ExchangeResponse := {
  exchanged_access_token : jsstring;
  exchanged_item_id : string
}.

(** The JSON values that occur in a response body. *)
Inductive Json :=
| JNull
| JBool (b : bool)
| JString (s : string)
| JTransactions (ts : list Transaction)
| JAccounts (accs : list Account)
| JItem (i : Item)
| JPlaidError (d : PlaidErrorData).

(** [NextResponse.json(body, { status })]. *)
Record Response := {
  status : N;
  body : list (string * Json)
}.

(** The body of a request, as [await request.json()] finds it: text that
    is not JSON, the JSON [null], an object with the fields the pages send
    (strings), or a JSON value of another kind (a number, a string, a
    boolean, an array), which has none of the fields a route looks for. *)
Inductive Body :=
| NotJson
| Null
| Other
| Object (fields : list (string * string)).

(** What a request finds around it, once its session client is made: the
    session the identity provider reports, whether the store can be
    reached, the configuration, the aggregation API, and the runtime: its
    date parser ([None] is an invalid date, whose time is [NaN]), the
    offset of the server's time zone in milliseconds ([LocalTZA(t, isUTC)]
    of the language specification), and [Array.prototype.sort], which is
    handed a comparison whose result is a number or [NaN] ([None]). *)
Record Env := {
  auth_user : option string;
  auth_error : option string;
  store_failure : option string;
  service_role_key : bool;
  itemPublicTokenExchange : string -> result ExchangeResponse;
  transactionsGet : TransactionsGetRequest -> result TransactionsGetResponse;
  fetchPlaidTransactions : string -> string -> result (option (list Transaction));
  Date_getTime : string -> option Z;
  LocalTZA : Z -> bool -> Z;
  Array_sort : (Transaction -> Transaction -> option Z) ->
               list Transaction -> list Transaction
}.

(** What the sort makes of [comparefn(x, y)]: [NaN] counts as [+0]. *)
Definition SortCompare {A : Type} (comparefn : A -> A -> option Z) (x y : A)
  : Z :=
  match comparefn x y with
  | Some v => v
  | None => 0%Z
  end.

(** A comparison that puts the elements of [l] in classes and the classes
    in order: every element equals itself, equality is symmetric, and
    equality, less and greater are transitive. *)
Definition orders {A : Type} (cmp : A -> A -> Z) (l : list A) : Prop :=
  forall a b c, In a l -> In b l -> In c l ->
    cmp a a = 0%Z
    /\ (cmp a b = 0%Z -> cmp b a = 0%Z)
    /\ (cmp a b = 0%Z -> cmp b c = 0%Z -> cmp a c = 0%Z)
    /\ ((cmp a b < 0)%Z -> (cmp b c < 0)%Z -> (cmp a c < 0)%Z)
    /\ ((cmp a b > 0)%Z -> (cmp b c > 0)%Z -> (cmp a c > 0)%Z).

(** A consistent comparator for the elements of [l], as the language
    defines it: its result is never [NaN], and it orders the elements. *)
Definition consistent {A : Type} (comparefn : A -> A -> option Z)
    (l : list A) : Prop :=
  (forall a b, In a l -> In b l -> comparefn a b <> None)
  /\ orders (SortCompare comparefn) l.

(** What the language asks of [Array.prototype.sort] when the comparator is
    consistent: the result holds the same elements, no element comes
    before one it is greater than, and elements that compare equal keep
    their order (the sort is stable).  With any other comparator the order
    is left to the implementation. *)
Record sorts_as_specified {A : Type}
    (sort : (A -> A -> option Z) -> list A -> list A) : Prop := {
  sort_permutes : forall comparefn l,
    consistent comparefn l ->
    Permutation (sort comparefn l) l;
  sort_orders : forall comparefn l,
    consistent comparefn l ->
    StronglySorted (fun x y => (SortCompare comparefn x y <= 0)%Z)
      (sort comparefn l);
  sort_is_stable : forall comparefn l a,
    consistent comparefn l ->
    In a l ->
    filter (fun x => (SortCompare comparefn a x =? 0)%Z) (sort comparefn l)
    = filter (fun x => (SortCompare comparefn a x =? 0)%Z) l
}.

(** The clock: the instant, in milliseconds, of each reading, and the
    number of readings so far. *)
Record Clock := {
  instant_at : nat -> N;
  readings : nat
}.

(** What a route does that a caller cannot see in the response. *)
Inductive Event :=
| Exchanged (public_token : string)
| Decrypting (encryptedText : jsstring)
| TransactionsRequested (request : TransactionsGetRequest).

(** What outlives a request: the table, the random source, the clock and
    the calls made so far, the latest first. *)
Record World := {
  plaid_items : list Row;
  random : Rng;
  clock : Clock;
  events : list Event
}.

(* ------------------------------------------------------------------ *)
(** * Route handlers as computations *)
(* ------------------------------------------------------------------ *)

(** A step of a handler gives a value, answers the request ([return
    NextResponse.json(..)]), or throws. *)
Inductive Outcome (A : Type) : Type :=
| Value (a : A)
| Answer (r : Response)
| Raise (e : JsError).
Arguments Value {A} a.
Arguments Answer {A} r.
Arguments Raise {A} e.

Definition Handler (A : Type) : Type := World -> Outcome A * World.

Definition ret {A : Type} (a : A) : Handler A := fun w => (Value a, w).

Definition bind {A B : Type} (m : Handler A) (k : A -> Handler B) : Handler B :=
  fun w =>
    match m w with
    | (Value a, w') => k a w'
    | (Answer r, w') => (Answer r, w')
    | (Raise e, w') => (Raise e, w')
    end.

Declare Scope handler_scope.
Delimit Scope handler_scope with handler.
Notation "x <- m ;; k" := (bind m (fun x => k))
  (at level 61, m at next level, right associativity) : handler_scope.
Notation "m ;;; k" := (bind m (fun _ => k))
  (at level 61, right associativity) : handler_scope.
Open Scope handler_scope.

(** [return NextResponse.json(body, { status })]. *)
Definition respond {A : Type} (code : N) (fields : list (string * Json)) : Handler A :=
  fun w => (Answer {| status := code; body := fields |}, w).

(** [throw e]. *)
Definition throw {A : Type} (e : JsError) : Handler A := fun w => (Raise e, w).

(** [try { body } catch (error) { handler error }]. *)
Definition try_catch {A : Type} (m : Handler A) (handler : JsError -> Handler A)
  : Handler A :=
  fun w =>
    match m w with
    | (Raise e, w') => handler e w'
    | other => other
    end.

(** A call that returns or throws. *)
Definition call {A : Type} (r : result A) : Handler A :=
  match r with
  | Ok a => ret a
  | Thrown e => throw e
  end.

Definition record (ev : Event) : Handler unit :=
  fun w => (Value tt,
            {| plaid_items := plaid_items w; random := random w;
               clock := clock w; events := ev :: events w |}).

(** The instant of the next reading of the clock. *)
Definition now : Handler N :=
  fun w => (Value (instant_at (clock w) (readings (clock w))),
            {| plaid_items := plaid_items w; random := random w;
               clock := {| instant_at := instant_at (clock w);
                           readings := S (readings (clock w)) |};
               events := events w |}).

(** Time as the language keeps it, in milliseconds since the epoch:
    [LocalTime(t) = t + LocalTZA(t, true)] is the local time of an instant,
    [UTC(t) = t - LocalTZA(t, false)] the instant of a local time, and
    [Day(t) = floor(t / msPerDay)] the number of the day a time falls
    on. *)
Definition msPerDay : Z := 86400000.

Definition LocalTime (env : Env) (t : Z) : Z := (t + LocalTZA env t true)%Z.

Definition UTC (env : Env) (t : Z) : Z := (t - LocalTZA env t false)%Z.

Definition Day (t : Z) : Z := (t / msPerDay)%Z.

(** [dayjs()]: the instant of a reading of the clock. *)
Definition dayjs : Handler Z := (t <- now ;; ret (Z.of_N t)).

(** [.subtract(n, 'days')]: the library sets the date of a copy to
    [getDate() - n], and [setDate] moves the local time back by [n] days
    and reads it as an instant again. *)
Definition subtract_days (env : Env) (n : Z) (t : Z) : Z :=
  UTC env (LocalTime env t - n * msPerDay).

(** [.format('YYYY-MM-DD')]: the date the local time falls on, kept as the
    number of its day. *)
Definition format_date (env : Env) (t : Z) : Z := Day (LocalTime env t).

(** The response of a handler that ran to its end, or the error that
    escaped it. *)
Definition run (h : Handler Response) (w : World)
  : result Response * World :=
  match h w with
  | (Value r, w') => (Ok r, w')
  | (Answer r, w') => (Ok r, w')
  | (Raise e, w') => (Thrown e, w')
  end.

(** What taking [null] apart throws (a [TypeError]); the message names the
    first property of the pattern. *)
Definition null_body (property : string) : JsError :=
  new_Error ("Cannot destructure property '" ++ property
             ++ "' of '(intermediate value)' as it is null.")%string.

(** [const { property, .. } = await request.json()]: parsing throws on a
    text that is not JSON, and the pattern throws on [null]; a value that
    is no object has no fields. *)
Definition request_json (property : string) (b : Body)
  : Handler (list (string * string)) :=
  match b with
  | NotJson => throw (new_Error "Unexpected token in JSON")
  | Null => throw (null_body property)
  | Other => ret []
  | Object fields => ret fields
  end.

(** A field of the parsed body; [None] when it is absent.  A parsed object
    has every key once. *)
Fixpoint field (key : string) (fields : list (string * string))
    : option string :=
  match fields with
  | [] => None
  | (k, v) :: rest => if String.eqb k key then Some v else field key rest
  end.

(** [haystack.includes(needle)]. *)
Fixpoint includes (needle haystack : string) : bool :=
  String.prefix needle haystack
  || match haystack with
     | EmptyString => false
     | String _ rest => includes needle rest
     end.

(** [value || fallback] for a string that may be absent. *)
Definition or_else (v : option string) (fallback : string) : string :=
  match v with
  | Some s => if String.eqb s "" then fallback else s
  | None => fallback
  end.

(* ------------------------------------------------------------------ *)
(** * The store *)
(* ------------------------------------------------------------------ *)

(** The queries the routes build on [from('plaid_items')].  A query answers
    with [{ data, error }]; when the store cannot be reached the error is
    [store_failure]. *)
Module Store.

(** A stable insertion sort: [x] goes before the first element it may
    precede. *)
Fixpoint insert_by {A : Type} (le : A -> A -> bool) (x : A) (l : list A) : list A :=
  match l with
  | [] => [x]
  | y :: rest => if le x y then x :: l else y :: insert_by le x rest
  end.

Definition sort_by {A : Type} (le : A -> A -> bool) (l : list A) : list A :=
  fold_right (insert_by le) [] l.

(** [.eq('item_id', v)] and [.eq('user_id', v)]. *)
Definition eq_item_id (v : string) (r : Row) : bool := String.eqb (item_id r) v.
Definition eq_user_id (v : string) (r : Row) : bool := String.eqb (user_id r) v.

(** [.order('created_at', { ascending: false })]. *)
Definition order_created_at_desc (rows : list Row) : list Row :=
  sort_by (fun a b => created_at b <=? created_at a) rows.

(** [.limit(n)]. *)
Definition limit (n : nat) (rows : list Row) : list Row := firstn n rows.

(** The error of [.single()] and [.maybeSingle()] when the number of rows
    is not the one asked for (PostgREST's PGRST116). *)
Definition not_a_single_row : string :=
  "JSON object requested, multiple (or no) rows returned".

(** [.single()]: the result must be exactly one row, otherwise the answer
    is an error and no data. *)
Definition single {A : Type} (rows : list A) : option A * option string :=
  match rows with
  | [r] => (Some r, None)
  | _ => (None, Some not_a_single_row)
  end.

(** [.maybeSingle()]: no row is an answer without data and without error. *)
Definition maybeSingle {A : Type} (rows : list A) : option A * option string :=
  match rows with
  | [] => (None, None)
  | [r] => (Some r, None)
  | _ => (None, Some not_a_single_row)
  end.

(** A read: the answer of [q] on the table, or the store's failure. *)
Definition select {A : Type} (env : Env)
    (q : list Row -> option A * option string) : Handler (option A * option string) :=
  fun w =>
    match store_failure env with
    | Some e => (Value (None, Some e), w)
    | None => (Value (q (plaid_items w)), w)
    end.

(** [INSERT .. ON CONFLICT (item_id) DO UPDATE]: the row with the same
    [item_id] takes the owner and the credential of the new one and keeps
    what the request did not send; without such a row the new one is
    added. *)
Fixpoint upsert_row (new : Row) (rows : list Row) : list Row :=
  match rows with
  | [] => [new]
  | r :: rest =>
      if String.eqb (item_id r) (item_id new)
      then {| user_id := user_id new; item_id := item_id r;
              access_token := access_token new;
              created_at := created_at r |} :: rest
      else r :: upsert_row new rest
  end.

Definition set_items (rows : list Row) : Handler unit :=
  fun w => (Value tt,
            {| plaid_items := rows; random := random w; clock := clock w;
               events := events w |}).

(** [.upsert({ user_id, item_id, access_token }, { onConflict: 'item_id' })
    .select('item_id')]. *)
Definition upsert (env : Env) (user item : string) (token : jsstring)
  : Handler (option (list string) * option string) :=
  match store_failure env with
  | Some e => ret (None, Some e)
  | None =>
      t <- now ;;
      (fun w =>
         set_items
           (upsert_row {| user_id := user; item_id := item;
                          access_token := token; created_at := t |}
              (plaid_items w)) w) ;;;
      ret (Some [item], None)
  end.

(** The error of an insert that meets the unique constraint on [item_id]
    (PostgreSQL's 23505). *)
Definition duplicate_key : string :=
  "duplicate key value violates unique constraint plaid_items_item_id_key".

(** [.insert([{ user_id, item_id, access_token }]).select()]. *)
Definition insert (env : Env) (user item : string) (token : jsstring)
  : Handler (option (list Row) * option string) :=
  match store_failure env with
  | Some e => ret (None, Some e)
  | None =>
      t <- now ;;
      (fun w =>
         let new := {| user_id := user; item_id := item;
                       access_token := token; created_at := t |} in
         if existsb (eq_item_id item) (plaid_items w)
         then (Value (None, Some duplicate_key), w)
         else (Value (Some [new], None),
               {| plaid_items := plaid_items w ++ [new]; random := random w;
                  clock := clock w; events := events w |}))
  end.

End Store.

(* ------------------------------------------------------------------ *)
(** * The routes *)
(* ------------------------------------------------------------------ *)

(** A string that is there and not empty. *)
Definition truthy (v : option string) : option string :=
  match v with
  | Some s => if String.eqb s "" then None else Some s
  | None => None
  end.

(** The session check every route starts with: [userErr || !user]. *)
Definition session_user (env : Env) : option string :=
  match auth_error env with
  | Some _ => None
  | None => auth_user env
  end.

Definition success (b : bool) : string * Json := ("success"%string, JBool b).
Definition text (key value : string) : string * Json := (key, JString value).

(** [POST /api/plaid/exchange-token]: exchange the public token, encrypt the
    access token, upsert the row of the item. *)
Module ExchangeToken.
Section Route.

Variable cipher : Cipher.
Variable encryptionKey : list byte.

Definition encrypt (plain : jsstring) : Handler jsstring :=
  fun w =>
    let (encrypted, g) :=
      ExchangeTokenCodec.encrypt cipher encryptionKey plain (random w) in
    (Value encrypted,
     {| plaid_items := plaid_items w; random := g; clock := clock w;
        events := events w |}).

Definition createServiceRoleClient (env : Env) : Handler unit :=
  if service_role_key env then ret tt
  else throw (new_Error
    "SUPABASE_SERVICE_ROLE_KEY is not defined in environment variables.").

(** The [catch] clause. *)
Definition on_error (err : JsError) : Handler Response :=
  let server_error :=
    respond 500 [success false; text "message" (message err)] in
  match response err with
  | Some r =>
      match response_data r with
      | Some data =>
          if String.eqb (error_code data) "" then server_error
          else
            respond
              (match response_status r with
               | Some n => if n =? 0 then 500 else n
               | None => 500
               end)
              [success false; text "message" "Plaid error";
               ("details"%string, JPlaidError data)]
      | None => server_error
      end
  | None => server_error
  end.

Definition POST (env : Env) (request : Body) : Handler Response :=
  (* 1. Validate session *)
  match session_user env with
  | None => respond 401 [success false; text "message" "Unauthorized"]
  | Some userId =>
      (* 2. Parse body *)
      fields <- request_json "public_token" request ;;
      match truthy (field "public_token" fields) with
      | None =>
          respond 400 [success false; text "message" "Missing public_token"]
      | Some public_token =>
          try_catch
            ((* 3. Exchange token with Plaid *)
             record (Exchanged public_token) ;;;
             plaidRes <- call (itemPublicTokenExchange env public_token) ;;
             let access_token := exchanged_access_token plaidRes in
             let item_id := exchanged_item_id plaidRes in
             (* 4. Encrypt access_token *)
             encrypted <- encrypt access_token ;;
             (* 5. Store encrypted token and item_id *)
             createServiceRoleClient env ;;;
             answer <- Store.upsert env userId item_id encrypted ;;
             match snd answer with
             | Some dbError =>
                 throw (new_Error
                   ("Database error saving Plaid item: " ++ dbError)%string)
             | None =>
                 (* 6. Success *)
                 respond 200 [success true; text "item_id" item_id;
                              text "message" "Stored successfully"]
             end)
            on_error
      end
  end.

End Route.

(** Loading the module: the key is read and checked before any request is
    served; when the check throws there is no handler. *)
Definition load (cipher : Cipher) (base64 : jsstring -> list byte)
    (ENCRYPTION_KEY : option jsstring)
  : result (Env -> Body -> Handler Response) :=
  match load_encryptionKey base64 ExchangeTokenCodec.guard_message
          ENCRYPTION_KEY with
  | Ok encryptionKey => Ok (POST cipher encryptionKey)
  | Thrown e => Thrown e
  end.

End ExchangeToken.

(** The earlier token exchange route: the user comes with the request and
    the row is inserted. *)
Module InsertToken.
Section Route.

Variable cipher : Cipher.
Variable encryptionKey : list byte.

Definition encrypt (plain : jsstring) : Handler jsstring :=
  fun w =>
    let (encrypted, g) :=
      InsertTokenCodec.encrypt cipher encryptionKey plain (random w) in
    (Value encrypted,
     {| plaid_items := plaid_items w; random := g; clock := clock w;
        events := events w |}).

Definition on_error (error : JsError) : Handler Response :=
  let otherwise :=
    if includes "Database error" (message error) then
      respond 500 [success false;
                   text "message" "Database error storing token."]
    else if includes "encryption" (message error) then
      respond 500 [success false; text "message" "Encryption error."]
    else
      respond 500 [success false; text "message" "Internal Server Error";
                   text "details"
                     (or_else (Some (message error))
                        "An unexpected error occurred")] in
  match response error with
  | Some r =>
      match response_data r with
      | Some plaidErrorData =>
          respond
            (match response_status r with
             | Some n => if n =? 0 then 500 else n
             | None => 500
             end)
            [success false; text "message" "Plaid API error";
             text "details"
               (or_else (error_message plaidErrorData) "Unknown Plaid error")]
      | None => otherwise
      end
  | None => otherwise
  end.

Definition POST (env : Env) (request : Body) : Handler Response :=
  try_catch
    ((* 1. Get public_token and user_id from request body *)
     fields <- request_json "public_token" request ;;
     match truthy (field "public_token" fields) with
     | None =>
         respond 400 [success false; text "message" "Missing public_token"]
     | Some public_token =>
         match truthy (field "user_id" fields) with
         | None =>
             respond 400 [success false;
                          text "message" "Missing user identifier"]
         | Some user_id =>
             (* 2. Exchange public token for access token with Plaid *)
             record (Exchanged public_token) ;;;
             exchangeResponse <- call (itemPublicTokenExchange env public_token) ;;
             let access_token := exchanged_access_token exchangeResponse in
             let item_id := exchanged_item_id exchangeResponse in
             (* 3. Encrypt the access token *)
             encrypted_access_token <- encrypt access_token ;;
             (* 4. Store encrypted token and item_id *)
             answer <- Store.insert env user_id item_id encrypted_access_token ;;
             match snd answer with
             | Some dbError =>
                 throw (new_Error
                   ("Database error saving Plaid item: " ++ dbError)%string)
             | None =>
                 (* 5. Send success response *)
                 respond 200 [success true;
                              text "message"
                                "Token exchanged and stored successfully"]
             end
         end
     end)
    on_error.

End Route.

Definition load (cipher : Cipher) (base64 : jsstring -> list byte)
    (ENCRYPTION_KEY : option jsstring)
  : result (Env -> Body -> Handler Response) :=
  match load_encryptionKey base64 InsertTokenCodec.guard_message
          ENCRYPTION_KEY with
  | Ok encryptionKey => Ok (POST cipher encryptionKey)
  | Thrown e => Thrown e
  end.

End InsertToken.

(** [/api/plaid/get-transactions]: [POST] fetches with the stored
    credential of an item of the caller; [GET] returns the transactions of
    the caller's latest item, newest first. *)
Module GetTransactions.
Section Route.

Variable cipher : Cipher.
Variable encryptionKey : list byte.

(** [decrypt], with the call noted. *)
Definition decrypt (encryptedText : jsstring) : Handler (result jsstring) :=
  record (Decrypting encryptedText) ;;;
  ret (GetTransactionsCodec.decrypt cipher encryptionKey encryptedText).

(** The [catch] clause of [POST]. *)
Definition on_error (error : JsError) : Handler Response :=
  let message := message error in
  let otherwise :=
    (* Handle Database errors explicitly if needed *)
    if includes "Database error" message then
      respond 500 [success false; text "message" message]
    else
      (* Generic error handler *)
      respond 500 [success false; text "message" "Internal Server Error";
                   text "details" message] in
  (* Handle Plaid specific errors *)
  match response error with
  | Some responseError =>
      match response_data responseError with
      | Some data =>
          respond
            (match response_status responseError with
             | Some n => n
             | None => 500
             end)
            [success false; text "message" "Plaid API error";
             text "details"
               (or_else (error_message data) "Unknown Plaid error")]
      | None => otherwise
      end
  | None => otherwise
  end.

Definition POST (env : Env) (request : Body) : Handler Response :=
  try_catch
    ((* 1. Get authenticated user *)
     match session_user env with
     | None => respond 401 [success false; text "message" "Unauthorized"]
     | Some userId =>
         (* 2. Get item_id from request body *)
         fields <- request_json "item_id" request ;;
         match truthy (field "item_id" fields) with
         | None =>
             respond 400 [success false; text "message" "Missing item_id"]
         | Some item_id =>
             (* 3. Retrieve encrypted access_token, ensuring user owns the
                item *)
             answer <-
               Store.select env
                 (fun rows =>
                    Store.single
                      (map access_token
                         (filter (Store.eq_user_id userId)
                            (filter (Store.eq_item_id item_id) rows)))) ;;
             match answer with
             | (_, Some dbError) =>
                 throw (new_Error
                   ("Database error fetching token: " ++ dbError)%string)
             | (None, None) | (Some [], None) =>
                 respond 404 [success false;
                              text "message"
                                "Plaid item not found for this user."]
             | (Some encryptedAccessToken, None) =>
                 (* 4. Decrypt the access token *)
                 decrypted <- decrypt encryptedAccessToken ;;
                 match decrypted with
                 | Thrown decryptionError =>
                     respond 500
                       [success false;
                        text "message"
                          ("Failed to process access token: "
                           ++ message decryptionError)%string]
                 | Ok accessToken =>
                     (* 5. Fetch transactions from Plaid *)
                     today <- dayjs ;;
                     let startDate :=
                       format_date env (subtract_days env 30 today) in
                     today' <- dayjs ;;
                     let endDate := format_date env today' in
                     let transactionsRequest :=
                       {| request_access_token := accessToken;
                          start_date := startDate;
                          end_date := endDate;
                          count := 500;
                          offset := 0 |} in
                     record (TransactionsRequested transactionsRequest) ;;;
                     response <- call (transactionsGet env transactionsRequest) ;;
                     (* 6. Return transactions to the frontend *)
                     respond 200
                       [success true;
                        ("transactions"%string,
                         JTransactions (transactions response));
                        ("accounts"%string, JAccounts (accounts response));
                        ("item"%string, JItem (item response))]
                 end
             end
         end
     end)
    on_error.

(** The comparison [GET] sorts with:
    [new Date(b.date).getTime() - new Date(a.date).getTime()]; a date that
    cannot be read makes it [NaN]. *)
Definition compare_dates (env : Env) (a b : Transaction) : option Z :=
  match Date_getTime env (date b), Date_getTime env (date a) with
  | Some tb, Some ta => Some (tb - ta)%Z
  | _, _ => None
  end.

(** [[...transactions].sort(compare)]: the runtime's sort, on a copy. *)
Definition sort (env : Env) (ts : list Transaction) : list Transaction :=
  Array_sort env (compare_dates env) ts.

Definition GET (env : Env) : Handler Response :=
  try_catch
    ((* Get session *)
     match auth_user env with
     | None => respond 401 [success false; text "message" "Unauthorized"]
     | Some userId =>
         (* Get the user's Plaid item_id *)
         answer <-
           Store.select env
             (fun rows =>
                Store.maybeSingle
                  (map item_id
                     (Store.limit 1
                        (Store.order_created_at_desc
                           (filter (Store.eq_user_id userId) rows))))) ;;
         match answer with
         | (_, Some itemError) =>
             respond 500 [success false;
                          text "message" "Error fetching Plaid connection"]
         | (itemData, None) =>
             match truthy itemData with
             | None =>
                 respond 404 [success false;
                              text "message" "No Plaid account connected"]
             | Some item_id =>
                 (* Fetch transactions *)
                 fetched <- call (fetchPlaidTransactions env userId item_id) ;;
                 match fetched with
                 | None =>
                     respond 404 [success false;
                                  text "message" "No transactions found"]
                 | Some transactions =>
                     (* Sort transactions by date (newest first) *)
                     let sortedTransactions := sort env transactions in
                     respond 200
                       [success true;
                        ("transactions"%string,
                         JTransactions sortedTransactions)]
                 end
             end
         end
     end)
    (fun error =>
       respond 500 [success false; text "message" (message error)]).

End Route.

Definition load (cipher : Cipher) (base64 : jsstring -> list byte)
    (ENCRYPTION_KEY : option jsstring)
  : result ((Env -> Body -> Handler Response) * (Env -> Handler Response)) :=
  match load_encryptionKey base64 GetTransactionsCodec.guard_message
          ENCRYPTION_KEY with
  | Ok encryptionKey => Ok (POST cipher encryptionKey, GET)
  | Thrown e => Thrown e
  end.

End GetTransactions.

(** [GET /api/user/plaid-items]: the identifier of the caller's latest
    item, or [null]. *)
Module PlaidItems.

Definition GET (env : Env) : Handler Response :=
  try_catch
    ((* 1. Get authenticated user from Supabase session *)
     match session_user env with
     | None => respond 401 [success false; text "message" "Unauthorized"]
     | Some userId =>
         (* 2. Query the plaid_items table for the user's item_id *)
         answer <-
           Store.select env
             (fun rows =>
                (Some (map item_id
                         (Store.limit 1
                            (Store.order_created_at_desc
                               (filter (Store.eq_user_id userId) rows)))),
                 None)) ;;
         match answer with
         | (_, Some dbError) =>
             throw (new_Error
               ("Database error fetching Plaid item: " ++ dbError)%string)
         | (itemData, None) =>
             (* itemData?.[0]?.item_id ?? null *)
             let currentItemId :=
               match itemData with
               | Some (first :: _) => JString first
               | _ => JNull
               end in
             (* 3. Return the found item_id (or null if none exists) *)
             respond 200 [success true; ("item_id"%string, currentItemId)]
         end
     end)
    (fun error =>
       respond 500
         [success false;
          text "message" "Internal Server Error fetching Plaid item ID";
          text "details"
            (or_else (Some (message error)) "An unexpected error occurred")]).

End PlaidItems.

(* ------------------------------------------------------------------ *)
(** * The other routes: refresh, link token, sign-in callback *)
(* ------------------------------------------------------------------ *)

(** The calls of the aggregation API that only the refresh route makes:
    [itemGet({ access_token })] and [transactionsSync({ access_token,
    cursor })].  What they return is logged or dropped. *)
Record ItemApi := {
  itemGet : jsstring -> result unit;
  transactionsSync : jsstring -> string -> result unit
}.

(** [POST /api/plaid/refresh-transactions]: look up the caller's latest
    item and ask the provider about it, with the text of the column
    [access_token] as it is stored. *)
Module RefreshTransactions.

Definition POST (env : Env) (client : ItemApi) : Handler Response :=
  try_catch
    ((* Get session *)
     match auth_user env with
     | None => respond 401 [success false; text "message" "Unauthorized"]
     | Some userId =>
         (* Get the user's Plaid item_id and access_token *)
         answer <-
           Store.select env
             (fun rows =>
                Store.maybeSingle
                  (map (fun r => (item_id r, access_token r))
                     (Store.limit 1
                        (Store.order_created_at_desc
                           (filter (Store.eq_user_id userId) rows))))) ;;
         match answer with
         | (_, Some itemError) =>
             respond 500 [success false;
                          text "message" "Error fetching Plaid connection"]
         | (Some (item_id, c :: rest), None) =>
             if String.eqb item_id "" then
               respond 404 [success false;
                            text "message" "No Plaid account connected"]
             else
               let access_token := c :: rest in
               (* Request fresh transaction data using item/get *)
               call (itemGet client access_token) ;;;
               (* endDate and startDate: two readings of the clock *)
               now ;;;
               now ;;;
               call (transactionsSync client access_token "latest") ;;;
               respond 200 [success true;
                            text "message" "Transactions synced successfully"]
         | (_, None) =>
             respond 404 [success false;
                          text "message" "No Plaid account connected"]
         end
     end)
    (fun error =>
       respond 500 [success false; text "message" (message error)]).

End RefreshTransactions.

(** The request of [linkTokenCreate] and the part of its answer that the
    route reads. *)
Inductive Products := Auth | Transactions.
Inductive CountryCode := Us.

Record LinkTokenCreateRequest := {
  client_user_id : string;
  client_name : string;
  products : list Products;
  country_codes : list CountryCode;
  language : string
}.

Record LinkTokenCreateResponse := {
  link_token : string;
  expiration : string
}.

(** [POST /api/plaid/create-link-token]. *)
Module CreateLinkToken.

(** The [catch] clause. *)
Definition on_error (error : JsError) : Handler Response :=
  let generic :=
    respond 500
      [success false;
       text "message" "Internal Server Error creating link token";
       text "details"
         (or_else (Some (message error)) "An unexpected error occurred")] in
  (* Handle Plaid specific errors *)
  match response error with
  | Some r =>
      match response_data r with
      | Some plaidErrorData =>
          if String.eqb (error_code plaidErrorData) "" then generic
          else
            respond
              (match response_status r with
               | Some n => if n =? 0 then 500 else n
               | None => 500
               end)
              [success false;
               text "message" "Plaid API error creating link token";
               text "details"
                 (or_else (error_message plaidErrorData)
                    "Unknown Plaid error")]
      | None => generic
      end
  | None => generic
  end.

Definition POST (env : Env)
    (linkTokenCreate : LinkTokenCreateRequest -> result LinkTokenCreateResponse)
  : Handler Response :=
  try_catch
    ((* 1. Get authenticated user from Supabase session *)
     match session_user env with
     | None => respond 401 [success false; text "message" "Unauthorized"]
     | Some userId =>
         (* 2. Prepare the request *)
         let linkTokenRequest :=
           {| client_user_id := userId;
              client_name := "Cash Cushion App";
              products := [Auth; Transactions];
              country_codes := [Us];
              language := "en" |} in
         (* 3. Call Plaid to create the link token *)
         response <- call (linkTokenCreate linkTokenRequest) ;;
         (* 4. Return the link_token to the frontend *)
         respond 200 [success true;
                      text "link_token" (link_token response)]
     end)
    on_error.

End CreateLinkToken.

(** [GET /auth/callback], from the parameters of the request's URL: its
    origin and the values of [code] and [next] ([None] when the parameter is
    not there).  [exchangeCodeForSession] answers with its error, if any.
    The result is the URL handed to [NextResponse.redirect]. *)
Module AuthCallback.

(** [next.startsWith('/')]. *)
Definition startsWith_slash (s : jsstring) : bool :=
  match s with
  | c :: _ => c =? 47
  | [] => false
  end.

Definition GET (origin : jsstring) (code next : option jsstring)
    (exchangeCodeForSession : jsstring -> option string) : jsstring :=
  (* if "next" is in param, use it as the redirect URL *)
  let next := match next with Some n => n | None => js "/" end in
  let failure := origin ++ js "/auth/auth-code-error" in
  match code with
  | Some (c :: rest) =>
      match exchangeCodeForSession (c :: rest) with
      | None =>
          (* Ensure the redirect path starts with '/' *)
          let redirectPath :=
            if startsWith_slash next then next else js "/" ++ next in
          origin ++ redirectPath
      | Some error => failure
      end
  | _ => failure
  end.

End AuthCallback.

(** Loading a module that holds the key and its own store client (the
    fetch route and the earlier exchange route): the key guard, then the
    guard on the store's settings, then [createClient], which may refuse
    them. *)
Module ServerModule.

Definition settings_message : string :=
  "Supabase URL or Service Role Key is missing from environment variables.".

Definition load (base64 : jsstring -> list byte)
    (createClient : string -> string -> option JsError)
    (ENCRYPTION_KEY : option jsstring)
    (SUPABASE_URL SUPABASE_SERVICE_ROLE_KEY : option string)
  : result (list byte) :=
  match load_encryptionKey base64 GetTransactionsCodec.guard_message
          ENCRYPTION_KEY with
  | Thrown e => Thrown e
  | Ok encryptionKey =>
      match truthy SUPABASE_URL, truthy SUPABASE_SERVICE_ROLE_KEY with
      | Some supabaseUrl, Some supabaseServiceRoleKey =>
          match createClient supabaseUrl supabaseServiceRoleKey with
          | Some e => Thrown e
          | None => Ok encryptionKey
          end
      | _, _ => Thrown (new_Error settings_message)
      end
  end.

End ServerModule.

(** The other copy of the fetch route: the same steps with the same
    [decrypt]; its [catch] clause reads the error without types. *)
Module GetTransactionsUntyped.
Section Route.

Variable cipher : Cipher.
Variable encryptionKey : list byte.

(** The [catch] clause. *)
Definition on_error (error : JsError) : Handler Response :=
  let otherwise :=
    (* Handle Database errors explicitly if needed *)
    if includes "Database error" (message error) then
      respond 500 [success false; text "message" (message error)]
    else
      (* Generic error handler *)
      respond 500 [success false; text "message" "Internal Server Error";
                   text "details"
                     (or_else (Some (message error))
                        "An unexpected error occurred")] in
  (* Handle Plaid specific errors *)
  match response error with
  | Some r =>
      match response_data r with
      | Some data =>
          if String.eqb (error_code data) "" then otherwise
          else
            respond
              (match response_status r with
               | Some n => if n =? 0 then 500 else n
               | None => 500
               end)
              [success false; text "message" "Plaid API error";
               text "details"
                 (or_else (error_message data) "Unknown Plaid error")]
      | None => otherwise
      end
  | None => otherwise
  end.

Definition POST (env : Env) (request : Body) : Handler Response :=
  try_catch
    ((* 1. Get authenticated user *)
     match session_user env with
     | None => respond 401 [success false; text "message" "Unauthorized"]
     | Some userId =>
         (* 2. Get item_id from request body *)
         fields <- request_json "item_id" request ;;
         match truthy (field "item_id" fields) with
         | None =>
             respond 400 [success false; text "message" "Missing item_id"]
         | Some item_id =>
             (* 3. Retrieve encrypted access_token, ensuring user owns the
                item *)
             answer <-
               Store.select env
                 (fun rows =>
                    Store.single
                      (map access_token
                         (filter (Store.eq_user_id userId)
                            (filter (Store.eq_item_id item_id) rows)))) ;;
             match answer with
             | (_, Some dbError) =>
                 throw (new_Error
                   ("Database error fetching token: " ++ dbError)%string)
             | (None, None) | (Some [], None) =>
                 respond 404 [success false;
                              text "message"
                                "Plaid item not found for this user."]
             | (Some encryptedAccessToken, None) =>
                 (* 4. Decrypt the access token *)
                 decrypted <-
                   GetTransactions.decrypt cipher encryptionKey
                     encryptedAccessToken ;;
                 match decrypted with
                 | Thrown decryptionError =>
                     respond 500
                       [success false;
                        text "message"
                          ("Failed to process access token: "
                           ++ message decryptionError)%string]
                 | Ok accessToken =>
                     (* 5. Fetch transactions from Plaid *)
                     today <- dayjs ;;
                     let startDate :=
                       format_date env (subtract_days env 30 today) in
                     today' <- dayjs ;;
                     let endDate := format_date env today' in
                     let transactionsRequest :=
                       {| request_access_token := accessToken;
                          start_date := startDate;
                          end_date := endDate;
                          count := 500;
                          offset := 0 |} in
                     record (TransactionsRequested transactionsRequest) ;;;
                     response <- call (transactionsGet env transactionsRequest) ;;
                     (* 6. Return transactions to the frontend *)
                     respond 200
                       [success true;
                        ("transactions"%string,
                         JTransactions (transactions response));
                        ("accounts"%string, JAccounts (accounts response));
                        ("item"%string, JItem (item response))]
                 end
             end
         end
     end)
    on_error.

End Route.
End GetTransactionsUntyped.

(* ------------------------------------------------------------------ *)
(** * The pages that call the routes *)
(* ------------------------------------------------------------------ *)

(** The components are embedded by what an effect or a callback leaves in
    the component's state once it has run to its end, and by which of its
    alternatives the component then renders.  [fetch url body] is the
    answer the page gets, read as JSON; [Thrown] stands for a request that
    failed or an answer that is not JSON.  An answer is read at the type
    the component declares for it. *)
Module Client.

Definition Fetch : Type := string -> option Body -> result Response.

(** [response.ok]. *)
Definition ok (r : Response) : bool :=
  (200 <=? status r) && (status r <=? 299).

(** [data.key]; [None] is [undefined]. *)
Fixpoint get (key : string) (data : list (string * Json)) : option Json :=
  match data with
  | [] => None
  | (k, v) :: rest => if String.eqb k key then Some v else get key rest
  end.

(** Whether a value counts as true in a condition. *)
Definition truthy_value (v : option Json) : bool :=
  match v with
  | None | Some JNull => false
  | Some (JBool b) => b
  | Some (JString s) => negb (String.eqb s "")
  | Some _ => true
  end.

(** [String(value)], as [new Error(value)] takes its argument. *)
Definition String_of (v : Json) : string :=
  match v with
  | JNull => "null"
  | JBool true => "true"
  | JBool false => "false"
  | JString s => s
  | JTransactions ts =>
      String.concat "," (map (fun _ => "[object Object]"%string) ts)
  | JAccounts accs =>
      String.concat "," (map (fun _ => "[object Object]"%string) accs)
  | JItem _ | JPlaidError _ => "[object Object]"
  end.

(** [a || b || fallback], as the message of a [new Error]. *)
Fixpoint first_truthy (vs : list (option Json)) (fallback : string) : string :=
  match vs with
  | [] => fallback
  | v :: rest =>
      if truthy_value v then
        match v with Some j => String_of j | None => fallback end
      else first_truthy rest fallback
  end.

(** The decimal text of a status. *)
Definition decimal (n : N) : string := NilZero.string_of_uint (N.to_uint n).

(** ** [PlaidLinkConnector]: the handler of Plaid Link's [onSuccess] *)

Record Connector := {
  linkToken : option string;
  loadingLinkToken : bool;
  apiError : option string;
  exchangeLoading : bool;
  exchangeSuccess : bool
}.

(** The state after [handleSuccess(publicToken)] has run, and the
    arguments [onConnectionSuccess] was called with. *)
Definition handleSuccess (user : option string) (fetch : Fetch)
    (publicToken : string) (s : Connector) : Connector * list Json :=
  match user with
  | None =>
      ({| linkToken := linkToken s; loadingLinkToken := loadingLinkToken s;
          apiError := Some "No user session"%string;
          exchangeLoading := exchangeLoading s;
          exchangeSuccess := exchangeSuccess s |}, [])
  | Some _ =>
      (* setExchangeLoading(true); setExchangeSuccess(false);
         setApiError(null) *)
      let attempt : result Json :=
        match fetch "/api/plaid/exchange-token"%string
                (Some (Object [("public_token"%string, publicToken)])) with
        | Thrown e => Thrown e
        | Ok res =>
            let data := body res in
            if negb (ok res) || negb (truthy_value (get "success" data))
               || negb (truthy_value (get "item_id" data))
            then
              Thrown (new_Error
                        (first_truthy [get "message" data]
                           "Token exchange failed"))
            else
              match get "item_id" data with
              | Some item_id => Ok item_id
              | None => Thrown (new_Error "Token exchange failed")
              end
        end in
      match attempt with
      | Ok item_id =>
          (* onConnectionSuccess(data.item_id); setExchangeSuccess(true);
             finally setExchangeLoading(false) *)
          ({| linkToken := linkToken s;
              loadingLinkToken := loadingLinkToken s;
              apiError := None;
              exchangeLoading := false;
              exchangeSuccess := true |}, [item_id])
      | Thrown e =>
          (* setApiError(e.message); finally setExchangeLoading(false) *)
          ({| linkToken := linkToken s;
              loadingLinkToken := loadingLinkToken s;
              apiError := Some (message e);
              exchangeLoading := false;
              exchangeSuccess := false |}, [])
      end
  end.

(** ** [TransactionList] *)

Record TransactionListState := {
  list_transactions : list Transaction;
  list_accounts : list Account;
  list_isLoading : bool;
  list_error : option string
}.

(** The state after the effect on [itemId] and [isAuthLoading] has run. *)
Definition fetchTransactions (isAuthLoading : bool) (itemId : option string)
    (fetch : Fetch) (s : TransactionListState) : TransactionListState :=
  match isAuthLoading, truthy itemId with
  | false, Some itemId =>
      (* setIsLoading(true); setError(null); setTransactions([]);
         setAccounts([]) *)
      let attempt : result (list (string * Json)) :=
        match fetch "/api/plaid/get-transactions"%string
                (Some (Object [("item_id"%string, itemId)])) with
        | Thrown e => Thrown e
        | Ok response =>
            let data := body response in
            if negb (ok response) || negb (truthy_value (get "success" data))
            then
              Thrown (new_Error
                        (first_truthy [get "message" data; get "details" data]
                           "Failed to fetch transactions"))
            else Ok data
        end in
      match attempt with
      | Ok data =>
          {| list_transactions :=
               match get "transactions" data with
               | Some (JTransactions ts) => ts
               | _ => []
               end;
             list_accounts :=
               match get "accounts" data with
               | Some (JAccounts accs) => accs
               | _ => []
               end;
             list_isLoading := false;
             list_error := None |}
      | Thrown err =>
          {| list_transactions := [];
             list_accounts := [];
             list_isLoading := false;
             list_error :=
               Some ("Error fetching transactions: " ++ message err)%string |}
      end
  | _, _ =>
      {| list_transactions := [];
         list_accounts := list_accounts s;
         list_isLoading := false;
         list_error := None |}
  end.

(** Helper to find account name. *)
Definition getAccountName (accounts : list Account) (accountId : option string)
  : string :=
  match truthy accountId with
  | None => "N/A"
  | Some accountId =>
      match find (fun acc => String.eqb (account_account_id acc) accountId)
              accounts with
      | Some account => or_else (Some (account_name account)) accountId
      | None => accountId
      end
  end.

(** Which of its alternatives the component renders. *)
Inductive TransactionListView :=
| Loading
| ConnectFirst
| ErrorBox (error : string)
| NoTransactions
| Listing (transactions : list Transaction) (accounts : list Account).

Definition TransactionList (isAuthLoading : bool) (itemId : option string)
    (s : TransactionListState) : TransactionListView :=
  if isAuthLoading || list_isLoading s then Loading
  else
    match truthy itemId, list_error s with
    | None, _ => ConnectFirst
    | Some _, Some error =>
        if String.eqb error "" then
          match list_transactions s with
          | [] => NoTransactions
          | ts => Listing ts (list_accounts s)
          end
        else ErrorBox error
    | Some _, None =>
        match list_transactions s with
        | [] => NoTransactions
        | ts => Listing ts (list_accounts s)
        end
    end.

(** ** [Home]: the dashboard page *)

Record HomeState := {
  currentItemId : option string;
  isCheckingItemId : bool;
  fetchError : option string
}.

(** The state after the effect on [user] and [isAuthLoading] has run. *)
Definition fetchItemId (isAuthLoading : bool) (user : option string)
    (fetch : Fetch) (s : HomeState) : HomeState :=
  match isAuthLoading, user with
  | true, _ => s
  | false, None =>
      {| currentItemId := None; isCheckingItemId := false;
         fetchError := None |}
  | false, Some _ =>
      (* setIsCheckingItemId(true); setFetchError(null) *)
      let attempt : result (option string) :=
        match fetch "/api/user/plaid-items"%string None with
        | Thrown e => Thrown e
        | Ok response =>
            let data := body response in
            if negb (ok response) then
              Thrown (new_Error
                        (first_truthy [get "message" data]
                           ("HTTP error! Status: "
                            ++ decimal (status response))))
            else if truthy_value (get "success" data) then
              Ok (match get "item_id" data with
                  | Some (JString item_id) => Some item_id
                  | _ => None
                  end)
            else
              Thrown (new_Error
                        (first_truthy [get "message" data]
                           "Failed to retrieve Plaid item status."))
        end in
      match attempt with
      | Ok item_id =>
          {| currentItemId := item_id; isCheckingItemId := false;
             fetchError := None |}
      | Thrown error =>
          {| currentItemId := None; isCheckingItemId := false;
             fetchError :=
               Some ("Failed to load account connection status: "
                     ++ message error)%string |}
      end
  end.

(** What the page shows under its heading. *)
Inductive HomeView :=
| LoadingAuthentication
| LoginPrompt
| Dashboard (banner : option string) (content : HomeContent)
with HomeContent :=
| CheckingConnection
| Transactions_of (itemId : string)
| ConnectBank
| Nothing.

Definition Home (isAuthLoading : bool) (user : option string) (s : HomeState)
  : HomeView :=
  if isAuthLoading then LoadingAuthentication
  else
    match user with
    | None => LoginPrompt
    | Some _ =>
        Dashboard (truthy (fetchError s))
          (if isCheckingItemId s then CheckingConnection
           else
             match truthy (currentItemId s) with
             | Some itemId => Transactions_of itemId
             | None =>
                 match truthy (fetchError s) with
                 | None => ConnectBank
                 | Some _ => Nothing
                 end
             end)
    end.

(** ** [TransactionsModal] *)

(** The modal looks at the status of an answer before it reads the body,
    so its [fetch] gives the two apart: the status, and the body read as
    JSON (or what reading it throws). *)
Record Reply := {
  reply_status : N;
  reply_json : result (list (string * Json))
}.

Definition ModalFetch : Type := string -> option Body -> result Reply.

Definition reply_ok (r : Reply) : bool :=
  (200 <=? reply_status r) && (reply_status r <=? 299).

Record ModalState := {
  modal_transactions : list Transaction;
  modal_isLoading : bool;
  modal_error : option string;
  modal_searchTerm : jsstring
}.

(** [data.success && Array.isArray(data.transactions)]: the transactions
    of an answer that has them. *)
Definition listed (data : list (string * Json)) : option (list Transaction) :=
  if truthy_value (get "success" data) then
    match get "transactions" data with
    | Some (JTransactions ts) => Some ts
    | _ => None
    end
  else None.

(** The state after the effect that fetches the transactions has run. *)
Definition modal_fetchTransactions (fetch : ModalFetch) (s : ModalState)
  : ModalState :=
  let done (ts : list Transaction) (error : option string) :=
    {| modal_transactions := ts; modal_isLoading := false;
       modal_error := error; modal_searchTerm := modal_searchTerm s |} in
  match fetch "/api/plaid/get-transactions"%string None with
  | Thrown err => done (modal_transactions s) (Some (message err))
  | Ok response =>
      if negb (reply_ok response) then
        done (modal_transactions s)
          (Some ("Failed to fetch transactions: "
                 ++ decimal (reply_status response))%string)
      else
        match reply_json response with
        | Thrown err => done (modal_transactions s) (Some (message err))
        | Ok data =>
            match listed data with
            | Some ts => done ts (modal_error s)
            | None =>
                done (modal_transactions s)
                  (Some (first_truthy [get "message" data]
                           "Failed to fetch transactions"))
            end
        end
  end.

(** The state after [handleRefresh] has run. *)
Definition handleRefresh (fetch : ModalFetch) (s : ModalState) : ModalState :=
  let done (ts : list Transaction) (error : option string) :=
    {| modal_transactions := ts; modal_isLoading := false;
       modal_error := error; modal_searchTerm := modal_searchTerm s |} in
  match fetch "/api/plaid/refresh-transactions"%string None with
  | Thrown err => done (modal_transactions s) (Some (message err))
  | Ok response =>
      if reply_ok response then
        (* Fetch the updated transactions *)
        match fetch "/api/plaid/get-transactions"%string None with
        | Thrown err => done (modal_transactions s) (Some (message err))
        | Ok updatedResponse =>
            if reply_ok updatedResponse then
              match reply_json updatedResponse with
              | Thrown err =>
                  done (modal_transactions s) (Some (message err))
              | Ok data =>
                  match listed data with
                  | Some ts => done ts (modal_error s)
                  | None => done (modal_transactions s) (modal_error s)
                  end
              end
            else done (modal_transactions s) (modal_error s)
        end
      else done (modal_transactions s) (modal_error s)
  end.

(** The reply a page gets from a route that answered. *)
Definition reply_of (r : Response) : Reply :=
  {| reply_status := status r; reply_json := Ok (body r) |}.

End Client.

(* ------------------------------------------------------------------ *)
(** * What the statements below speak of *)
(* ------------------------------------------------------------------ *)

(** The text with the character at index [i] replaced by [c]. *)
Definition with_char (i : nat) (c : N) (s : jsstring) : jsstring :=
  firstn i s ++ c :: skipn (S i) s.

(** The table and the random source are as they were. *)
Definition untouched (w w' : World) : Prop :=
  plaid_items w' = plaid_items w /\ random w' = random w.

(** A computation that, from any world, leaves the table and the random
    source alone. *)
Definition reads_only {A : Type} (h : Handler A) : Prop :=
  forall w, untouched w (snd (h w)).

(** A handler that ends in an answer, never in an exception. *)
Definition answers (h : Handler Response) : Prop :=
  forall w, exists r, fst (run h w) = Ok r.

(** The order [.order('created_at', { ascending: false })] sorts by. *)
Definition newer (a b : Row) : bool := created_at b <=? created_at a.

(** An error of the provider as its SDK throws them: it has a message,
    and when it carries the provider's answer, that answer has an error
    code and a status other than 0. *)
Definition provider_error (e : JsError) : Prop :=
  message e <> ""%string
  /\ forall r d,
       response e = Some r -> response_data r = Some d ->
       error_code d <> ""%string /\ response_status r <> Some 0.

(** A transaction whose date the runtime can read. *)
Definition readable (env : Env) (t : Transaction) : Prop :=
  Date_getTime env (date t) <> None.

(** Both dates can be read, and [b] is not dated after [a]. *)
Definition not_older (env : Env) (a b : Transaction) : Prop :=
  exists ta tb,
    Date_getTime env (date a) = Some ta
    /\ Date_getTime env (date b) = Some tb
    /\ (tb <= ta)%Z.

(** Both dates can be read, and they are dates of one instant. *)
Definition same_instant (env : Env) (a b : Transaction) : bool :=
  match Date_getTime env (date a), Date_getTime env (date b) with
  | Some ta, Some tb => (ta =? tb)%Z
  | _, _ => false
  end.

(** A lower-case hexadecimal digit. *)
Definition lower_hex (c : N) : bool :=
  (48 <=? c) && (c <=? 57) || (97 <=? c) && (c <=? 102).

(** The rows [POST] reads: those of the item that belong to the caller. *)
Definition owned (userId itemId : string) (w : World) : list jsstring :=
  map access_token
    (filter (Store.eq_user_id userId)
       (filter (Store.eq_item_id itemId) (plaid_items w))).

(** What [GET] reads from the store: the item of the caller's newest row. *)
Definition latest_item (userId : string) (w : World)
  : option string * option string :=
  Store.maybeSingle
    (map item_id
       (Store.limit 1
          (Store.order_created_at_desc
             (filter (Store.eq_user_id userId) (plaid_items w))))).

(** The row a successful exchange writes. *)
Definition written (cipher : Cipher) (encryptionKey : list byte)
    (userId : string) (exchange : ExchangeResponse) (w : World)
  : Row :=
  {| user_id := userId;
     item_id := exchanged_item_id exchange;
     access_token := fst (ExchangeTokenCodec.encrypt cipher encryptionKey
            (exchanged_access_token exchange) (random w));
     created_at := instant_at (clock w) (readings (clock w)) |}.

(* ------------------------------------------------------------------ *)
(** * A key, a random source, and a linked item with its owner and a stranger *)
(* ------------------------------------------------------------------ *)

Module Fixture.

(** The key [00 01 .. 1f]. *)
Definition key : list byte := map (fun i => byte_of (N.of_nat i)) (seq 0 32).

(** A random source that hands out [a0 a1 a2 ..]. *)
Definition rng : Rng :=
  {| supply := fun i => byte_of (N.of_nat (160 + i)); drawn := 0 |}.

(** The first nonce [rng] gives. *)
Definition iv : list byte := fst (randomBytes 16 rng).

End Fixture.

Module Scenario.

Definition wall_clock : Clock :=
  {| instant_at := fun n => 1762128000000 + 1000 * N.of_nat n; readings := 0 |}.

Definition t1 : Transaction :=
  {| transaction_id := "tx-1"; account_id := "acc-1";
     date := "2025-10-30"; name := "Coffee" |}.

Definition t2 : Transaction :=
  {| transaction_id := "tx-2"; account_id := "acc-1";
     date := "2025-11-01"; name := "Rent" |}.

Definition data : TransactionsGetResponse :=
  {| transactions := [t1; t2];
     accounts := [{| account_account_id := "acc-1";
                     account_name := "Checking" |}];
     item := {| item_item_id := "item-1"; institution_id := Some "ins_1"%string |};
     total_transactions := 2;
     request_id := "req-1" |}.

Definition invalid_token : JsError :=
  {| message := "Request failed with status code 400";
     stack := "Error: Request failed with status code 400";
     response :=
       Some {| response_status := Some 400;
               response_data :=
                 Some {| error_code := "INVALID_PUBLIC_TOKEN";
                         error_message := Some "provided public token is invalid"%string |} |} |}.

(** A sort that keeps to the language: the stable insertion sort. *)
Definition stable_sort {A : Type} (comparefn : A -> A -> option Z)
    (l : list A) : list A :=
  Store.sort_by (fun a b => (SortCompare comparefn a b <=? 0)%Z) l.

(** The public token ["pub-123"] resolves to the credential ["secret-abc"]
    of item ["item-1"]; the provider answers a fetch made with that
    credential.  The server keeps its clock in UTC. *)
Definition env (user : string) : Env :=
  {| auth_user := Some user;
     auth_error := None;
     store_failure := None;
     service_role_key := true;
     itemPublicTokenExchange := fun public_token =>
       if String.eqb public_token "pub-123"
       then Ok {| exchanged_access_token := js "secret-abc";
                  exchanged_item_id := "item-1" |}
       else Thrown invalid_token;
     transactionsGet := fun request =>
       if list_eq_dec N.eq_dec (request_access_token request) (js "secret-abc")
       then Ok data
       else Thrown invalid_token;
     fetchPlaidTransactions := fun _ _ => Ok (Some [t1; t2]);
     Date_getTime := fun d =>
       if String.eqb d "2025-10-30" then Some 1761782400000%Z
       else if String.eqb d "2025-11-01" then Some 1761955200000%Z
       else None;
     LocalTZA := fun _ _ => 0%Z;
     Array_sort := stable_sort |}.

(** The same surroundings for a caller without a session, and for a user
    while the store cannot be reached. *)
Definition signed_out : Env :=
  {| auth_user := None;
     auth_error := Some "Auth session missing!"%string;
     store_failure := None;
     service_role_key := true;
     itemPublicTokenExchange := itemPublicTokenExchange (env "");
     transactionsGet := transactionsGet (env "");
     fetchPlaidTransactions := fetchPlaidTransactions (env "");
     Date_getTime := Date_getTime (env "");
     LocalTZA := LocalTZA (env "");
     Array_sort := Array_sort (env "") |}.

Definition store_down (user : string) : Env :=
  {| auth_user := Some user;
     auth_error := None;
     store_failure := Some "connection refused"%string;
     service_role_key := true;
     itemPublicTokenExchange := itemPublicTokenExchange (env user);
     transactionsGet := transactionsGet (env user);
     fetchPlaidTransactions := fetchPlaidTransactions (env user);
     Date_getTime := Date_getTime (env user);
     LocalTZA := LocalTZA (env user);
     Array_sort := Array_sort (env user) |}.

Definition empty : World :=
  {| plaid_items := []; random := Fixture.rng; clock := wall_clock;
     events := [] |}.

Definition link (public_token : string) : Body :=
  Object [("public_token"%string, public_token)].

Definition fetch (item : string) : Body :=
  Object [("item_id"%string, item)].

(** The world after ["u1"] has linked ["item-1"]. *)
Definition linked : World :=
  snd (run (ExchangeToken.POST Aes256Gcm.cipher Fixture.key (env "u1")
              (link "pub-123")) empty).

(** The same world after the first character of the stored envelope was
    overwritten with another digit. *)
Definition corrupted : World :=
  {| plaid_items :=
       map (fun r => {| user_id := user_id r; item_id := item_id r;
                        access_token := with_char 0 98 (access_token r);
                        created_at := created_at r |})
         (plaid_items linked);
     random := random linked; clock := clock linked; events := [] |}.

(** The provider takes the credential ["secret-abc"] and nothing else as
    an access token. *)
Definition invalid_access_token : JsError :=
  {| message := "Request failed with status code 400";
     stack := "Error: Request failed with status code 400";
     response :=
       Some {| response_status := Some 400;
               response_data :=
                 Some {| error_code := "INVALID_ACCESS_TOKEN";
                         error_message :=
                           Some "could not find matching access token"%string |} |} |}.

Definition item_api : ItemApi :=
  {| itemGet := fun access_token =>
       if list_eq_dec N.eq_dec access_token (js "secret-abc")
       then Ok tt else Thrown invalid_access_token;
     transactionsSync := fun access_token cursor =>
       if list_eq_dec N.eq_dec access_token (js "secret-abc")
       then Ok tt else Thrown invalid_access_token |}.

(** The provider hands out a link token for every user. *)
Definition link_tokens (request : LinkTokenCreateRequest)
  : result LinkTokenCreateResponse :=
  Ok {| link_token := ("link-sandbox-" ++ client_user_id request)%string;
        expiration := "2025-11-03T04:00:00Z" |}.

(** The identity provider takes the code ["code-1"]. *)
Definition exchange_code (code : jsstring) : option string :=
  if list_eq_dec N.eq_dec code (js "code-1") then None
  else Some "invalid request: both auth code and code verifier should be non-empty"%string.

(** The same surroundings without the service role key, and with a
    provider that has revoked every credential. *)
Definition unconfigured (user : string) : Env :=
  {| auth_user := Some user;
     auth_error := None;
     store_failure := None;
     service_role_key := false;
     itemPublicTokenExchange := itemPublicTokenExchange (env user);
     transactionsGet := transactionsGet (env user);
     fetchPlaidTransactions := fetchPlaidTransactions (env user);
     Date_getTime := Date_getTime (env user);
     LocalTZA := LocalTZA (env user);
     Array_sort := Array_sort (env user) |}.

Definition revoked (user : string) : Env :=
  {| auth_user := Some user;
     auth_error := None;
     store_failure := None;
     service_role_key := true;
     itemPublicTokenExchange := itemPublicTokenExchange (env user);
     transactionsGet := fun _ => Thrown invalid_access_token;
     fetchPlaidTransactions := fun _ _ => Thrown invalid_access_token;
     Date_getTime := Date_getTime (env user);
     LocalTZA := LocalTZA (env user);
     Array_sort := Array_sort (env user) |}.

(** The same surroundings on a server five hours behind UTC, and with a
    provider that returns 501 transactions whatever it is asked for. *)
Definition eastern (user : string) : Env :=
  {| auth_user := Some user;
     auth_error := None;
     store_failure := None;
     service_role_key := true;
     itemPublicTokenExchange := itemPublicTokenExchange (env user);
     transactionsGet := transactionsGet (env user);
     fetchPlaidTransactions := fetchPlaidTransactions (env user);
     Date_getTime := Date_getTime (env user);
     LocalTZA := fun _ _ => (-18000000)%Z;
     Array_sort := Array_sort (env user) |}.

Definition generous (user : string) : Env :=
  {| auth_user := Some user;
     auth_error := None;
     store_failure := None;
     service_role_key := true;
     itemPublicTokenExchange := itemPublicTokenExchange (env user);
     transactionsGet := fun _ =>
       Ok {| transactions := repeat t1 501;
             accounts := accounts data;
             item := item data;
             total_transactions := 501;
             request_id := "req-2" |};
     fetchPlaidTransactions := fetchPlaidTransactions (env user);
     Date_getTime := Date_getTime (env user);
     LocalTZA := LocalTZA (env user);
     Array_sort := Array_sort (env user) |}.

(** The world after the link, with a clock that next shows 23:59:59 on
    2025-11-03 and then 00:00:00 on 2025-11-04. *)
Definition before_midnight : World :=
  {| plaid_items := plaid_items linked; random := random linked;
     clock := {| instant_at := fun n => 1762214398000 + 1000 * N.of_nat n;
                 readings := readings (clock linked) |};
     events := events linked |}.

(** An error that carries an answer with its error code left empty. *)
Definition uncoded : JsError :=
  {| message := "Request failed with status code 500";
     stack := "Error: Request failed with status code 500";
     response :=
       Some {| response_status := Some 500;
               response_data :=
                 Some {| error_code := "";
                         error_message := Some "internal"%string |} |} |}.

(** The pages' [fetch], answered by the routes in a given world. *)
Definition server (user : string) (w : World) : Client.Fetch :=
  fun url body =>
    match body with
    | Some request =>
        if String.eqb url "/api/plaid/exchange-token" then
          fst (run (ExchangeToken.POST Aes256Gcm.cipher Fixture.key
                      (env user) request) w)
        else
          fst (run (GetTransactions.POST Aes256Gcm.cipher Fixture.key
                      (env user) request) w)
    | None => fst (run (PlaidItems.GET (env user)) w)
    end.

(** The modal's [fetch], answered by the refresh and by [GET
    /api/plaid/get-transactions] in a given world. *)
Definition modal_server (user : string) (w : World) : Client.ModalFetch :=
  fun url body =>
    match
      (if String.eqb url "/api/plaid/refresh-transactions"
       then fst (run (RefreshTransactions.POST (env user) item_api) w)
       else fst (run (GetTransactions.GET (env user)) w))
    with
    | Ok r => Ok (Client.reply_of r)
    | Thrown e => Thrown e
    end.

End Scenario.

(* ================================================================== *)
(** * Part II.  Facts about the parts *)
(* ================================================================== *)

(* ------------------------------------------------------------------ *)
(** * Bytes and the hexadecimal encoding *)
(* ------------------------------------------------------------------ *)

Lemma to_N_lt (b : byte) : Byte.to_N b < 256.
Proof. pose proof (Byte.to_N_bounded b). lia. Qed.

Lemma to_N_byte_of (n : N) : n < 256 -> Byte.to_N (byte_of n) = n.
Proof.
  intros H. unfold byte_of. rewrite N.mod_small by exact H.
  destruct (Byte.of_N n) as [b|] eqn:E.
  - apply Byte.to_of_N. exact E.
  - apply Byte.of_N_None_iff in E. lia.
Qed.

Lemma byte_of_to_N (b : byte) : byte_of (Byte.to_N b) = b.
Proof.
  unfold byte_of. rewrite N.mod_small by apply to_N_lt.
  now rewrite Byte.of_to_N.
Qed.

Lemma byte_of_inj (m n : N) : m < 256 -> n < 256 -> byte_of m = byte_of n -> m = n.
Proof.
  intros Hm Hn E. apply (f_equal Byte.to_N) in E.
  now rewrite !to_N_byte_of in E.
Qed.

Module HexFacts.
Import Hex.

Lemma unhex_digit (d : N) : d < 16 -> unhex (digit d) = Some d.
Proof.
  intros H. unfold digit, unhex. cbv zeta.
  destruct (N.ltb_spec d 10).
  - rewrite (N.mod_small (48 + d)) by lia.
    replace ((48 <=? 48 + d) && (48 + d <=? 57)) with true.
    + f_equal. lia.
    + symmetry. apply andb_true_iff. split; apply N.leb_le; lia.
  - rewrite (N.mod_small (87 + d)) by lia.
    replace ((48 <=? 87 + d) && (87 + d <=? 57)) with false.
    + replace ((97 <=? 87 + d) && (87 + d <=? 102)) with true.
      * f_equal. lia.
      * symmetry. apply andb_true_iff. split; apply N.leb_le; lia.
    + symmetry. apply andb_false_iff. right. apply N.leb_gt. lia.
Qed.

Lemma unhex_lt (c d : N) : unhex c = Some d -> d < 16.
Proof.
  unfold unhex. cbv zeta. set (x := c mod 256).
  destruct ((48 <=? x) && (x <=? 57)) eqn:E1;
    [|destruct ((97 <=? x) && (x <=? 102)) eqn:E2;
      [|destruct ((65 <=? x) && (x <=? 70)) eqn:E3]];
    intros [= <-];
    repeat match goal with
           | H : _ && _ = true |- _ =>
               apply andb_true_iff in H; destruct H as [?H ?H]
           | H : (_ <=? _) = true |- _ => apply N.leb_le in H
           end; lia.
Qed.

(** A code unit is read by its low byte. *)
Lemma unhex_low_byte (c : N) : unhex (c mod 256) = unhex c.
Proof.
  unfold unhex. cbv zeta. now rewrite N.Div0.mod_mod.
Qed.

Lemma decode_pair (b : byte) (rest : jsstring) :
  decode (digit (Byte.to_N b / 16) :: digit (Byte.to_N b mod 16) :: rest)
  = b :: decode rest.
Proof.
  pose proof (to_N_lt b) as Hb.
  cbn [decode].
  rewrite !unhex_digit.
  - f_equal. rewrite <- (byte_of_to_N b) at 3. f_equal.
    pose proof (N.div_mod (Byte.to_N b) 16). lia.
  - apply N.mod_lt. lia.
  - apply N.Div0.div_lt_upper_bound. lia.
Qed.

(** Decoding what [encode] wrote gives the bytes back, whatever follows as
    long as the rest is decoded from a pair boundary. *)
Lemma decode_encode_app (bs : list byte) (rest : jsstring) :
  decode (encode bs ++ rest) = bs ++ decode rest.
Proof.
  induction bs as [|b bs IH]; [reflexivity|].
  cbn [encode app]. rewrite decode_pair. now rewrite IH.
Qed.

Lemma hex_roundtrip (bs : list byte) : decode (encode bs) = bs.
Proof.
  rewrite <- (app_nil_r (encode bs)), decode_encode_app.
  apply app_nil_r.
Qed.

Lemma encode_app (xs ys : list byte) : encode (xs ++ ys) = encode xs ++ encode ys.
Proof.
  induction xs as [|x xs IH]; [reflexivity|].
  cbn [encode app]. now rewrite IH.
Qed.

Lemma encode_length (bs : list byte) :
  List.length (encode bs) = (2 * List.length bs)%nat.
Proof.
  induction bs as [|b bs IH]; [reflexivity|].
  cbn [encode List.length]. rewrite IH. lia.
Qed.

(** The hexadecimal text of some bytes has an even length. *)
Lemma encode_even (bs : list byte) :
  Nat.odd (List.length (encode bs)) = false.
Proof.
  rewrite encode_length, <- Nat.negb_even, Nat.even_mul.
  reflexivity.
Qed.

Lemma encode_inj (xs ys : list byte) : encode xs = encode ys -> xs = ys.
Proof.
  intros E. apply (f_equal decode) in E. now rewrite !hex_roundtrip in E.
Qed.

End HexFacts.

(* ------------------------------------------------------------------ *)
(** * The UTF-8 conversion *)
(* ------------------------------------------------------------------ *)

Module Utf8Facts.
Import Utf8.

(** A Unicode scalar value: a code point that is not a surrogate. *)
Definition scalar (c : N) : Prop :=
  c < 0xD800 \/ (0xE000 <= c /\ c < 0x110000).

Lemma div_4096 (c : N) : c / 4096 = c / 64 / 64.
Proof. now rewrite N.Div0.div_div. Qed.

Lemma div_262144 (c : N) : c / 262144 = c / 64 / 64 / 64.
Proof. now rewrite !N.Div0.div_div. Qed.

(** The quotients and remainders of [c] by 64, three levels deep, named so
    that [lia] sees them as variables. *)
Ltac split64 c :=
  pose proof (N.div_mod c 64 ltac:(discriminate));
  pose proof (N.mod_lt c 64 ltac:(discriminate));
  pose proof (N.div_mod (c / 64) 64 ltac:(discriminate));
  pose proof (N.mod_lt (c / 64) 64 ltac:(discriminate));
  pose proof (N.div_mod (c / 64 / 64) 64 ltac:(discriminate));
  pose proof (N.mod_lt (c / 64 / 64) 64 ltac:(discriminate));
  let q3 := fresh "q" in
  let r3 := fresh "r" in
  let q2 := fresh "q" in
  let r2 := fresh "r" in
  let q1 := fresh "q" in
  let r1 := fresh "r" in
  set (q3 := c / 64 / 64 / 64) in *; set (r3 := (c / 64 / 64) mod 64) in *;
  set (q2 := c / 64 / 64) in *; set (r2 := (c / 64) mod 64) in *;
  set (q1 := c / 64) in *; set (r1 := c mod 64) in *;
  clearbody q3 r3 q2 r2 q1 r1.

(** Settle the comparisons of a goal one at a time by arithmetic. *)
Ltac settle :=
  repeat match goal with
         | |- context [N.ltb ?a ?b] => destruct (N.ltb_spec a b); try lia
         | |- context [N.leb ?a ?b] => destruct (N.leb_spec a b); try lia
         | |- context [N.eqb ?a ?b] => destruct (N.eqb_spec a b); try lia
         end;
  cbn [andb orb negb].

Lemma start_1 (b : N) : b < 0x80 -> start b = (Idle, [b]).
Proof. intros H. unfold start. now settle. Qed.

Lemma start_2 (b : N) :
  0xC2 <= b <= 0xDF -> start b = (Need (b - 0xC0) 1 0x80 0xBF, []).
Proof. intros H. unfold start. now settle. Qed.

Lemma start_3 (b : N) :
  0xE0 <= b <= 0xEF ->
  start b = (Need (b - 0xE0) 2 (if b =? 0xE0 then 0xA0 else 0x80)
                               (if b =? 0xED then 0x9F else 0xBF), []).
Proof.
  intros H. unfold start.
  destruct (N.ltb_spec b 0x80); [lia|].
  destruct (N.leb_spec 0xC2 b), (N.leb_spec b 0xDF); try lia;
    destruct (N.leb_spec 0xE0 b), (N.leb_spec b 0xEF); try lia; reflexivity.
Qed.

Lemma start_4 (b : N) :
  0xF0 <= b <= 0xF4 ->
  start b = (Need (b - 0xF0) 3 (if b =? 0xF0 then 0x90 else 0x80)
                               (if b =? 0xF4 then 0x8F else 0xBF), []).
Proof.
  intros H. unfold start.
  destruct (N.ltb_spec b 0x80); [lia|].
  destruct (N.leb_spec 0xC2 b), (N.leb_spec b 0xDF); try lia;
    destruct (N.leb_spec 0xE0 b), (N.leb_spec b 0xEF); try lia;
    destruct (N.leb_spec 0xF0 b), (N.leb_spec b 0xF4); try lia; reflexivity.
Qed.

Lemma step_more (cp : N) (r : nat) (lower upper b : N) :
  lower <= b <= upper ->
  step (Need cp (S (S r)) lower upper) b
  = (Need (cp * 64 + (b - 0x80)) (S r) 0x80 0xBF, []).
Proof.
  intros H. cbn [step].
  destruct (N.leb_spec lower b), (N.leb_spec b upper); try lia; reflexivity.
Qed.

Lemma step_last (cp : N) (lower upper b : N) :
  lower <= b <= upper ->
  step (Need cp 1 lower upper) b = (Idle, [cp * 64 + (b - 0x80)]).
Proof.
  intros H. cbn [step].
  destruct (N.leb_spec lower b), (N.leb_spec b upper); try lia; reflexivity.
Qed.

(** Reading the bytes of a scalar value gives the value back and leaves the
    decoder idle. *)
Lemma run_of_code_point (c : N) (rest : list byte) :
  scalar c ->
  run Idle (of_code_point c ++ rest) = c :: run Idle rest.
Proof.
  intros Hc. unfold scalar in Hc. unfold of_code_point.
  rewrite ?div_262144, ?div_4096. split64 c.
  destruct (N.ltb_spec c 0x80);
    [|destruct (N.ltb_spec c 0x800); [|destruct (N.ltb_spec c 0x10000)]];
    cbn [app run]; rewrite !to_N_byte_of by lia; cbn [step].
  - rewrite start_1 by lia. reflexivity.
  - rewrite start_2 by lia. rewrite step_last by lia.
    cbn [app]. f_equal. lia.
  - rewrite start_3 by lia.
    rewrite step_more by (split; settle; lia).
    rewrite step_last by lia. cbn [app]. f_equal. lia.
  - rewrite start_4 by lia.
    rewrite step_more by (split; settle; lia).
    rewrite step_more by lia.
    rewrite step_last by lia. cbn [app]. f_equal. lia.
Qed.

Lemma decode_of_code_point (c : N) (rest : list byte) :
  scalar c ->
  decode (of_code_point c ++ rest) = units c ++ decode rest.
Proof.
  intros Hc. unfold decode. now rewrite run_of_code_point.
Qed.

Lemma surrogates_true (u : N) :
  is_high u = true -> 0xD800 <= u <= 0xDBFF.
Proof.
  unfold is_high. intros H. apply andb_true_iff in H.
  destruct H as [H1 H2]. apply N.leb_le in H1, H2. lia.
Qed.

Lemma low_surrogate_true (v : N) :
  is_low v = true -> 0xDC00 <= v <= 0xDFFF.
Proof.
  unfold is_low. intros H. apply andb_true_iff in H.
  destruct H as [H1 H2]. apply N.leb_le in H1, H2. lia.
Qed.

Lemma units_pair (u v : N) :
  0xD800 <= u <= 0xDBFF -> 0xDC00 <= v <= 0xDFFF ->
  units (0x10000 + (u - 0xD800) * 0x400 + (v - 0xDC00)) = [u; v].
Proof.
  intros Hu Hv. unfold units.
  destruct (N.ltb_spec (0x10000 + (u - 0xD800) * 0x400 + (v - 0xDC00)) 0x10000);
    [lia|].
  replace (0x10000 + (u - 0xD800) * 0x400 + (v - 0xDC00) - 0x10000)
    with ((v - 0xDC00) + (u - 0xD800) * 0x400) by lia.
  rewrite N.div_add by discriminate.
  rewrite N.Div0.mod_add.
  rewrite N.div_small, N.mod_small by lia.
  f_equal; [|f_equal]; lia.
Qed.

Lemma units_bmp (u : N) : u < 0x10000 -> units u = [u].
Proof.
  intros H. unfold units. destruct (N.ltb_spec u 0x10000); [reflexivity|lia].
Qed.

(** The strings that survive the conversion to bytes and back are the
    well-formed ones. *)
Lemma decode_encode_upto (n : nat) (s : jsstring) :
  (List.length s <= n)%nat ->
  well_formed s = true -> decode (encode s) = s.
Proof.
  revert s. induction n as [|n IH]; intros s Hn Hwf.
  - destruct s; [reflexivity|cbn in Hn; lia].
  - destruct s as [|u rest]; [reflexivity|].
    cbn [List.length] in Hn. cbn [well_formed encode] in Hwf |- *.
    destruct (is_high u) eqn:Eh.
    + destruct rest as [|v rest']; [discriminate|].
      apply andb_true_iff in Hwf. destruct Hwf as [El Hwf].
      rewrite El. cbn [List.length] in Hn.
      apply surrogates_true in Eh. apply low_surrogate_true in El.
      rewrite decode_of_code_point by (right; lia).
      rewrite units_pair by assumption.
      rewrite IH by (assumption || lia). reflexivity.
    + destruct (is_low u) eqn:El; [discriminate|].
      apply andb_true_iff in Hwf. destruct Hwf as [Hu Hwf].
      apply N.ltb_lt in Hu.
      assert (scalar u) as Hs.
      { unfold scalar, is_high, is_low in *.
        destruct (N.leb_spec 0xD800 u), (N.leb_spec u 0xDBFF),
          (N.leb_spec 0xDC00 u), (N.leb_spec u 0xDFFF);
          cbn in Eh, El; try discriminate; lia. }
      rewrite decode_of_code_point by exact Hs.
      rewrite units_bmp by exact Hu.
      rewrite IH by (assumption || lia). reflexivity.
Qed.

Lemma utf8_roundtrip (s : jsstring) :
  well_formed s = true -> decode (encode s) = s.
Proof. apply (decode_encode_upto (List.length s)). lia. Qed.

(** ASCII text is well formed. *)
Lemma well_formed_ascii (s : jsstring) :
  Forall (fun u => u < 0x80) s -> well_formed s = true.
Proof.
  induction 1 as [|u rest Hu _ IH]; [reflexivity|].
  cbn [well_formed]. unfold is_high, is_low.
  destruct (N.leb_spec 0xD800 u); [lia|].
  destruct (N.leb_spec 0xDC00 u); [lia|]. cbn [andb].
  rewrite IH. destruct (N.ltb_spec u 0x10000); [reflexivity|lia].
Qed.

End Utf8Facts.

(* ------------------------------------------------------------------ *)
(** * The codec *)
(* ------------------------------------------------------------------ *)

Module CodecFacts.

Lemma randomBytes_length (n : nat) (g : Rng) :
  List.length (fst (randomBytes n g)) = n.
Proof. cbn. now rewrite length_map, length_seq. Qed.

Lemma randomBytes_drawn (n : nat) (g : Rng) :
  drawn (snd (randomBytes n g)) = (drawn g + n)%nat.
Proof. reflexivity. Qed.

Lemma substring_prefix (n : nat) (a rest : jsstring) :
  List.length a = n -> substring 0 n (a ++ rest) = a.
Proof.
  intros H. unfold substring. rewrite Nat.sub_0_r. cbn [skipn].
  rewrite firstn_app, H, Nat.sub_diag. cbn [firstn].
  rewrite <- H, firstn_all. apply app_nil_r.
Qed.

Lemma substring_middle (n m : nat) (a b rest : jsstring) :
  List.length a = n -> List.length b = (m - n)%nat ->
  substring n m (a ++ b ++ rest) = b.
Proof.
  intros Ha Hb. unfold substring.
  rewrite skipn_app, Ha, Nat.sub_diag, <- Ha, skipn_all. cbn [app skipn].
  rewrite Ha, firstn_app, Hb, Nat.sub_diag. cbn [firstn].
  rewrite <- Hb, firstn_all. apply app_nil_r.
Qed.

Lemma substring_from_suffix (n : nat) (a rest : jsstring) :
  List.length a = n -> substring_from n (a ++ rest) = rest.
Proof.
  intros H. unfold substring_from.
  rewrite skipn_app, H, Nat.sub_diag, <- H, skipn_all. reflexivity.
Qed.

Section WithKey.

Variable cipher : Cipher.
Variable encryptionKey : list byte.

(** The two ways of writing the envelope give the same text. *)
Lemma encrypt_with_same (iv : list byte) (plain : jsstring) :
  InsertTokenCodec.encrypt_with cipher encryptionKey iv plain
  = ExchangeTokenCodec.encrypt_with cipher encryptionKey iv plain.
Proof.
  unfold InsertTokenCodec.encrypt_with, ExchangeTokenCodec.encrypt_with.
  destruct (seal cipher encryptionKey iv (Utf8.encode plain)) as [enc authTag].
  now rewrite !HexFacts.encode_app.
Qed.

Lemma encrypt_same (plain : jsstring) (g : Rng) :
  InsertTokenCodec.encrypt cipher encryptionKey plain g
  = ExchangeTokenCodec.encrypt cipher encryptionKey plain g.
Proof.
  unfold InsertTokenCodec.encrypt, ExchangeTokenCodec.encrypt.
  unfold InsertTokenCodec.IV_LENGTH, ExchangeTokenCodec.IV_LENGTH.
  destruct (randomBytes 16 g) as [iv g'].
  now rewrite encrypt_with_same.
Qed.

(** The envelope is the three parts in hexadecimal, one after the other. *)
Lemma encrypt_with_parts (iv : list byte) (plain : jsstring) :
  ExchangeTokenCodec.encrypt_with cipher encryptionKey iv plain
  = Hex.encode iv
    ++ Hex.encode (snd (seal cipher encryptionKey iv (Utf8.encode plain)))
    ++ Hex.encode (fst (seal cipher encryptionKey iv (Utf8.encode plain))).
Proof.
  unfold ExchangeTokenCodec.encrypt_with.
  destruct (seal cipher encryptionKey iv (Utf8.encode plain)) as [enc authTag].
  now rewrite !HexFacts.encode_app.
Qed.

(** Reading a text finds its first 32 characters, the next 32, and the
    rest. *)
Lemma parts_of_text (a b rest : jsstring) :
  List.length a = 32%nat -> List.length b = 32%nat ->
  GetTransactionsCodec.iv_of (a ++ b ++ rest) = Hex.decode a
  /\ GetTransactionsCodec.authTag_of (a ++ b ++ rest) = Hex.decode b
  /\ GetTransactionsCodec.encrypted_of (a ++ b ++ rest) = rest.
Proof.
  intros Ha Hb.
  unfold GetTransactionsCodec.iv_of, GetTransactionsCodec.authTag_of,
    GetTransactionsCodec.encrypted_of,
    GetTransactionsCodec.IV_LENGTH, GetTransactionsCodec.AUTH_TAG_LENGTH.
  repeat split.
  - now rewrite substring_prefix by exact Ha.
  - now rewrite substring_middle by (cbn; lia).
  - now rewrite app_assoc, substring_from_suffix
      by (rewrite length_app; cbn; lia).
Qed.

(** Reading an envelope made of a 16-byte nonce, a 16-byte tag and a
    ciphertext finds exactly these parts. *)
Lemma parts_of_envelope (iv tag enc : list byte) :
  List.length iv = 16%nat -> List.length tag = 16%nat ->
  let text := Hex.encode iv ++ Hex.encode tag ++ Hex.encode enc in
  GetTransactionsCodec.iv_of text = iv
  /\ GetTransactionsCodec.authTag_of text = tag
  /\ GetTransactionsCodec.encrypted_of text = Hex.encode enc.
Proof.
  intros Hiv Htag text. subst text.
  destruct (parts_of_text (Hex.encode iv) (Hex.encode tag) (Hex.encode enc))
    as (-> & -> & ->);
    try (rewrite HexFacts.encode_length; lia).
  now rewrite !HexFacts.hex_roundtrip.
Qed.

(** Opening an envelope sealed under the same key gives the text that the
    bytes of the plaintext decode to. *)
Lemma decrypt_encrypt_with (iv : list byte) (plain : jsstring) :
  Lawful cipher ->
  List.length encryptionKey = 32%nat -> List.length iv = 16%nat ->
  GetTransactionsCodec.decrypt cipher encryptionKey
    (ExchangeTokenCodec.encrypt_with cipher encryptionKey iv plain)
  = Ok (Utf8.decode (Utf8.encode plain)).
Proof.
  intros L Hk Hiv. rewrite encrypt_with_parts.
  unfold GetTransactionsCodec.decrypt.
  pose proof (tag_length cipher L encryptionKey iv (Utf8.encode plain) Hk Hiv)
    as Htag.
  destruct (parts_of_envelope iv _
              (fst (seal cipher encryptionKey iv (Utf8.encode plain)))
              Hiv Htag) as (-> & -> & ->).
  rewrite (setup_seal cipher L) by assumption.
  rewrite HexFacts.encode_even, HexFacts.hex_roundtrip.
  now rewrite (open_seal cipher L) by assumption.
Qed.

End WithKey.
End CodecFacts.

(* ------------------------------------------------------------------ *)
(** * The cipher *)
(* ------------------------------------------------------------------ *)

Module Aes256GcmFacts.
Import Aes256Gcm.

Definition small (vs : list N) : Prop := Forall (fun v => v < 256) vs.

Lemma lxor_small (a b : N) : a < 256 -> b < 256 -> N.lxor a b < 256.
Proof.
  intros Ha Hb.
  destruct (N.eq_dec (N.lxor a b) 0) as [E|E]; [rewrite E; lia|].
  change 256 with (2 ^ 8) in *.
  apply N.log2_lt_pow2; [lia|].
  pose proof (N.log2_lxor a b) as Hl.
  assert (N.log2 a < 8) as La.
  { destruct (N.eq_dec a 0) as [->|]; [cbn; lia|].
    apply N.log2_lt_pow2; [lia|exact Ha]. }
  assert (N.log2 b < 8) as Lb.
  { destruct (N.eq_dec b 0) as [->|]; [cbn; lia|].
    apply N.log2_lt_pow2; [lia|exact Hb]. }
  lia.
Qed.

Lemma lxor_twice (a b : N) : N.lxor (N.lxor a b) b = a.
Proof. now rewrite N.lxor_assoc, N.lxor_nilpotent, N.lxor_0_r. Qed.

Lemma values_small (bs : list byte) : small (values bs).
Proof.
  unfold small, values. apply Forall_map, Forall_forall.
  intros b _. apply to_N_lt.
Qed.

Lemma values_bytes (vs : list N) : small vs -> values (bytes vs) = vs.
Proof.
  unfold small, values, bytes. induction 1 as [|v vs Hv _ IH]; [reflexivity|].
  cbn [map]. now rewrite to_N_byte_of, IH.
Qed.

Lemma bytes_values (bs : list byte) : bytes (values bs) = bs.
Proof.
  unfold values, bytes. induction bs as [|b bs IH]; [reflexivity|].
  cbn [map]. now rewrite byte_of_to_N, IH.
Qed.

Lemma bytes_length (vs : list N) : List.length (bytes vs) = List.length vs.
Proof. apply length_map. Qed.

Lemma values_length (bs : list byte) : List.length (values bs) = List.length bs.
Proof. apply length_map. Qed.

Lemma bytes_of_length (n : nat) (x : N) : List.length (bytes_of n x) = n.
Proof. induction n as [|n IH]; [reflexivity|]. cbn. now rewrite IH. Qed.

Lemma bytes_of_small (n : nat) (x : N) : small (bytes_of n x).
Proof.
  induction n as [|n IH]; [constructor|].
  cbn [bytes_of]. constructor; [|exact IH].
  apply N.mod_lt. discriminate.
Qed.

Lemma keystream_length (key : list N) (n : nat) (cb : N) :
  List.length (keystream key n cb) = (16 * n)%nat.
Proof.
  revert cb. induction n as [|n IH]; intros cb; [reflexivity|].
  cbn [keystream]. rewrite length_app, bytes_of_length, IH. lia.
Qed.

Lemma keystream_small (key : list N) (n : nat) (cb : N) :
  small (keystream key n cb).
Proof.
  revert cb. induction n as [|n IH]; intros cb; [constructor|].
  cbn [keystream]. apply Forall_app. split; [apply bytes_of_small|apply IH].
Qed.

Lemma stream_length (key iv : list N) (len : nat) :
  List.length (stream key iv len) = len.
Proof.
  unfold stream. rewrite length_firstn, keystream_length.
  pose proof (Nat.div_mod_eq (len + 15) 16).
  pose proof (Nat.mod_upper_bound (len + 15) 16). lia.
Qed.

Lemma stream_small (key iv : list N) (len : nat) : small (stream key iv len).
Proof.
  unfold stream.
  pose proof (keystream_small key (Nat.div (len + 15) 16)
                (inc32 (J0 (E key 0) iv))) as H.
  unfold small in *. rewrite <- (firstn_skipn len) in H.
  now apply Forall_app in H.
Qed.

Lemma xor_list_length (a b : list N) :
  List.length a = List.length b -> List.length (xor_list a b) = List.length a.
Proof.
  intros H. unfold xor_list. rewrite length_map, length_combine. lia.
Qed.

Lemma xor_list_small (a b : list N) : small a -> small b -> small (xor_list a b).
Proof.
  unfold small, xor_list. intros Ha. revert b.
  induction Ha as [|x a Hx _ IH]; intros b Hb; [constructor|].
  destruct Hb as [|y b Hy Hb]; [constructor|].
  cbn. constructor; [now apply lxor_small|now apply IH].
Qed.

Lemma xor_list_twice (a b : list N) :
  List.length a = List.length b -> xor_list (xor_list a b) b = a.
Proof.
  unfold xor_list. revert b.
  induction a as [|x a IH]; intros [|y b] H; try discriminate; [reflexivity|].
  cbn in *. rewrite lxor_twice. f_equal. apply IH. lia.
Qed.

Lemma bytes_eqb_refl (a : list byte) : bytes_eqb a a = true.
Proof.
  induction a as [|x a IH]; [reflexivity|].
  cbn [bytes_eqb]. rewrite IH.
  now rewrite (Byte.byte_dec_lb (eq_refl x)).
Qed.

Lemma tag_of_length (key iv ct : list N) : List.length (tag_of key iv ct) = 16%nat.
Proof. unfold tag_of. cbv zeta. apply bytes_of_length. Qed.

Lemma seal_tag_length (key iv plain : list byte) :
  List.length (snd (seal key iv plain)) = 16%nat.
Proof. unfold seal. cbn [snd]. now rewrite bytes_length, tag_of_length. Qed.

Lemma gcm_setup_seal (key iv plain : list byte) :
  List.length key = 32%nat -> List.length iv = 16%nat ->
  setup key iv (snd (seal key iv plain)) = None.
Proof.
  intros Hk Hiv. unfold setup.
  now rewrite Hk, Hiv, seal_tag_length.
Qed.

Lemma gcm_open_seal (key iv plain : list byte) :
  open key iv (snd (seal key iv plain)) (fst (seal key iv plain)) = Ok plain.
Proof.
  pose proof (seal_tag_length key iv plain) as Ht.
  unfold open. rewrite Ht.
  cbn [seal fst snd] in *.
  set (s := stream (values key) (values iv) (List.length plain)).
  assert (List.length (values plain) = List.length s) as Hl
      by (subst s; now rewrite stream_length, values_length).
  assert (small (xor_list (values plain) s)) as Hs
      by (apply xor_list_small; [apply values_small|apply stream_small]).
  rewrite values_bytes by exact Hs.
  rewrite <- Ht at 1. rewrite firstn_all, bytes_eqb_refl.
  rewrite bytes_length, xor_list_length, values_length by exact Hl.
  fold s. rewrite xor_list_twice by exact Hl.
  now rewrite bytes_values.
Qed.

(** The cipher keeps the laws the codec relies on. *)
Lemma lawful : Lawful cipher.
Proof.
  split.
  - intros key iv plain _ _. apply seal_tag_length.
  - apply gcm_setup_seal.
  - intros key iv plain _ _. apply gcm_open_seal.
Qed.

Lemma bytes_eqb_eq (a b : list byte) : bytes_eqb a b = true -> a = b.
Proof.
  revert b. induction a as [|x a IH]; intros [|y b] H; try discriminate;
    [reflexivity|].
  cbn [bytes_eqb] in H. apply andb_true_iff in H. destruct H as [Hx Hab].
  apply Byte.byte_dec_bl in Hx. subst y. f_equal. now apply IH.
Qed.

(** A 16-byte tag other than the one sealed is always refused, with the
    same nonce and ciphertext. *)
Lemma gcm_refuses_another_tag (key iv plain tag : list byte) :
  List.length tag = 16%nat ->
  tag <> snd (seal key iv plain) ->
  open key iv tag (fst (seal key iv plain))
  = Thrown (new_Error "Unsupported state or unable to authenticate data").
Proof.
  intros Ht Hne. unfold open. rewrite Ht.
  destruct (bytes_eqb _ tag) eqn:E; [|reflexivity].
  exfalso. apply Hne. apply bytes_eqb_eq in E. rewrite <- E.
  unfold seal. cbn [fst snd].
  set (s := stream (values key) (values iv) (List.length plain)).
  rewrite values_bytes
    by (apply xor_list_small; [apply values_small|apply stream_small]).
  rewrite <- (tag_of_length (values key) (values iv)
                (xor_list (values plain) s)) at 1.
  rewrite <- bytes_length. now rewrite firstn_all.
Qed.

(** What the cipher says when it refuses depends on the lengths of the key,
    the nonce and the tag, and on nothing else: it shows neither the key
    nor the data. *)
Lemma gcm_refusal_messages (key iv tag data : list byte) (e : JsError) :
  setup key iv tag = Some e \/ open key iv tag data = Thrown e ->
  e = new_Error "Invalid key length"
  \/ e = new_Error "Invalid initialization vector"
  \/ e = new_Error ("Invalid authentication tag length: "
                    ++ NilZero.string_of_uint (Nat.to_uint (List.length tag)))
  \/ e = new_Error "Unsupported state or unable to authenticate data".
Proof.
  unfold setup, open. intros [H|H]; revert H.
  - destruct (negb (Nat.eqb (List.length key) 32)); [intros [= <-]; auto|].
    destruct (Nat.eqb (List.length iv) 0); [intros [= <-]; auto|].
    destruct (negb (valid_tag_length (List.length tag)));
      [intros [= <-]; auto|discriminate].
  - destruct (bytes_eqb _ tag); [discriminate|intros [= <-]; auto].
Qed.

End Aes256GcmFacts.

(** FIPS 197, appendix C.3. *)
Example encrypt_block_known_answer :
  Aes256Gcm.encrypt_block (map N.of_nat (seq 0 32))
    [0x00; 0x11; 0x22; 0x33; 0x44; 0x55; 0x66; 0x77;
     0x88; 0x99; 0xaa; 0xbb; 0xcc; 0xdd; 0xee; 0xff]
  = [0x8e; 0xa2; 0xb7; 0xca; 0x51; 0x67; 0x45; 0xbf;
     0xea; 0xfc; 0x49; 0x90; 0x4b; 0x49; 0x60; 0x89].
Proof. vm_compute. reflexivity. Qed.

(** The GCM test case with an all-zero 256-bit key, a 96-bit zero nonce and
    one zero block. *)
Example seal_known_answer :
  Aes256Gcm.seal (repeat x00 32) (repeat x00 12) (repeat x00 16)
  = (Hex.decode (js "cea7403d4d606b6e074ec5d3baf39d18"),
     Hex.decode (js "d0d1c8a799996bf0265b98b5d48ab919")).
Proof. vm_compute. reflexivity. Qed.

(** Envelopes under the fixture key and nonce, as the runtime's cipher
    writes them. *)
Example envelope_known_answer :
  ExchangeTokenCodec.encrypt_with Aes256Gcm.cipher Fixture.key Fixture.iv
    (js "secret-abc")
  = js "a0a1a2a3a4a5a6a7a8a9aaabacadaeafb99e58ec098df330fb576ee1c2147cbb59c640ce7db9e017a1fd".
Proof. vm_compute. reflexivity. Qed.

Example long_envelope_known_answer :
  ExchangeTokenCodec.encrypt_with Aes256Gcm.cipher Fixture.key Fixture.iv
    (js "access-sandbox-0123456789abcdef-0123")
  = js "a0a1a2a3a4a5a6a7a8a9aaabacadaeaf9c2fb21b1f7ab3a01e7e71b0e0e2e9314bc040d96bbee005a2f07bd3826ca0a0b377704d4b026694c47308d57d5040aa3ca0d450".
Proof. vm_compute. reflexivity. Qed.

Example empty_envelope_known_answer :
  ExchangeTokenCodec.encrypt_with Aes256Gcm.cipher Fixture.key Fixture.iv []
  = js "a0a1a2a3a4a5a6a7a8a9aaabacadaeaf022f841c702b66b0bec8111f67de221d".
Proof. vm_compute. reflexivity. Qed.

(* ------------------------------------------------------------------ *)
(** * Changing one character of a text *)
(* ------------------------------------------------------------------ *)

Module TamperFacts.
Import Hex.

Lemma with_char_head (c x : N) (s : jsstring) : with_char 0 c (x :: s) = c :: s.
Proof. reflexivity. Qed.

Lemma with_char_tail (i : nat) (c x : N) (s : jsstring) :
  with_char (S i) c (x :: s) = x :: with_char i c s.
Proof. reflexivity. Qed.

Lemma with_char_length (i : nat) (c : N) (s : jsstring) :
  (i < List.length s)%nat -> List.length (with_char i c s) = List.length s.
Proof.
  intros H. unfold with_char.
  rewrite length_app. cbn [List.length].
  rewrite length_firstn, length_skipn. lia.
Qed.

Lemma with_char_app_l (i : nat) (c : N) (a b : jsstring) :
  (i < List.length a)%nat -> with_char i c (a ++ b) = with_char i c a ++ b.
Proof.
  revert i. induction a as [|x a IH]; intros i H; [cbn in H; lia|].
  destruct i as [|i]; [reflexivity|].
  cbn [app]. rewrite !with_char_tail. cbn [app]. f_equal.
  apply IH. cbn in H. lia.
Qed.

Lemma with_char_app_r (i : nat) (c : N) (a b : jsstring) :
  (List.length a <= i)%nat ->
  with_char i c (a ++ b) = a ++ with_char (i - List.length a) c b.
Proof.
  revert i. induction a as [|x a IH]; intros i H.
  - cbn. now rewrite Nat.sub_0_r.
  - destruct i as [|i]; [cbn in H; lia|].
    cbn [app List.length Nat.sub]. rewrite with_char_tail. f_equal.
    apply IH. cbn in H. lia.
Qed.


(** A character that stands for anything else changes the bytes read from
    what [encode] wrote. *)
Lemma decode_with_char_other (bs : list byte) (i : nat) (c : N) :
  (i < List.length (encode bs))%nat ->
  unhex c <> unhex (nth i (encode bs) 0) ->
  decode (with_char i c (encode bs)) <> bs.
Proof.
  revert i. induction bs as [|b bs IH]; intros i Hi Hc; [cbn in Hi; lia|].
  pose proof (to_N_lt b) as Hb.
  assert (Byte.to_N b / 16 < 16) as Hh
      by (apply N.Div0.div_lt_upper_bound; lia).
  assert (Byte.to_N b mod 16 < 16) as Hl by (apply N.mod_lt; lia).
  pose proof (N.div_mod (Byte.to_N b) 16 ltac:(discriminate)) as Hdm.
  cbn [encode] in *.
  set (q := Byte.to_N b / 16) in *. set (r := Byte.to_N b mod 16) in *.
  clearbody q r. destruct i as [|[|i]].
  - rewrite with_char_head. cbn [nth] in Hc. cbn [decode].
    rewrite HexFacts.unhex_digit in * by assumption.
    destruct (unhex c) as [h|] eqn:Eh; [|discriminate].
    intros E. apply (f_equal (hd b)) in E. cbn [hd] in E.
    apply Hc. f_equal. apply HexFacts.unhex_lt in Eh.
    rewrite <- (byte_of_to_N b) in E.
    apply byte_of_inj in E; lia.
  - rewrite with_char_tail, with_char_head. cbn [nth] in Hc. cbn [decode].
    rewrite HexFacts.unhex_digit in * by assumption.
    destruct (unhex c) as [l|] eqn:El; [|discriminate].
    intros E. apply (f_equal (hd b)) in E. cbn [hd] in E.
    apply Hc. f_equal. apply HexFacts.unhex_lt in El.
    rewrite <- (byte_of_to_N b) in E.
    apply byte_of_inj in E; lia.
  - rewrite !with_char_tail. cbn [nth] in Hc. cbn [decode].
    rewrite !HexFacts.unhex_digit by assumption.
    intros E. apply (f_equal (@tl byte)) in E. cbn [tl] in E.
    revert E. apply IH; [cbn in Hi; lia|exact Hc].
Qed.

(** Every character of what [encode] wrote is a digit. *)
Lemma unhex_encode (bs : list byte) (i : nat) :
  (i < List.length (encode bs))%nat ->
  exists d, unhex (nth i (encode bs) 0) = Some d.
Proof.
  revert i. induction bs as [|b bs IH]; intros i Hi; [cbn in Hi; lia|].
  pose proof (to_N_lt b) as Hb.
  cbn [encode] in *. destruct i as [|[|i]]; cbn [nth].
  - eexists. apply HexFacts.unhex_digit.
    apply N.Div0.div_lt_upper_bound. lia.
  - eexists. apply HexFacts.unhex_digit. apply N.mod_lt. lia.
  - apply IH. cbn in Hi. lia.
Qed.

(** At most one byte is read for every two characters. *)
Lemma decode_length (n : nat) (s : jsstring) :
  (List.length s <= n)%nat ->
  (2 * List.length (decode s) <= List.length s)%nat.
Proof.
  revert s. induction n as [|n IH]; intros s Hn.
  - destruct s; [cbn; lia|cbn in Hn; lia].
  - destruct s as [|hi [|lo rest]]; [cbn; lia|cbn; lia|].
    cbn [decode]. destruct (unhex hi), (unhex lo); cbn [List.length]; try lia.
    specialize (IH rest). cbn in Hn. lia.
Qed.

End TamperFacts.

Section TamperedEnvelope.
Import GetTransactionsCodec.



End TamperedEnvelope.

(** What [decrypt] says to texts it refuses: a changed digit, no nonce at
    all, a tag of a length the cipher does not take, and a ciphertext of
    odd length, even behind a nonce and a tag that are valid for the rest
    of it. *)
Example decrypt_refusals :
  GetTransactionsCodec.decrypt Aes256Gcm.cipher Fixture.key
    (js "a0a1a2a3a4a5a6a7a8a9aaabacadaeafb99e58ec098df330fb576ee1c2147cbb59c640ce7db9e017a1fe")
  = Thrown (new_Error
      "Decryption failed: Unsupported state or unable to authenticate data")
  /\ GetTransactionsCodec.decrypt Aes256Gcm.cipher Fixture.key []
     = Thrown (new_Error "Decryption failed: Invalid initialization vector")
  /\ GetTransactionsCodec.decrypt Aes256Gcm.cipher Fixture.key
       (js "a0a1a2a3a4a5a6a7a8a9aaabacadaeafb99e58ec09")
     = Thrown (new_Error
         "Decryption failed: Invalid authentication tag length: 5")
  /\ GetTransactionsCodec.decrypt Aes256Gcm.cipher Fixture.key
       (js "a0a1a2a3a4a5a6a7a8a9aaabacadaeaf022f841c702b66b0bec8111f67de221d0")
     = Thrown (new_Error
         "Decryption failed: The argument 'encoding' is invalid for data of length 1. Received 'hex'").
Proof. vm_compute. repeat split; reflexivity. Qed.

(* ------------------------------------------------------------------ *)
(** * Days *)
(* ------------------------------------------------------------------ *)

Module DateFacts.

(** The day of a time is the one whose 86400000 milliseconds hold it. *)
Lemma Day_bounds (t : Z) :
  (msPerDay * Day t <= t < msPerDay * (Day t + 1))%Z.
Proof.
  unfold Day, msPerDay.
  pose proof (Z.div_mod t 86400000 ltac:(lia)).
  pose proof (Z.mod_pos_bound t 86400000 ltac:(lia)). lia.
Qed.

Lemma Day_unique (t d : Z) :
  (msPerDay * d <= t < msPerDay * (d + 1))%Z -> Day t = d.
Proof.
  unfold Day, msPerDay. intros H. symmetry.
  apply Z.div_unique with (r := (t - 86400000 * d)%Z); lia.
Qed.

End DateFacts.

(* ------------------------------------------------------------------ *)
(** * Sorting and the upsert *)
(* ------------------------------------------------------------------ *)

Module SortFacts.
Import Store.

Section Sorting.

Context {A : Type} (le : A -> A -> bool).

Lemma insert_by_permutation (x : A) (l : list A) :
  Permutation (insert_by le x l) (x :: l).
Proof.
  induction l as [|y l IH]; [reflexivity|].
  cbn [insert_by]. destruct (le x y); [reflexivity|].
  rewrite IH. apply perm_swap.
Qed.

Lemma sort_by_permutation (l : list A) : Permutation (sort_by le l) l.
Proof.
  induction l as [|x l IH]; [reflexivity|].
  cbn [sort_by fold_right]. fold (sort_by le l).
  rewrite insert_by_permutation. now constructor.
Qed.

(** Two elements can always be put in order. *)
Hypothesis le_total : forall a b, le a b = false -> le b a = true.

Lemma insert_by_sorted (x : A) (l : list A) :
  Sorted (fun a b => le a b = true) l ->
  Sorted (fun a b => le a b = true) (insert_by le x l).
Proof.
  induction 1 as [|y l Hl IH Hhd]; cbn [insert_by].
  - repeat constructor.
  - destruct (le x y) eqn:E.
    + constructor; [now constructor|now constructor].
    + constructor; [exact IH|].
      destruct l as [|z l]; cbn [insert_by].
      * constructor. now apply le_total.
      * destruct (le x z); constructor;
          [now apply le_total|now inversion Hhd].
Qed.

Lemma sort_by_sorted (l : list A) :
  Sorted (fun a b => le a b = true) (sort_by le l).
Proof.
  induction l as [|x l IH]; [constructor|].
  cbn [sort_by fold_right]. now apply insert_by_sorted.
Qed.

End Sorting.

(** Sorting by insertion with a comparison that orders the elements of
    [u]. *)
Section Consistent.

Context {A : Type} (cmp : A -> A -> Z) (u : list A).
Hypothesis Hcmp : orders cmp u.

Lemma consistent_flip (a b : A) :
  In a u -> In b u -> (cmp a b > 0)%Z -> (cmp b a < 0)%Z.
Proof.
  intros Ha Hb H.
  destruct (Hcmp a b a Ha Hb Ha) as (Haa & _ & _ & _ & Hgt).
  destruct (Hcmp b a b Hb Ha Hb) as (_ & Hsym & _).
  destruct (Z.lt_trichotomy (cmp b a) 0) as [L|[E|G]]; [exact L| |].
  - specialize (Hsym E). lia.
  - specialize (Hgt H ltac:(lia)). lia.
Qed.

Lemma consistent_le_trans (a b c : A) :
  In a u -> In b u -> In c u ->
  (cmp a b <= 0)%Z -> (cmp b c <= 0)%Z -> (cmp a c <= 0)%Z.
Proof.
  intros Ha Hb Hc Hab Hbc.
  destruct (Z.le_gt_cases (cmp a c) 0) as [L|G]; [exact L|exfalso].
  pose proof (consistent_flip a c Ha Hc ltac:(lia)) as Hca.
  destruct (Hcmp a b c Ha Hb Hc) as (_ & Sab & Eabc & Labc & _).
  destruct (Hcmp c a b Hc Ha Hb) as (_ & _ & _ & Lcab & _).
  destruct (Hcmp b c a Hb Hc Ha) as (_ & Sbc & _ & Lbca & _).
  lia.
Qed.

Lemma consistent_same (a x y : A) :
  In a u -> In x u -> In y u ->
  cmp a x = 0%Z -> cmp a y = 0%Z -> cmp x y = 0%Z.
Proof.
  intros Ha Hx Hy Eax Eay.
  destruct (Hcmp a x a Ha Hx Ha) as (_ & Sax & _).
  destruct (Hcmp x a y Hx Ha Hy) as (_ & _ & Exay & _).
  auto.
Qed.

Lemma insert_by_ordered (x : A) (s : list A) :
  In x u -> incl s u ->
  StronglySorted (fun a b => (cmp a b <= 0)%Z) s ->
  StronglySorted (fun a b => (cmp a b <= 0)%Z)
    (insert_by (fun a b => (cmp a b <=? 0)%Z) x s).
Proof.
  intros Hx Hs H. induction H as [|y s Hsorted IH Hall]; cbn [insert_by].
  - repeat constructor.
  - assert (In y u) as Hy by (apply Hs; now left).
    assert (incl s u) as Hs' by (intros z Hz; apply Hs; now right).
    destruct (Z.leb_spec (cmp x y) 0) as [L|G].
    + constructor; [now constructor|].
      constructor; [exact L|].
      rewrite Forall_forall in *. intros z Hz.
      apply (consistent_le_trans x y z); auto.
    + constructor; [now apply IH|].
      apply Forall_forall. intros z Hz.
      apply (Permutation_in _ (insert_by_permutation _ x s)) in Hz.
      destruct Hz as [<-|Hz].
      * pose proof (consistent_flip x y Hx Hy ltac:(lia)). lia.
      * rewrite Forall_forall in Hall. now apply Hall.
Qed.

Lemma sort_by_ordered (l : list A) :
  incl l u ->
  StronglySorted (fun a b => (cmp a b <= 0)%Z)
    (sort_by (fun a b => (cmp a b <=? 0)%Z) l).
Proof.
  induction l as [|x l IH]; intros Hl; [constructor|].
  cbn [sort_by fold_right].
  fold (sort_by (fun a b => (cmp a b <=? 0)%Z) l).
  apply insert_by_ordered.
  - apply Hl. now left.
  - intros z Hz. apply (Permutation_in _ (sort_by_permutation _ l)) in Hz.
    apply Hl. now right.
  - apply IH. intros z Hz. apply Hl. now right.
Qed.

Lemma insert_by_stable (a x : A) (s : list A) :
  In a u -> In x u -> incl s u ->
  filter (fun y => (cmp a y =? 0)%Z)
    (insert_by (fun a b => (cmp a b <=? 0)%Z) x s)
  = filter (fun y => (cmp a y =? 0)%Z) (x :: s).
Proof.
  intros Ha Hx Hs. induction s as [|y s IH]; [reflexivity|].
  cbn [insert_by].
  destruct (Z.leb_spec (cmp x y) 0) as [L|G]; [reflexivity|].
  assert (In y u) as Hy by (apply Hs; now left).
  assert (incl s u) as Hs' by (intros z Hz; apply Hs; now right).
  cbn [filter]. rewrite (IH Hs'). cbn [filter].
  destruct (Z.eqb_spec (cmp a x) 0) as [Ex|Ex],
           (Z.eqb_spec (cmp a y) 0) as [Ey|Ey]; try reflexivity.
  pose proof (consistent_same a x y Ha Hx Hy Ex Ey). lia.
Qed.

Lemma sort_by_stable (a : A) (l : list A) :
  In a u -> incl l u ->
  filter (fun y => (cmp a y =? 0)%Z)
    (sort_by (fun a b => (cmp a b <=? 0)%Z) l)
  = filter (fun y => (cmp a y =? 0)%Z) l.
Proof.
  intros Ha. induction l as [|x l IH]; intros Hl; [reflexivity|].
  cbn [sort_by fold_right].
  fold (sort_by (fun a b => (cmp a b <=? 0)%Z) l).
  rewrite insert_by_stable.
  - cbn [filter]. rewrite IH; [reflexivity|].
    intros z Hz. apply Hl. now right.
  - exact Ha.
  - apply Hl. now left.
  - intros z Hz. apply (Permutation_in _ (sort_by_permutation _ l)) in Hz.
    apply Hl. now right.
Qed.

End Consistent.

(** The stable insertion sort does what the language asks of a sort. *)
Lemma stable_sort_as_specified {A : Type} :
  sorts_as_specified (@Scenario.stable_sort A).
Proof.
  split; intros comparefn l; unfold Scenario.stable_sort.
  - intros _. apply sort_by_permutation.
  - intros [_ H]. apply (sort_by_ordered _ l H). apply incl_refl.
  - intros a [_ H] Ha. apply (sort_by_stable _ l H a l Ha). apply incl_refl.
Qed.

(** On transactions whose dates can be read, the comparison of [GET] is
    consistent. *)
Lemma compare_dates_consistent (env : Env) (l : list Transaction) :
  Forall (readable env) l ->
  consistent (GetTransactions.compare_dates env) l.
Proof.
  intros H. rewrite Forall_forall in H. split.
  - intros a b Ha Hb.
    pose proof (H a Ha) as Ra. pose proof (H b Hb) as Rb.
    unfold readable, GetTransactions.compare_dates in *.
    destruct (Date_getTime env (date a)); [|contradiction].
    destruct (Date_getTime env (date b)); [discriminate|contradiction].
  - intros a b c Ha Hb Hc.
    pose proof (H a Ha) as Ra. pose proof (H b Hb) as Rb.
    pose proof (H c Hc) as Rc.
    unfold readable, SortCompare, GetTransactions.compare_dates in *.
    destruct (Date_getTime env (date a)); [|contradiction].
    destruct (Date_getTime env (date b)); [|contradiction].
    destruct (Date_getTime env (date c)); [|contradiction].
    repeat split; lia.
Qed.

(** A list in order for one relation is in order for any relation that
    holds wherever the first does, among its elements. *)
Lemma StronglySorted_among {A : Type} (R R' : A -> A -> Prop) (l : list A) :
  (forall a b, In a l -> In b l -> R a b -> R' a b) ->
  StronglySorted R l -> StronglySorted R' l.
Proof.
  intros H Hs. induction Hs as [|x l Hs IH Hall]; [constructor|].
  constructor.
  - apply IH. intros a b Ha Hb. apply H; now right.
  - rewrite Forall_forall in *. intros y Hy.
    apply H; [now left|now right|now apply Hall].
Qed.

End SortFacts.

Module StoreFacts.
Import Store.

Lemma upsert_row_keys (new : Row) (rows : list Row) :
  map item_id (upsert_row new rows)
  = if existsb (eq_item_id (item_id new)) rows
    then map item_id rows
    else map item_id rows ++ [item_id new].
Proof.
  induction rows as [|r rows IH]; [reflexivity|].
  cbn [upsert_row existsb map]. unfold eq_item_id at 1.
  destruct (String.eqb (item_id r) (item_id new)); cbn [orb map].
  - reflexivity.
  - rewrite IH. now destruct (existsb _ rows).
Qed.

Lemma existsb_item_id (k : string) (rows : list Row) :
  existsb (eq_item_id k) rows = true <-> In k (map item_id rows).
Proof.
  rewrite existsb_exists, in_map_iff. unfold eq_item_id.
  split; intros (r & H1 & H2).
  - exists r. split; [now apply String.eqb_eq|exact H1].
  - exists r. split; [exact H2|now apply String.eqb_eq].
Qed.

(** After an upsert the item has a row. *)
Lemma upsert_row_has (new : Row) (rows : list Row) :
  existsb (eq_item_id (item_id new)) (upsert_row new rows) = true.
Proof.
  induction rows as [|r rows IH]; cbn [upsert_row existsb].
  - unfold eq_item_id. now rewrite String.eqb_refl.
  - destruct (String.eqb_spec (item_id r) (item_id new)) as [E|E];
      cbn [existsb].
    + unfold eq_item_id at 1. cbn [item_id]. rewrite E.
      now rewrite String.eqb_refl.
    + rewrite IH. apply orb_true_r.
Qed.

(** The unique constraint on [item_id] outlives an upsert. *)
Lemma upsert_row_unique (new : Row) (rows : list Row) :
  NoDup (map item_id rows) -> NoDup (map item_id (upsert_row new rows)).
Proof.
  intros H. rewrite upsert_row_keys.
  destruct (existsb (eq_item_id (item_id new)) rows) eqn:E; [exact H|].
  apply NoDup_app; repeat split; try assumption.
  - repeat constructor. intros [].
  - intros k Hk [<-|[]].
    apply existsb_item_id in Hk. congruence.
Qed.

Lemma filter_absent (k : string) (rows : list Row) :
  ~ In k (map item_id rows) -> filter (eq_item_id k) rows = [].
Proof.
  induction rows as [|r rows IH]; [reflexivity|].
  cbn [map filter]. intros H. unfold eq_item_id at 1.
  destruct (String.eqb_spec (item_id r) k) as [E|E].
  - exfalso. apply H. now left.
  - apply IH. intros Hin. apply H. now right.
Qed.

(** After an upsert exactly one row has the item, and it has the owner and
    the credential of the row that was written. *)
Lemma upsert_row_one (new : Row) (rows : list Row) :
  NoDup (map item_id rows) ->
  exists row,
    filter (eq_item_id (item_id new)) (upsert_row new rows) = [row]
    /\ user_id row = user_id new
    /\ item_id row = item_id new
    /\ access_token row = access_token new.
Proof.
  induction rows as [|r rows IH]; intros H.
  - exists new. cbn. unfold eq_item_id. now rewrite String.eqb_refl.
  - cbn [map] in H. apply NoDup_cons_iff in H. destruct H as [Hr H].
    cbn [upsert_row].
    destruct (String.eqb_spec (item_id r) (item_id new)) as [E|E].
    + eexists. cbn [filter]. unfold eq_item_id at 1. cbn [item_id].
      rewrite E, String.eqb_refl.
      rewrite filter_absent by (rewrite <- E; exact Hr).
      repeat split; try reflexivity; exact E.
    + destruct (IH H) as (row & Hf & Hrow). exists row.
      cbn [filter]. unfold eq_item_id at 1.
      destruct (String.eqb_spec (item_id r) (item_id new)); [contradiction|].
      now split.
Qed.

(** The rows of the other items are as they were. *)
Lemma upsert_row_others (new : Row) (rows : list Row) (k : string) :
  k <> item_id new ->
  filter (eq_item_id k) (upsert_row new rows) = filter (eq_item_id k) rows.
Proof.
  intros Hk. induction rows as [|r rows IH].
  - cbn. unfold eq_item_id.
    destruct (String.eqb_spec (item_id new) k); [congruence|reflexivity].
  - cbn [upsert_row].
    destruct (String.eqb_spec (item_id r) (item_id new)) as [E|E].
    + cbn [filter]. unfold eq_item_id. cbn [item_id].
      destruct (String.eqb_spec (item_id r) k); [congruence|reflexivity].
    + cbn [filter]. now rewrite IH.
Qed.

End StoreFacts.

(* ------------------------------------------------------------------ *)
(** * Running a handler *)
(* ------------------------------------------------------------------ *)

Lemma includes_prefix (needle rest : string) :
  includes needle (needle ++ rest)%string = true.
Proof.
  assert (String.prefix needle (needle ++ rest)%string = true) as H.
  { induction needle as [|c needle IH]; cbn.
    - now destruct rest.
    - destruct (Ascii.ascii_dec c c); [exact IH|contradiction]. }
  remember (needle ++ rest)%string as haystack.
  destruct haystack; cbn [includes]; now rewrite H.
Qed.

(** Unfold a handler down to the outcome of its steps. *)
Ltac step_handler :=
  repeat (progress
            (unfold run, try_catch, bind, ret, respond, throw, call, record,
               dayjs, now, Store.select, request_json;
             cbn [fst snd])).

Lemma session_user_auth_user (env : Env) (userId : string) :
  session_user env = Some userId -> auth_user env = Some userId.
Proof. unfold session_user. now destruct (auth_error env). Qed.

Lemma encrypt_nonce (cipher : Cipher) (key : list byte) (plain : jsstring)
    (g : Rng) :
  ExchangeTokenCodec.encrypt cipher key plain g
  = (ExchangeTokenCodec.encrypt_with cipher key (fst (randomBytes 16 g)) plain,
     snd (randomBytes 16 g)).
Proof. reflexivity. Qed.

(** A request that passes every step answers with the item and leaves the
    table with the row upserted. *)
Lemma POST_stores (cipher : Cipher) (encryptionKey : list byte) (env : Env) (w : World) (userId public_token : string)
    (fields : list (string * string)) (exchange : ExchangeResponse) :
  session_user env = Some userId ->
  truthy (field "public_token" fields) = Some public_token ->
  itemPublicTokenExchange env public_token = Ok exchange ->
  service_role_key env = true ->
  store_failure env = None ->
  run (ExchangeToken.POST cipher encryptionKey env (Object fields)) w
  = (Ok {| status := 200;
           body := [success true;
                    text "item_id" (exchanged_item_id exchange);
                    text "message" "Stored successfully"] |},
     {| plaid_items :=
          Store.upsert_row (written cipher encryptionKey userId exchange w) (plaid_items w);
        random := snd (ExchangeTokenCodec.encrypt cipher encryptionKey
               (exchanged_access_token exchange) (random w));
        clock := {| instant_at := instant_at (clock w);
                    readings := S (readings (clock w)) |};
        events := Exchanged public_token :: events w |}).
Proof.
  intros Hu Hp Hx Hk Hs. unfold ExchangeToken.POST.
  rewrite Hu. step_handler. rewrite Hp. step_handler. rewrite Hx.
  unfold ExchangeToken.encrypt, ExchangeToken.createServiceRoleClient,
    Store.upsert, written.
  cbn [random]. destruct (ExchangeTokenCodec.encrypt _ _ _ _) as [encrypted g] eqn:E.
  rewrite Hk, Hs. step_handler. unfold Store.set_items. reflexivity.
Qed.

(** The end-to-end scenario: the exchange answers with the item, the row
    holds the envelope and not the credential, and the owner's fetch opens
    it and asks the provider with the credential. *)
Example link_then_fetch :
  fst (run (ExchangeToken.POST Aes256Gcm.cipher Fixture.key
              (Scenario.env "u1") (Scenario.link "pub-123")) Scenario.empty)
  = Ok {| status := 200;
          body := [success true; text "item_id" "item-1";
                   text "message" "Stored successfully"] |}
  /\ plaid_items Scenario.linked
     = [{| user_id := "u1"; item_id := "item-1";
           access_token := js "a0a1a2a3a4a5a6a7a8a9aaabacadaeafb99e58ec098df330fb576ee1c2147cbb59c640ce7db9e017a1fd";
           created_at := 1762128000000 |}]
  /\ fst (run (GetTransactions.POST Aes256Gcm.cipher Fixture.key
                 (Scenario.env "u1") (Scenario.fetch "item-1")) Scenario.linked)
     = Ok {| status := 200;
             body := [success true;
                      ("transactions"%string, JTransactions [Scenario.t1; Scenario.t2]);
                      ("accounts"%string, JAccounts (accounts Scenario.data));
                      ("item"%string, JItem (item Scenario.data))] |}.
Proof. vm_compute. repeat split; reflexivity. Qed.

(** The key [00 .. 1f] as it is configured, and a key that is too short. *)
Example load_with_keys :
  Base64.decode (js "AAECAwQFBgcICQoLDA0ODxAREhMUFRYXGBkaGxwdHh8=")
  = Fixture.key
  /\ ExchangeToken.load Aes256Gcm.cipher Base64.decode
       (Some (js "AAECAwQFBgcICQoLDA0ODxAREhMUFRYXGBkaGxwdHh8="))
     = Ok (ExchangeToken.POST Aes256Gcm.cipher Fixture.key)
  /\ List.length (Base64.decode (js "AAECAwQFBgcICQoLDA0ODw==")) = 16%nat
  /\ ExchangeToken.load Aes256Gcm.cipher Base64.decode
       (Some (js "AAECAwQFBgcICQoLDA0ODw=="))
     = Thrown (new_Error ExchangeTokenCodec.guard_message).
Proof.
  assert (Base64.decode (js "AAECAwQFBgcICQoLDA0ODxAREhMUFRYXGBkaGxwdHh8=")
          = Fixture.key) as H32 by (vm_compute; reflexivity).
  assert (List.length (Base64.decode (js "AAECAwQFBgcICQoLDA0ODw=="))
          = 16%nat) as H16 by (vm_compute; reflexivity).
  unfold ExchangeToken.load, load_encryptionKey.
  rewrite H32, H16. repeat split.
Qed.

(* ================================================================== *)
(** * Part III.  The stated properties *)
(* ================================================================== *)

(** C1 (as amended). For every plaintext that is well-formed UTF-16 (no
    surrogate without its partner), every 32-byte key and every state of
    the random source -- so for any nonce that [encrypt] draws -- [decrypt]
    returns exactly the plaintext from what [encrypt] produced, for both
    ways [encrypt] is written. *)
Theorem decrypt_returns_what_encrypt_sealed
    (cipher : Cipher) (key : list byte) (plain : jsstring) (g : Rng) :
  Lawful cipher ->
  List.length key = 32%nat ->
  Utf8.well_formed plain = true ->
  GetTransactionsCodec.decrypt cipher key
    (fst (ExchangeTokenCodec.encrypt cipher key plain g)) = Ok plain
  /\ GetTransactionsCodec.decrypt cipher key
       (fst (InsertTokenCodec.encrypt cipher key plain g)) = Ok plain.
Proof.
  intros L Hk Hwf. rewrite CodecFacts.encrypt_same, encrypt_nonce. cbn [fst].
  rewrite CodecFacts.decrypt_encrypt_with;
    [|exact L|exact Hk|apply CodecFacts.randomBytes_length].
  now rewrite Utf8Facts.utf8_roundtrip.
Qed.

Lemma decrypt_returns_what_encrypt_sealed_witness :
  Lawful Aes256Gcm.cipher
  /\ List.length Fixture.key = 32%nat
  /\ Utf8.well_formed (js "secret-abc") = true
  /\ GetTransactionsCodec.decrypt Aes256Gcm.cipher Fixture.key
       (fst (ExchangeTokenCodec.encrypt Aes256Gcm.cipher Fixture.key
               (js "secret-abc") Fixture.rng))
     = Ok (js "secret-abc").
Proof.
  split; [exact Aes256GcmFacts.lawful|].
  split; [reflexivity|]. split; [reflexivity|].
  exact (proj1 (decrypt_returns_what_encrypt_sealed Aes256Gcm.cipher
                  Fixture.key (js "secret-abc") Fixture.rng
                  Aes256GcmFacts.lawful eq_refl eq_refl)).
Defined.

(** C1, as stated for every string, fails on a surrogate without its
    partner: the conversion to bytes writes U+FFFD for it, and that is what
    comes back. *)
Lemma decrypt_returns_another_string :
  Utf8.encode [0xD800] = Utf8.encode [0xFFFD]
  /\ ExchangeTokenCodec.encrypt_with Aes256Gcm.cipher Fixture.key Fixture.iv
       [0xD800]
     = js "a0a1a2a3a4a5a6a7a8a9aaabacadaeaf3beb65bf93e43e30055b6d2ee1c252ecc51c9e"
  /\ GetTransactionsCodec.decrypt Aes256Gcm.cipher Fixture.key
       (fst (ExchangeTokenCodec.encrypt Aes256Gcm.cipher Fixture.key
               [0xD800] Fixture.rng))
     = Ok [0xFFFD].
Proof. vm_compute. repeat split; reflexivity. Qed.

(** C2. When no row of the item belongs to the caller -- the item is
    another user's, or there is no such item -- [POST
    /api/plaid/get-transactions] answers the same either way, without
    decrypting or calling the provider; but the answer is status 500 with
    the store's "no single row" error, not the 404 "Plaid item not found
    for this user." that the code means to send: [.single()] reports an
    empty result as an error, so the 404 branch is never reached for a
    missing row. *)
Theorem wrong_owner_is_a_database_error
    (cipher : Cipher) (encryptionKey : list byte)
    (env : Env) (w : World) (userA itemId : string)
    (fields : list (string * string)) :
  session_user env = Some userA ->
  store_failure env = None ->
  truthy (field "item_id" fields) = Some itemId ->
  owned userA itemId w = [] ->
  run (GetTransactions.POST cipher encryptionKey env (Object fields)) w
  = (Ok {| status := 500;
           body := [success false;
                    text "message"
                      ("Database error fetching token: "
                       ++ Store.not_a_single_row)%string] |}, w).
Proof.
  intros Hu Hs Hi Hrows. unfold GetTransactions.POST.
  step_handler. rewrite Hu. step_handler. rewrite Hi. step_handler.
  rewrite Hs. unfold owned in Hrows. rewrite Hrows. reflexivity.
Qed.

Lemma wrong_owner_is_a_database_error_witness :
  session_user (Scenario.env "u2") = Some "u2"%string
  /\ store_failure (Scenario.env "u2") = None
  /\ truthy (field "item_id" [("item_id", "item-1")]%string) = Some "item-1"%string
  /\ map user_id (plaid_items Scenario.linked) = ["u1"%string]
  /\ owned "u2" "item-1" Scenario.linked = []
  /\ run (GetTransactions.POST Aes256Gcm.cipher Fixture.key (Scenario.env "u2")
            (Scenario.fetch "item-1")) Scenario.linked
     = (Ok {| status := 500;
              body := [success false;
                       text "message"
                         "Database error fetching token: JSON object requested, multiple (or no) rows returned"] |},
        Scenario.linked).
Proof.
  assert (owned "u2" "item-1" Scenario.linked = []) as H
      by (vm_compute; reflexivity).
  split; [reflexivity|]. split; [reflexivity|]. split; [reflexivity|].
  split; [vm_compute; reflexivity|]. split; [exact H|].
  exact (wrong_owner_is_a_database_error Aes256Gcm.cipher Fixture.key
           (Scenario.env "u2") Scenario.linked "u2" "item-1"
           [("item_id", "item-1")]%string eq_refl eq_refl eq_refl H).
Defined.

(** C3 (as amended). The write of the token exchange in use is an upsert
    on [item_id].  When two exchanges, by whichever users, resolve to the
    same item, both succeed, and afterwards the table has exactly one row
    of that item, owned by the user of the second exchange and holding the
    envelope of the second credential; the rows of other items are
    untouched and no two rows share an item.  The write of the earlier,
    insert-based route is not an upsert: had the second exchange gone
    through that route, for whichever owner its body names, it would have
    been answered with status 500 and the first row would have stayed as
    it was. *)
Theorem relinking_replaces_the_row
    (cipher : Cipher) (encryptionKey : list byte)
    (env env' : Env) (w : World) (userId userId' token token' : string)
    (fields fields' : list (string * string))
    (exchange exchange' : ExchangeResponse) :
  NoDup (map item_id (plaid_items w)) ->
  session_user env = Some userId ->
  truthy (field "public_token" fields) = Some token ->
  itemPublicTokenExchange env token = Ok exchange ->
  service_role_key env = true ->
  store_failure env = None ->
  session_user env' = Some userId' ->
  truthy (field "public_token" fields') = Some token' ->
  itemPublicTokenExchange env' token' = Ok exchange' ->
  service_role_key env' = true ->
  store_failure env' = None ->
  exchanged_item_id exchange' = exchanged_item_id exchange ->
  let first := run (ExchangeToken.POST cipher encryptionKey env (Object fields)) w in
  let second := run (ExchangeToken.POST cipher encryptionKey env' (Object fields'))
      (snd first) in
  fst first
  = Ok {| status := 200;
          body := [success true;
                   text "item_id" (exchanged_item_id exchange);
                   text "message" "Stored successfully"] |}
  /\ fst second
     = Ok {| status := 200;
             body := [success true;
                      text "item_id" (exchanged_item_id exchange);
                      text "message" "Stored successfully"] |}
  /\ (exists row,
        filter (Store.eq_item_id (exchanged_item_id exchange))
          (plaid_items (snd second)) = [row]
        /\ user_id row = userId'
        /\ access_token row
           = fst (ExchangeTokenCodec.encrypt cipher encryptionKey
                    (exchanged_access_token exchange')
                    (random (snd first))))
  /\ (forall other,
        other <> exchanged_item_id exchange ->
        filter (Store.eq_item_id other) (plaid_items (snd second))
        = filter (Store.eq_item_id other) (plaid_items w))
  /\ NoDup (map item_id (plaid_items (snd second)))
  /\ (forall owner fields'',
        truthy (field "public_token" fields'') = Some token' ->
        truthy (field "user_id" fields'') = Some owner ->
        let refused :=
          run (InsertToken.POST cipher encryptionKey env' (Object fields''))
            (snd first) in
        fst refused
        = Ok {| status := 500;
                body := [success false;
                         text "message" "Database error storing token."] |}
        /\ plaid_items (snd refused) = plaid_items (snd first)).
Proof.
  intros Huniq Hu Hp Hx Hk Hs Hu' Hp' Hx' Hk' Hs' Hsame first second.
  subst first second.
  rewrite (POST_stores cipher encryptionKey env w userId token fields
             exchange) by assumption.
  cbn [fst snd].
  rewrite (POST_stores cipher encryptionKey env' _ userId' token' fields'
             exchange') by assumption.
  cbn [fst snd plaid_items random clock events].
  set (w1 := {| plaid_items := Store.upsert_row (written cipher encryptionKey userId exchange w)
                                 (plaid_items w) |}).
  set (row1 := written cipher encryptionKey userId exchange w).
  set (row2 := written cipher encryptionKey userId' exchange' w1).
  assert (item_id row1 = exchanged_item_id exchange) as K1 by reflexivity.
  assert (item_id row2 = exchanged_item_id exchange) as K2
      by (cbn; exact Hsame).
  pose proof (StoreFacts.upsert_row_unique row1 _ Huniq) as Huniq1.
  split; [reflexivity|]. split; [now rewrite Hsame|].
  split; [|split; [|split]].
  - destruct (StoreFacts.upsert_row_one row2 _ Huniq1)
      as (row & Hf & Ho & _ & Ht).
    exists row. rewrite <- K2. split; [exact Hf|]. split; [exact Ho|].
    exact Ht.
  - intros other Hother.
    rewrite StoreFacts.upsert_row_others by (rewrite K2; exact Hother).
    now rewrite StoreFacts.upsert_row_others by (rewrite K1; exact Hother).
  - now apply StoreFacts.upsert_row_unique.
  - intros owner fields'' Hp'' Ho.
    unfold InsertToken.POST. step_handler. rewrite Hp'', Ho. step_handler.
    rewrite Hx'. unfold InsertToken.encrypt, Store.insert. cbn [random].
    destruct (InsertTokenCodec.encrypt _ _ _ _) as [encrypted g].
    rewrite Hs'. step_handler. cbn [plaid_items fst w1].
    rewrite Hsame, <- K1, StoreFacts.upsert_row_has.
    split; reflexivity.
Qed.

Lemma relinking_replaces_the_row_witness :
  NoDup (map item_id (plaid_items Scenario.empty))
  /\ exists row,
       filter (Store.eq_item_id "item-1")
         (plaid_items
            (snd (run (ExchangeToken.POST Aes256Gcm.cipher Fixture.key
                         (Scenario.env "u2") (Scenario.link "pub-123"))
                    Scenario.linked)))
       = [row]
       /\ user_id row = "u2"%string
       /\ access_token row
          = fst (ExchangeTokenCodec.encrypt Aes256Gcm.cipher Fixture.key
                   (js "secret-abc") (random Scenario.linked)).
Proof.
  assert (NoDup (map item_id (plaid_items Scenario.empty))) as H
      by constructor.
  split; [exact H|].
  exact (proj1 (proj2 (proj2
           (relinking_replaces_the_row Aes256Gcm.cipher Fixture.key
              (Scenario.env "u1") (Scenario.env "u2") Scenario.empty
              "u1" "u2" "pub-123" "pub-123"
              [("public_token", "pub-123")]%string
              [("public_token", "pub-123")]%string
              {| exchanged_access_token := js "secret-abc";
                 exchanged_item_id := "item-1" |}
              {| exchanged_access_token := js "secret-abc";
                 exchanged_item_id := "item-1" |}
              H eq_refl eq_refl eq_refl eq_refl eq_refl
              eq_refl eq_refl eq_refl eq_refl eq_refl eq_refl)))).
Defined.

(** C3, as stated for both writes, fails on the insert-based one: a second
    link of the same item meets the unique constraint, is answered with
    status 500, and leaves the first row, with its first owner, as it
    was. *)
Lemma insert_route_refuses_a_second_link :
  let link user :=
    Object [("public_token", "pub-123"); ("user_id", user)]%string in
  let first :=
    run (InsertToken.POST Aes256Gcm.cipher Fixture.key (Scenario.env "u1")
           (link "u1"%string)) Scenario.empty in
  let second :=
    run (InsertToken.POST Aes256Gcm.cipher Fixture.key (Scenario.env "u2")
           (link "u2"%string)) (snd first) in
  fst first
  = Ok {| status := 200;
          body := [success true;
                   text "message" "Token exchanged and stored successfully"] |}
  /\ fst second
     = Ok {| status := 500;
             body := [success false;
                      text "message" "Database error storing token."] |}
  /\ plaid_items (snd second) = plaid_items (snd first)
  /\ map user_id (plaid_items (snd second)) = ["u1"%string].
Proof. vm_compute. repeat split; reflexivity. Qed.

(** The second link of the scenario through the route in use, run: the row
    of ["item-1"] now belongs to ["u2"] and holds a new envelope, sealed
    under the next nonce. *)
Example relinked_row :
  plaid_items
    (snd (run (ExchangeToken.POST Aes256Gcm.cipher Fixture.key
                 (Scenario.env "u2") (Scenario.link "pub-123"))
            Scenario.linked))
  = [{| user_id := "u2"; item_id := "item-1";
        access_token := js "b0b1b2b3b4b5b6b7b8b9babbbcbdbebf0194508ce239e5bd7db1869d432dc488c268e7008f2738d14dc0";
        created_at := 1762128000000 |}].
Proof. vm_compute. reflexivity. Qed.




(** C5. Every call of [encrypt] draws sixteen bytes that the random source
    has not handed out before, and two calls with the same plaintext and
    key give different texts whenever the two nonces differ, for both ways
    [encrypt] is written. *)
Theorem encrypt_twice_gives_two_texts
    (cipher : Cipher) (key : list byte) (plain : jsstring) (g : Rng) :
  let first := ExchangeTokenCodec.encrypt cipher key plain g in
  let second := ExchangeTokenCodec.encrypt cipher key plain (snd first) in
  let iv := map (supply g) (seq (drawn g) 16) in
  let iv' := map (supply g) (seq (drawn g + 16) 16) in
  iv <> iv' ->
  (fst first = ExchangeTokenCodec.encrypt_with cipher key iv plain
   /\ fst second = ExchangeTokenCodec.encrypt_with cipher key iv' plain
   /\ drawn (snd second) = (drawn g + 32)%nat)
  /\ fst first <> fst second
  /\ fst (InsertTokenCodec.encrypt cipher key plain g)
     <> fst (InsertTokenCodec.encrypt cipher key plain
               (snd (InsertTokenCodec.encrypt cipher key plain g))).
Proof.
  intros first second iv iv' Hiv.
  assert (fst first <> fst second) as Hdiff.
  { subst first second. rewrite !encrypt_nonce. cbn [fst snd randomBytes].
    fold iv iv'. rewrite !CodecFacts.encrypt_with_parts. intros E.
    apply (f_equal (substring 0 32)) in E.
    rewrite !CodecFacts.substring_prefix in E
      by (rewrite HexFacts.encode_length; subst iv iv';
          rewrite length_map, length_seq; reflexivity).
    apply Hiv. now apply HexFacts.encode_inj. }
  split; [|split; [exact Hdiff|]].
  - subst first second iv iv'.
    split; [reflexivity|]. split; [reflexivity|].
    change (drawn g + 16 + 16 = drawn g + 32)%nat. lia.
  - now rewrite !CodecFacts.encrypt_same.
Qed.

Lemma encrypt_twice_gives_two_texts_witness :
  map (supply Fixture.rng) (seq 0 16) <> map (supply Fixture.rng) (seq 16 16)
  /\ fst (ExchangeTokenCodec.encrypt Aes256Gcm.cipher Fixture.key
            (js "secret-abc") Fixture.rng)
     <> fst (ExchangeTokenCodec.encrypt Aes256Gcm.cipher Fixture.key
               (js "secret-abc")
               (snd (ExchangeTokenCodec.encrypt Aes256Gcm.cipher Fixture.key
                       (js "secret-abc") Fixture.rng))).
Proof.
  assert (map (supply Fixture.rng) (seq 0 16)
          <> map (supply Fixture.rng) (seq 16 16)) as H
      by (vm_compute; discriminate).
  split; [exact H|].
  exact (proj1 (proj2
           (encrypt_twice_gives_two_texts Aes256Gcm.cipher Fixture.key
              (js "secret-abc") Fixture.rng H))).
Defined.

(** C6. The module starts if and only if the configured key, decoded from
    base64, has exactly 32 bytes.  With any other length, loading throws
    the guard's error and there is no handler; with 32 bytes, loading
    gives the handler that holds the decoded key.  Without the variable,
    decoding itself throws. *)
Theorem module_starts_only_with_a_32_byte_key
    (cipher : Cipher) (base64 : jsstring -> list byte) (value : jsstring) :
  (ExchangeToken.load cipher base64 (Some value)
   = Thrown (new_Error ExchangeTokenCodec.guard_message)
   <-> List.length (base64 value) <> 32%nat)
  /\ (ExchangeToken.load cipher base64 (Some value)
      = Ok (ExchangeToken.POST cipher (base64 value))
      <-> List.length (base64 value) = 32%nat)
  /\ (exists e, ExchangeToken.load cipher base64 None = Thrown e).
Proof.
  unfold ExchangeToken.load, load_encryptionKey.
  destruct (Nat.eqb_spec (List.length (base64 value)) 32) as [E|E].
  - repeat split; try congruence; try discriminate. eauto.
  - repeat split; try congruence; try discriminate. eauto.
Qed.

(** C7. When the stored credential of the caller's item does not decrypt
    under AES-256-GCM, [POST /api/plaid/get-transactions] answers status
    500 with exactly two fields, [success: false] and a message, and the
    message is ["Failed to process access token: Decryption failed: "]
    followed by one of five texts: that the key length, the initialization
    vector, or the length of the authentication tag (with the number of
    its bytes) is invalid, that the encoding is invalid for data of that
    length (with the number of characters of the ciphertext), or that the
    data could not be authenticated.  So the answer shows two lengths at
    most: neither the key, nor the stored text, nor the error's stack is
    in it; and the provider is not called. *)
Theorem decryption_failure_is_a_safe_message
    (encryptionKey : list byte)
    (env : Env) (w : World) (userId itemId : string)
    (fields : list (string * string)) (c : N) (rest : jsstring)
    (error : JsError) :
  session_user env = Some userId ->
  store_failure env = None ->
  truthy (field "item_id" fields) = Some itemId ->
  owned userId itemId w = [c :: rest] ->
  GetTransactionsCodec.decrypt Aes256Gcm.cipher encryptionKey (c :: rest)
  = Thrown error ->
  run (GetTransactions.POST Aes256Gcm.cipher encryptionKey env
         (Object fields)) w
  = (Ok {| status := 500;
           body := [success false;
                    text "message"
                      ("Failed to process access token: "
                       ++ message error)%string] |},
     {| plaid_items := plaid_items w; random := random w; clock := clock w;
        events := Decrypting (c :: rest) :: events w |})
  /\ exists cause,
       message error = ("Decryption failed: " ++ cause)%string
       /\ (cause = "Invalid key length"%string
           \/ cause = "Invalid initialization vector"%string
           \/ cause
              = ("Invalid authentication tag length: "
                 ++ NilZero.string_of_uint
                      (Nat.to_uint
                         (List.length
                            (GetTransactionsCodec.authTag_of (c :: rest)))))%string
           \/ cause
              = ("The argument 'encoding' is invalid for data of length "
                 ++ NilZero.string_of_uint
                      (Nat.to_uint
                         (List.length
                            (GetTransactionsCodec.encrypted_of (c :: rest))))
                 ++ ". Received 'hex'")%string
           \/ cause
              = "Unsupported state or unable to authenticate data"%string).
Proof.
  intros Hu Hs Hi Hrows Hdecrypt. split.
  - unfold GetTransactions.POST.
    step_handler. rewrite Hu. step_handler. rewrite Hi. step_handler.
    rewrite Hs. unfold owned in Hrows. rewrite Hrows.
    cbn [Store.single]. unfold GetTransactions.decrypt. step_handler.
    rewrite Hdecrypt. reflexivity.
  - revert Hdecrypt. unfold GetTransactionsCodec.decrypt. cbv zeta.
    cbn [setup open Aes256Gcm.cipher].
    destruct (Aes256Gcm.setup encryptionKey _ _) as [cause|] eqn:E.
    + intros [= <-]. exists (message cause). split; [reflexivity|].
      destruct (Aes256GcmFacts.gcm_refusal_messages _ _ _ [] cause
                  (or_introl E)) as [->|[->|[->| ->]]];
        cbn [message new_Error]; auto 6.
    + destruct (Nat.odd _).
      * intros [= <-]. eexists. split; [reflexivity|].
        right. right. right. left. reflexivity.
      * destruct (Aes256Gcm.open encryptionKey _ _ _) as [buffer|cause] eqn:O;
          [discriminate|].
        intros [= <-]. exists (message cause). split; [reflexivity|].
        destruct (Aes256GcmFacts.gcm_refusal_messages _ _ _ _ cause
                    (or_intror O)) as [->|[->|[->| ->]]];
          cbn [message new_Error]; auto 6.
Qed.

Lemma decryption_failure_is_a_safe_message_witness :
  session_user (Scenario.env "u1") = Some "u1"%string
  /\ store_failure (Scenario.env "u1") = None
  /\ truthy (field "item_id" [("item_id", "item-1")]%string) = Some "item-1"%string
  /\ owned "u1" "item-1" Scenario.corrupted
     = [98 :: js "0a1a2a3a4a5a6a7a8a9aaabacadaeafb99e58ec098df330fb576ee1c2147cbb59c640ce7db9e017a1fd"]
  /\ GetTransactionsCodec.decrypt Aes256Gcm.cipher Fixture.key
       (98 :: js "0a1a2a3a4a5a6a7a8a9aaabacadaeafb99e58ec098df330fb576ee1c2147cbb59c640ce7db9e017a1fd")
     = Thrown (new_Error
         "Decryption failed: Unsupported state or unable to authenticate data")
  /\ fst (run (GetTransactions.POST Aes256Gcm.cipher Fixture.key
                 (Scenario.env "u1") (Scenario.fetch "item-1"))
            Scenario.corrupted)
     = Ok {| status := 500;
             body := [success false;
                      text "message"
                        "Failed to process access token: Decryption failed: Unsupported state or unable to authenticate data"] |}.
Proof.
  assert (owned "u1" "item-1" Scenario.corrupted
          = [98 :: js "0a1a2a3a4a5a6a7a8a9aaabacadaeafb99e58ec098df330fb576ee1c2147cbb59c640ce7db9e017a1fd"])
    as Hrow by (vm_compute; reflexivity).
  assert (GetTransactionsCodec.decrypt Aes256Gcm.cipher Fixture.key
       (98 :: js "0a1a2a3a4a5a6a7a8a9aaabacadaeafb99e58ec098df330fb576ee1c2147cbb59c640ce7db9e017a1fd")
     = Thrown (new_Error
         "Decryption failed: Unsupported state or unable to authenticate data"))
    as Hdecrypt by (vm_compute; reflexivity).
  split; [reflexivity|]. split; [reflexivity|]. split; [reflexivity|].
  split; [exact Hrow|]. split; [exact Hdecrypt|].
  exact (f_equal fst
           (proj1
              (decryption_failure_is_a_safe_message
                 Fixture.key (Scenario.env "u1") Scenario.corrupted
                 "u1" "item-1" [("item_id", "item-1")]%string 98 _ _
                 eq_refl eq_refl eq_refl Hrow Hdecrypt))).
Defined.

(** C8 (as amended). When the fetch succeeds, [POST
    /api/plaid/get-transactions] hands the caller the provider's
    transactions, accounts and item exactly as it received them, under
    [success: true] and with none of the other fields of the provider's
    answer.  [GET /api/plaid/get-transactions] hands over the transactions
    only, and as the runtime's sort returns them for the comparison by
    date.  With a sort that keeps to the language, and transactions whose
    dates can all be read, that is: the transactions that were fetched,
    reordered so that none comes before one of a later date (newest
    first), those of one date in the order they were fetched in. *)
Theorem fetch_passes_through_and_get_sorts
    (cipher : Cipher) (encryptionKey : list byte)
    (env : Env) (w : World) (userId : string) :
  store_failure env = None ->
  (forall itemId fields c rest accessToken data,
      session_user env = Some userId ->
      truthy (field "item_id" fields) = Some itemId ->
      owned userId itemId w = [c :: rest] ->
      GetTransactionsCodec.decrypt cipher encryptionKey (c :: rest)
      = Ok accessToken ->
      transactionsGet env
        {| request_access_token := accessToken;
           start_date :=
             format_date env
               (subtract_days env 30
                  (Z.of_N (instant_at (clock w) (readings (clock w)))));
           end_date :=
             format_date env
               (Z.of_N (instant_at (clock w) (S (readings (clock w)))));
           count := 500;
           offset := 0 |}
      = Ok data ->
      fst (run (GetTransactions.POST cipher encryptionKey env
                  (Object fields)) w)
      = Ok {| status := 200;
              body := [success true;
                       ("transactions"%string,
                        JTransactions (transactions data));
                       ("accounts"%string, JAccounts (accounts data));
                       ("item"%string, JItem (item data))] |})
  /\ (forall latest fetched,
        auth_user env = Some userId ->
        latest_item userId w = (Some latest, None) ->
        latest <> ""%string ->
        fetchPlaidTransactions env userId latest = Ok (Some fetched) ->
        exists ts,
          fst (run (GetTransactions.GET env) w)
          = Ok {| status := 200;
                  body := [success true;
                           ("transactions"%string, JTransactions ts)] |}
          /\ ts = Array_sort env (GetTransactions.compare_dates env) fetched
          /\ (sorts_as_specified (Array_sort env) ->
              Forall (readable env) fetched ->
              Permutation ts fetched
              /\ StronglySorted (not_older env) ts
              /\ forall t,
                   In t fetched ->
                   filter (same_instant env t) ts
                   = filter (same_instant env t) fetched)).
Proof.
  intros Hs. split.
  - intros itemId fields c rest accessToken data Hu Hi Hrows Hdec Hget.
    unfold GetTransactions.POST.
    step_handler. rewrite Hu. step_handler. rewrite Hi. step_handler.
    rewrite Hs. unfold owned in Hrows. rewrite Hrows.
    cbn [Store.single]. unfold GetTransactions.decrypt. step_handler.
    rewrite Hdec. cbn [clock readings instant_at]. rewrite Hget.
    reflexivity.
  - intros latest fetched Hu Hlatest Hitem Hfetch.
    exists (GetTransactions.sort env fetched).
    split; [|split; [reflexivity|]].
    + unfold GetTransactions.GET. step_handler. rewrite Hu. step_handler.
      rewrite Hs. unfold latest_item in Hlatest. rewrite Hlatest.
      assert (truthy (Some latest) = Some latest) as ->
          by (unfold truthy; now destruct (String.eqb_spec latest "")).
      rewrite Hfetch.
      reflexivity.
    + intros Hsort Hread. unfold GetTransactions.sort.
      pose proof (SortFacts.compare_dates_consistent env fetched Hread)
        as Hcmp.
      pose proof (sort_permutes _ Hsort _ _ Hcmp) as Hperm.
      assert (forall t,
                In t (Array_sort env (GetTransactions.compare_dates env)
                        fetched) ->
                readable env t) as Hread'.
      { intros t Ht. rewrite Forall_forall in Hread. apply Hread.
        now apply (Permutation_in _ Hperm). }
      split; [exact Hperm|]. split.
      * refine (SortFacts.StronglySorted_among _ _ _ _
                  (sort_orders _ Hsort _ _ Hcmp)).
        intros a b Ha Hb.
        pose proof (Hread' a Ha) as Ra. pose proof (Hread' b Hb) as Rb.
        unfold readable, not_older, SortCompare,
          GetTransactions.compare_dates in *.
        destruct (Date_getTime env (date a)) as [ta|]; [|contradiction].
        destruct (Date_getTime env (date b)) as [tb|]; [|contradiction].
        intros H. exists ta, tb. repeat split. lia.
      * intros t Ht.
        assert (forall l,
                  (forall x, In x l -> readable env x) ->
                  filter (same_instant env t) l
                  = filter
                      (fun x =>
                         (SortCompare (GetTransactions.compare_dates env) t x
                          =? 0)%Z) l) as Hsame.
        { intros l Hl. apply filter_ext_in. intros x Hx.
          pose proof (Hl x Hx) as Rx.
          rewrite Forall_forall in Hread. pose proof (Hread t Ht) as Rt.
          unfold readable, same_instant, SortCompare,
            GetTransactions.compare_dates in *.
          destruct (Date_getTime env (date x)) as [tx|]; [|contradiction].
          destruct (Date_getTime env (date t)) as [tt|]; [|contradiction].
          destruct (Z.eqb_spec tt tx), (Z.eqb_spec (tx - tt) 0);
            (reflexivity || lia). }
        rewrite (Hsame _ Hread').
        rewrite (Hsame fetched)
          by (rewrite Forall_forall in Hread; exact Hread).
        now apply (sort_is_stable _ Hsort).
Qed.

Lemma fetch_passes_through_and_get_sorts_witness :
  store_failure (Scenario.env "u1") = None
  /\ fst (run (GetTransactions.POST Aes256Gcm.cipher Fixture.key
                 (Scenario.env "u1") (Scenario.fetch "item-1"))
            Scenario.linked)
     = Ok {| status := 200;
             body := [success true;
                      ("transactions"%string,
                       JTransactions (transactions Scenario.data));
                      ("accounts"%string, JAccounts (accounts Scenario.data));
                      ("item"%string, JItem (item Scenario.data))] |}
  /\ exists ts,
       fst (run (GetTransactions.GET (Scenario.env "u1")) Scenario.linked)
       = Ok {| status := 200;
               body := [success true;
                        ("transactions"%string, JTransactions ts)] |}
       /\ Permutation ts [Scenario.t1; Scenario.t2]
       /\ StronglySorted (not_older (Scenario.env "u1")) ts.
Proof.
  assert (owned "u1" "item-1" Scenario.linked
          = [97 :: js "0a1a2a3a4a5a6a7a8a9aaabacadaeafb99e58ec098df330fb576ee1c2147cbb59c640ce7db9e017a1fd"])
    as Hrow by (vm_compute; reflexivity).
  assert (GetTransactionsCodec.decrypt Aes256Gcm.cipher Fixture.key
            (97 :: js "0a1a2a3a4a5a6a7a8a9aaabacadaeafb99e58ec098df330fb576ee1c2147cbb59c640ce7db9e017a1fd")
          = Ok (js "secret-abc"))
    as Hdec by (vm_compute; reflexivity).
  assert (latest_item "u1" Scenario.linked = (Some "item-1"%string, None))
    as Hlatest by (vm_compute; reflexivity).
  assert ("item-1"%string <> ""%string) as Hitem by discriminate.
  assert (Forall (readable (Scenario.env "u1")) [Scenario.t1; Scenario.t2])
    as Hread by (repeat constructor; discriminate).
  destruct (fetch_passes_through_and_get_sorts Aes256Gcm.cipher Fixture.key
              (Scenario.env "u1") Scenario.linked "u1" eq_refl)
    as [Hpost Hget].
  split; [reflexivity|]. split.
  - exact (Hpost "item-1"%string [("item_id", "item-1")]%string 97 _ _
             Scenario.data eq_refl eq_refl Hrow Hdec eq_refl).
  - destruct (Hget "item-1"%string [Scenario.t1; Scenario.t2]
                eq_refl Hlatest Hitem eq_refl)
      as (ts & Hrun & _ & Hsorted).
    destruct (Hsorted SortFacts.stable_sort_as_specified Hread)
      as (Hperm & Horder & _).
    exists ts. split; [exact Hrun|]. split; [exact Hperm|exact Horder].
Defined.

(** C8, as stated, fails on [GET]: the provider gave the older transaction
    first and the caller gets the newer one first. *)
Lemma get_reorders_the_transactions :
  fetchPlaidTransactions (Scenario.env "u1") "u1" "item-1"
  = Ok (Some [Scenario.t1; Scenario.t2])
  /\ fst (run (GetTransactions.GET (Scenario.env "u1")) Scenario.linked)
     = Ok {| status := 200;
             body := [success true;
                      ("transactions"%string,
                       JTransactions [Scenario.t2; Scenario.t1])] |}.
Proof. vm_compute. split; reflexivity. Qed.

(** C9. A signed-in user without a row in [plaid_items] gets, from
    [GET /api/user/plaid-items], status 200 with [success: true] and
    [item_id: null]: no connection is an empty success and not an error.
    Nothing is written or called on the way. *)
Theorem no_item_is_an_empty_success (env : Env) (w : World) (userId : string) :
  session_user env = Some userId ->
  store_failure env = None ->
  filter (Store.eq_user_id userId) (plaid_items w) = [] ->
  run (PlaidItems.GET env) w
  = (Ok {| status := 200;
           body := [success true; ("item_id"%string, JNull)] |}, w).
Proof.
  intros Hu Hs Hrows. unfold PlaidItems.GET. step_handler.
  rewrite Hu. step_handler. rewrite Hs, Hrows. reflexivity.
Qed.

Lemma no_item_is_an_empty_success_witness :
  session_user (Scenario.env "u2") = Some "u2"%string
  /\ store_failure (Scenario.env "u2") = None
  /\ filter (Store.eq_user_id "u2") (plaid_items Scenario.linked) = []
  /\ run (PlaidItems.GET (Scenario.env "u2")) Scenario.linked
     = (Ok {| status := 200;
              body := [success true; ("item_id"%string, JNull)] |},
        Scenario.linked).
Proof.
  assert (filter (Store.eq_user_id "u2") (plaid_items Scenario.linked) = [])
    as H by (vm_compute; reflexivity).
  split; [reflexivity|]. split; [reflexivity|]. split; [exact H|].
  exact (no_item_is_an_empty_success (Scenario.env "u2") Scenario.linked "u2"
           eq_refl eq_refl H).
Defined.

(** C10 (as amended). Every fetch that [POST /api/plaid/get-transactions]
    makes with a stored credential asks for 500 transactions from offset
    0, within a window it builds from two readings of the clock and from
    nothing the caller sends: the end date is the local date of the second
    reading, and the start date is the local date of the first reading
    moved back thirty days.  On a server whose time zone keeps one offset
    the start date is exactly thirty days before the local date of the
    first reading, so the window has thirty days when both readings fall
    on one day, and one day more for every midnight that passes between
    them.  It is the only request made; and what the provider returns is
    handed on whole, however many transactions it holds. *)
Theorem fetch_asks_for_a_fixed_window
    (cipher : Cipher) (encryptionKey : list byte)
    (env : Env) (w : World) (userId itemId : string)
    (fields : list (string * string)) (c : N) (rest accessToken : jsstring) :
  session_user env = Some userId ->
  store_failure env = None ->
  truthy (field "item_id" fields) = Some itemId ->
  owned userId itemId w = [c :: rest] ->
  GetTransactionsCodec.decrypt cipher encryptionKey (c :: rest)
  = Ok accessToken ->
  let first := Z.of_N (instant_at (clock w) (readings (clock w))) in
  let second := Z.of_N (instant_at (clock w) (S (readings (clock w)))) in
  let startDate := format_date env (subtract_days env 30 first) in
  let endDate := format_date env second in
  let request :=
    {| request_access_token := accessToken;
       start_date := startDate;
       end_date := endDate;
       count := 500;
       offset := 0 |} in
  let out :=
    run (GetTransactions.POST cipher encryptionKey env (Object fields)) w in
  events (snd out)
  = TransactionsRequested request :: Decrypting (c :: rest) :: events w
  /\ (msPerDay * endDate <= second + LocalTZA env second true
      < msPerDay * (endDate + 1))%Z
  /\ (let moved := (first + LocalTZA env first true - 30 * msPerDay)%Z in
      let instant := (moved - LocalTZA env moved false)%Z in
      msPerDay * startDate <= instant + LocalTZA env instant true
      < msPerDay * (startDate + 1))%Z
  /\ (forall zone today later,
        (forall t isUTC, LocalTZA env t isUTC = zone) ->
        (msPerDay * today <= first + zone < msPerDay * (today + 1))%Z ->
        (msPerDay * later <= second + zone < msPerDay * (later + 1))%Z ->
        startDate = (today - 30)%Z
        /\ endDate = later
        /\ ((first <= second)%Z -> (today <= later)%Z))
  /\ (forall data,
        transactionsGet env request = Ok data ->
        fst out
        = Ok {| status := 200;
                body := [success true;
                         ("transactions"%string,
                          JTransactions (transactions data));
                         ("accounts"%string, JAccounts (accounts data));
                         ("item"%string, JItem (item data))] |}).
Proof.
  intros Hu Hs Hi Hrows Hdec first second startDate endDate request out.
  assert (forall r : result TransactionsGetResponse,
            transactionsGet env request = r ->
            events (snd out)
            = TransactionsRequested request :: Decrypting (c :: rest)
                :: events w
            /\ forall data, r = Ok data ->
                 fst out
                 = Ok {| status := 200;
                         body := [success true;
                                  ("transactions"%string,
                                   JTransactions (transactions data));
                                  ("accounts"%string,
                                   JAccounts (accounts data));
                                  ("item"%string, JItem (item data))] |})
    as Hrun.
  { intros r Hr. subst out. unfold GetTransactions.POST.
    step_handler. rewrite Hu. step_handler. rewrite Hi. step_handler.
    rewrite Hs. unfold owned in Hrows. rewrite Hrows.
    cbn [Store.single]. unfold GetTransactions.decrypt. step_handler.
    rewrite Hdec. cbn [clock readings instant_at].
    fold first second. fold startDate endDate. fold request. rewrite Hr.
    destruct r as [data|e].
    - split; [reflexivity|]. now intros data' [= <-].
    - split; [|discriminate].
      unfold GetTransactions.on_error. step_handler.
      destruct (response e) as [r|]; [destruct (response_data r)|];
        try reflexivity;
        destruct (includes "Database error" (message e)); reflexivity. }
  destruct (Hrun _ eq_refl) as [Hev Hok].
  split; [exact Hev|]. split; [|split; [|split; [|exact Hok]]].
  - exact (DateFacts.Day_bounds (LocalTime env second)).
  - exact (DateFacts.Day_bounds (LocalTime env (subtract_days env 30 first))).
  - intros zone today later Hzone Htoday Hlater. split; [|split].
    + subst startDate. unfold format_date, subtract_days, LocalTime, UTC.
      rewrite !Hzone. apply DateFacts.Day_unique.
      unfold msPerDay in *. lia.
    + subst endDate. unfold format_date, LocalTime. rewrite Hzone.
      now apply DateFacts.Day_unique.
    + unfold msPerDay in *. lia.
Qed.

Lemma fetch_asks_for_a_fixed_window_witness :
  session_user (Scenario.env "u1") = Some "u1"%string
  /\ store_failure (Scenario.env "u1") = None
  /\ truthy (field "item_id" [("item_id", "item-1"); ("start_date", "2020-01-01");
                              ("end_date", "2025-01-01")]%string)
     = Some "item-1"%string
  /\ owned "u1" "item-1" Scenario.linked
     = [97 :: js "0a1a2a3a4a5a6a7a8a9aaabacadaeafb99e58ec098df330fb576ee1c2147cbb59c640ce7db9e017a1fd"]
  /\ GetTransactionsCodec.decrypt Aes256Gcm.cipher Fixture.key
       (97 :: js "0a1a2a3a4a5a6a7a8a9aaabacadaeafb99e58ec098df330fb576ee1c2147cbb59c640ce7db9e017a1fd")
     = Ok (js "secret-abc")
  /\ events
       (snd (run (GetTransactions.POST Aes256Gcm.cipher Fixture.key
                    (Scenario.env "u1")
                    (Object [("item_id", "item-1"); ("start_date", "2020-01-01");
                             ("end_date", "2025-01-01")]%string))
               Scenario.linked))
     = [TransactionsRequested
          {| request_access_token := js "secret-abc";
             start_date := 20365%Z;
             end_date := 20395%Z;
             count := 500;
             offset := 0 |};
        Decrypting
          (97 :: js "0a1a2a3a4a5a6a7a8a9aaabacadaeafb99e58ec098df330fb576ee1c2147cbb59c640ce7db9e017a1fd");
        Exchanged "pub-123"].
Proof.
  assert (owned "u1" "item-1" Scenario.linked
          = [97 :: js "0a1a2a3a4a5a6a7a8a9aaabacadaeafb99e58ec098df330fb576ee1c2147cbb59c640ce7db9e017a1fd"])
    as Hrow by (vm_compute; reflexivity).
  assert (GetTransactionsCodec.decrypt Aes256Gcm.cipher Fixture.key
            (97 :: js "0a1a2a3a4a5a6a7a8a9aaabacadaeafb99e58ec098df330fb576ee1c2147cbb59c640ce7db9e017a1fd")
          = Ok (js "secret-abc"))
    as Hdec by (vm_compute; reflexivity).
  split; [reflexivity|]. split; [reflexivity|]. split; [reflexivity|].
  split; [exact Hrow|]. split; [exact Hdec|].
  exact (proj1
           (fetch_asks_for_a_fixed_window Aes256Gcm.cipher Fixture.key
              (Scenario.env "u1") Scenario.linked "u1" "item-1"
              [("item_id", "item-1"); ("start_date", "2020-01-01");
               ("end_date", "2025-01-01")]%string 97 _ _
              eq_refl eq_refl eq_refl Hrow Hdec)).
Defined.

(** C10, as stated, fails twice.  The two dates come from two readings of
    the clock: with the first at 23:59:59 and the second at midnight, the
    window runs from 2025-10-04 (day 20365) to 2025-11-04 (day 20396), 31
    days.  And the route does not hold the provider to the count it asked
    for: from a provider that returns 501 transactions, 501 reach the
    caller. *)
Lemma window_of_31_days_and_501_transactions :
  events
    (snd (run (GetTransactions.POST Aes256Gcm.cipher Fixture.key
                 (Scenario.env "u1") (Scenario.fetch "item-1"))
            Scenario.before_midnight))
  = [TransactionsRequested
       {| request_access_token := js "secret-abc";
          start_date := 20365%Z;
          end_date := 20396%Z;
          count := 500;
          offset := 0 |};
     Decrypting
       (js "a0a1a2a3a4a5a6a7a8a9aaabacadaeafb99e58ec098df330fb576ee1c2147cbb59c640ce7db9e017a1fd");
     Exchanged "pub-123"]
  /\ fst (run (GetTransactions.POST Aes256Gcm.cipher Fixture.key
                 (Scenario.generous "u1") (Scenario.fetch "item-1"))
            Scenario.linked)
     = Ok {| status := 200;
             body := [success true;
                      ("transactions"%string,
                       JTransactions (repeat Scenario.t1 501));
                      ("accounts"%string, JAccounts (accounts Scenario.data));
                      ("item"%string, JItem (item Scenario.data))] |}
  /\ List.length (repeat Scenario.t1 501) = 501%nat.
Proof. vm_compute. repeat split; reflexivity. Qed.

(** The dates are the server's, not UTC's: on a server five hours behind
    UTC, a fetch made one second after midnight UTC on 2025-11-03 (day
    20395) asks for the window that ends on 2025-11-02. *)
Example window_on_a_server_behind_utc :
  events
    (snd (run (GetTransactions.POST Aes256Gcm.cipher Fixture.key
                 (Scenario.eastern "u1") (Scenario.fetch "item-1"))
            Scenario.linked))
  = [TransactionsRequested
       {| request_access_token := js "secret-abc";
          start_date := 20364%Z;
          end_date := 20394%Z;
          count := 500;
          offset := 0 |};
     Decrypting
       (js "a0a1a2a3a4a5a6a7a8a9aaabacadaeafb99e58ec098df330fb576ee1c2147cbb59c640ce7db9e017a1fd");
     Exchanged "pub-123"].
Proof. vm_compute. reflexivity. Qed.

(* ================================================================== *)
(** * Part IV.  Further properties of the pipeline *)
(* ================================================================== *)

(** The row an exchange has written is the only row of its item that the
    user owns. *)
Lemma owned_after_upsert (userId itemId : string) (token : jsstring)
    (t : N) (w w' : World) :
  NoDup (map item_id (plaid_items w)) ->
  plaid_items w'
  = Store.upsert_row {| user_id := userId; item_id := itemId;
                        access_token := token; created_at := t |}
      (plaid_items w) ->
  owned userId itemId w' = [token].
Proof.
  intros Huniq Hw. unfold owned. rewrite Hw.
  destruct (StoreFacts.upsert_row_one
              {| user_id := userId; item_id := itemId;
                 access_token := token; created_at := t |}
              (plaid_items w) Huniq) as (row & Hf & Hu & _ & Ht).
  cbn [item_id user_id access_token] in *. rewrite Hf.
  cbn [filter]. unfold Store.eq_user_id. rewrite Hu, String.eqb_refl.
  cbn [map]. now rewrite Ht.
Qed.

(** An envelope is never the empty text. *)
Lemma envelope_not_empty (cipher : Cipher) (key iv : list byte)
    (plain : jsstring) :
  List.length iv = 16%nat ->
  exists c rest,
    ExchangeTokenCodec.encrypt_with cipher key iv plain = c :: rest.
Proof.
  intros Hiv. rewrite CodecFacts.encrypt_with_parts.
  destruct iv as [|b iv]; [discriminate|]. cbn [Hex.encode app]. eauto.
Qed.

(** The design's end-to-end scenario, for every user, token and
    credential: after an exchange has stored the credential of an item, a
    fetch of that item by the same user decrypts the stored envelope back
    to the credential and asks the provider with it, and with nothing
    else. *)
Theorem fetch_after_link_uses_the_credential
    (cipher : Cipher) (encryptionKey : list byte) (env env' : Env)
    (w : World) (userId token : string)
    (fields fields' : list (string * string)) (exchange : ExchangeResponse) :
  Lawful cipher ->
  List.length encryptionKey = 32%nat ->
  Utf8.well_formed (exchanged_access_token exchange) = true ->
  NoDup (map item_id (plaid_items w)) ->
  session_user env = Some userId ->
  truthy (field "public_token" fields) = Some token ->
  itemPublicTokenExchange env token = Ok exchange ->
  service_role_key env = true ->
  store_failure env = None ->
  session_user env' = Some userId ->
  store_failure env' = None ->
  truthy (field "item_id" fields') = Some (exchanged_item_id exchange) ->
  let linked :=
    snd (run (ExchangeToken.POST cipher encryptionKey env (Object fields)) w) in
  let fetched :=
    snd (run (GetTransactions.POST cipher encryptionKey env' (Object fields'))
           linked) in
  exists request envelope,
    owned userId (exchanged_item_id exchange) linked = [envelope]
    /\ GetTransactionsCodec.decrypt cipher encryptionKey envelope
       = Ok (exchanged_access_token exchange)
    /\ events fetched
       = TransactionsRequested request :: Decrypting envelope
           :: Exchanged token :: events w
    /\ request_access_token request = exchanged_access_token exchange.
Proof.
  intros L Hk Hwf Huniq Hu Hp Hx Hsk Hs Hu' Hs' Hi linked fetched.
  subst fetched linked.
  rewrite (POST_stores cipher encryptionKey env w userId token fields
             exchange) by assumption.
  cbn [snd]. set (w1 := {| plaid_items := _ |}).
  assert (owned userId (exchanged_item_id exchange) w1
          = [fst (ExchangeTokenCodec.encrypt cipher encryptionKey
                    (exchanged_access_token exchange) (random w))])
    as Hrows by (eapply owned_after_upsert; [exact Huniq|reflexivity]).
  rewrite encrypt_nonce in Hrows. cbn [fst] in Hrows.
  set (iv := fst (randomBytes 16 (random w))) in *.
  assert (List.length iv = 16%nat) as Hiv
      by apply CodecFacts.randomBytes_length.
  destruct (envelope_not_empty cipher encryptionKey iv
              (exchanged_access_token exchange) Hiv) as (c & rest & Henv).
  assert (GetTransactionsCodec.decrypt cipher encryptionKey (c :: rest)
          = Ok (exchanged_access_token exchange)) as Hdec.
  { rewrite <- Henv, CodecFacts.decrypt_encrypt_with by assumption.
    now rewrite Utf8Facts.utf8_roundtrip. }
  rewrite Henv in Hrows.
  eexists. exists (c :: rest).
  split; [exact Hrows|]. split; [exact Hdec|].
  unfold GetTransactions.POST.
  step_handler. rewrite Hu'. step_handler. rewrite Hi. step_handler.
  rewrite Hs'. unfold owned in Hrows. rewrite Hrows.
  cbn [Store.single]. unfold GetTransactions.decrypt. step_handler.
  rewrite Hdec. cbn [clock readings instant_at events].
  match goal with
  | |- context [transactionsGet env' ?r] =>
      destruct (transactionsGet env' r) as [data|e]
  end.
  - cbn [fst snd events]. split; reflexivity.
  - unfold GetTransactions.on_error. step_handler.
    destruct (response e) as [r|]; [destruct (response_data r)|];
      try (split; reflexivity);
      destruct (includes "Database error" (message e)); split; reflexivity.
Qed.

Lemma fetch_after_link_uses_the_credential_witness :
  exists request envelope,
    owned "u1" "item-1" Scenario.linked = [envelope]
    /\ GetTransactionsCodec.decrypt Aes256Gcm.cipher Fixture.key envelope
       = Ok (js "secret-abc")
    /\ events
         (snd (run (GetTransactions.POST Aes256Gcm.cipher Fixture.key
                      (Scenario.env "u1") (Scenario.fetch "item-1"))
                 Scenario.linked))
       = TransactionsRequested request :: Decrypting envelope
           :: Exchanged "pub-123" :: events Scenario.empty
    /\ request_access_token request = js "secret-abc".
Proof.
  exact (fetch_after_link_uses_the_credential Aes256Gcm.cipher Fixture.key
           (Scenario.env "u1") (Scenario.env "u1") Scenario.empty
           "u1" "pub-123" [("public_token", "pub-123")]%string
           [("item_id", "item-1")]%string
           {| exchanged_access_token := js "secret-abc";
              exchanged_item_id := "item-1" |}
           Aes256GcmFacts.lawful eq_refl eq_refl (NoDup_nil _)
           eq_refl eq_refl eq_refl eq_refl eq_refl eq_refl eq_refl eq_refl).
Defined.

(** Without a session every route answers 401, and nothing is read,
    written or called. *)
Theorem no_session_is_unauthorized
    (cipher : Cipher) (encryptionKey : list byte) (env : Env) (w : World)
    (request : Body) :
  session_user env = None ->
  let unauthorized :=
    (Ok {| status := 401;
           body := [success false; text "message" "Unauthorized"] |}, w) in
  run (ExchangeToken.POST cipher encryptionKey env request) w = unauthorized
  /\ run (GetTransactions.POST cipher encryptionKey env request) w
     = unauthorized
  /\ run (PlaidItems.GET env) w = unauthorized.
Proof.
  intros Hu unauthorized. subst unauthorized.
  unfold ExchangeToken.POST, GetTransactions.POST, PlaidItems.GET.
  step_handler. rewrite Hu. repeat split.
Qed.

Lemma no_session_is_unauthorized_witness :
  session_user Scenario.signed_out = None
  /\ run (GetTransactions.POST Aes256Gcm.cipher Fixture.key
            Scenario.signed_out (Scenario.fetch "item-1")) Scenario.linked
     = (Ok {| status := 401;
              body := [success false; text "message" "Unauthorized"] |},
        Scenario.linked).
Proof.
  split; [reflexivity|].
  exact (proj1 (proj2
           (no_session_is_unauthorized Aes256Gcm.cipher Fixture.key
              Scenario.signed_out Scenario.linked (Scenario.fetch "item-1")
              eq_refl))).
Defined.

(** A request to exchange that carries no public token is answered 400
    before anything is exchanged or written. *)
Theorem missing_public_token_is_refused
    (cipher : Cipher) (encryptionKey : list byte) (env : Env) (w : World)
    (userId : string) (fields : list (string * string)) :
  session_user env = Some userId ->
  truthy (field "public_token" fields) = None ->
  run (ExchangeToken.POST cipher encryptionKey env (Object fields)) w
  = (Ok {| status := 400;
           body := [success false; text "message" "Missing public_token"] |},
     w).
Proof.
  intros Hu Hp. unfold ExchangeToken.POST. rewrite Hu. step_handler.
  now rewrite Hp.
Qed.

Lemma missing_public_token_is_refused_witness :
  run (ExchangeToken.POST Aes256Gcm.cipher Fixture.key (Scenario.env "u1")
         (Object [("public_token", "")]%string)) Scenario.empty
  = (Ok {| status := 400;
           body := [success false; text "message" "Missing public_token"] |},
     Scenario.empty).
Proof.
  exact (missing_public_token_is_refused Aes256Gcm.cipher Fixture.key
           (Scenario.env "u1") Scenario.empty "u1"
           [("public_token", "")]%string eq_refl eq_refl).
Defined.

(** When the provider refuses the exchange, its status and its error body
    are passed on to the caller, and the table is as it was. *)
Theorem provider_refusal_is_passed_on
    (cipher : Cipher) (encryptionKey : list byte) (env : Env) (w : World)
    (userId token : string) (fields : list (string * string))
    (e : JsError) (r : ErrorResponse) (d : PlaidErrorData) :
  session_user env = Some userId ->
  truthy (field "public_token" fields) = Some token ->
  itemPublicTokenExchange env token = Thrown e ->
  response e = Some r ->
  response_data r = Some d ->
  String.eqb (error_code d) "" = false ->
  run (ExchangeToken.POST cipher encryptionKey env (Object fields)) w
  = (Ok {| status :=
             match response_status r with
             | Some n => if n =? 0 then 500 else n
             | None => 500
             end;
           body := [success false; text "message" "Plaid error";
                    ("details"%string, JPlaidError d)] |},
     {| plaid_items := plaid_items w; random := random w; clock := clock w;
        events := Exchanged token :: events w |}).
Proof.
  intros Hu Hp Hx Hr Hd Hc. unfold ExchangeToken.POST.
  rewrite Hu. step_handler. rewrite Hp. step_handler. rewrite Hx.
  step_handler. unfold ExchangeToken.on_error. rewrite Hr, Hd, Hc.
  reflexivity.
Qed.

Lemma provider_refusal_is_passed_on_witness :
  run (ExchangeToken.POST Aes256Gcm.cipher Fixture.key (Scenario.env "u1")
         (Scenario.link "pub-999")) Scenario.empty
  = (Ok {| status := 400;
           body := [success false; text "message" "Plaid error";
                    ("details"%string,
                     JPlaidError
                       {| error_code := "INVALID_PUBLIC_TOKEN";
                          error_message :=
                            Some "provided public token is invalid"%string |})] |},
     {| plaid_items := []; random := Fixture.rng;
        clock := Scenario.wall_clock;
        events := [Exchanged "pub-999"] |}).
Proof.
  exact (provider_refusal_is_passed_on Aes256Gcm.cipher Fixture.key
           (Scenario.env "u1") Scenario.empty "u1" "pub-999"
           [("public_token", "pub-999")]%string Scenario.invalid_token _ _
           eq_refl eq_refl eq_refl eq_refl eq_refl eq_refl).
Defined.

(** When the store fails after the provider has handed over the
    credential, the caller gets status 500 with the store's message; the
    table is as it was, the exchange is neither repeated nor undone, and
    the credential is lost with the request. *)
Theorem store_failure_leaves_the_credential_unsaved
    (cipher : Cipher) (encryptionKey : list byte) (env : Env) (w : World)
    (userId token dbError : string) (fields : list (string * string))
    (exchange : ExchangeResponse) :
  session_user env = Some userId ->
  truthy (field "public_token" fields) = Some token ->
  itemPublicTokenExchange env token = Ok exchange ->
  service_role_key env = true ->
  store_failure env = Some dbError ->
  run (ExchangeToken.POST cipher encryptionKey env (Object fields)) w
  = (Ok {| status := 500;
           body := [success false;
                    text "message"
                      ("Database error saving Plaid item: " ++ dbError)%string] |},
     {| plaid_items := plaid_items w;
        random := snd (ExchangeTokenCodec.encrypt cipher encryptionKey
                         (exchanged_access_token exchange) (random w));
        clock := clock w;
        events := Exchanged token :: events w |}).
Proof.
  intros Hu Hp Hx Hk Hs. unfold ExchangeToken.POST.
  rewrite Hu. step_handler. rewrite Hp. step_handler. rewrite Hx.
  unfold ExchangeToken.encrypt, ExchangeToken.createServiceRoleClient,
    Store.upsert.
  cbn [random]. destruct (ExchangeTokenCodec.encrypt _ _ _ _) as [encrypted g].
  rewrite Hk, Hs. step_handler. reflexivity.
Qed.

Lemma store_failure_leaves_the_credential_unsaved_witness :
  store_failure (Scenario.store_down "u1") = Some "connection refused"%string
  /\ fst (run (ExchangeToken.POST Aes256Gcm.cipher Fixture.key
                 (Scenario.store_down "u1") (Scenario.link "pub-123"))
            Scenario.empty)
     = Ok {| status := 500;
             body := [success false;
                      text "message"
                        "Database error saving Plaid item: connection refused"] |}.
Proof.
  split; [reflexivity|].
  exact (f_equal fst
           (store_failure_leaves_the_credential_unsaved Aes256Gcm.cipher
              Fixture.key (Scenario.store_down "u1") Scenario.empty
              "u1" "pub-123" "connection refused"
              [("public_token", "pub-123")]%string
              {| exchanged_access_token := js "secret-abc";
                 exchanged_item_id := "item-1" |}
              eq_refl eq_refl eq_refl eq_refl eq_refl)).
Defined.

(* ================================================================== *)
(** * Part V.  The rest of the code: format, refusals, the other routes,
      the pages *)
(* ================================================================== *)

(* ------------------------------------------------------------------ *)
(** * The envelope *)
(* ------------------------------------------------------------------ *)

Module FormatFacts.

Lemma digit_lower_hex (d : N) : d < 16 -> lower_hex (Hex.digit d) = true.
Proof.
  intros H. unfold lower_hex, Hex.digit.
  destruct (N.ltb_spec d 10).
  - replace ((48 <=? 48 + d) && (48 + d <=? 57)) with true; [reflexivity|].
    symmetry. apply andb_true_iff. split; apply N.leb_le; lia.
  - replace ((97 <=? 87 + d) && (87 + d <=? 102)) with true;
      [apply orb_true_r|].
    symmetry. apply andb_true_iff. split; apply N.leb_le; lia.
Qed.

Lemma encode_lower_hex (bs : list byte) :
  forallb lower_hex (Hex.encode bs) = true.
Proof.
  induction bs as [|b bs IH]; [reflexivity|].
  pose proof (to_N_lt b) as Hb.
  cbn [Hex.encode forallb]. rewrite IH, !digit_lower_hex; [reflexivity| |].
  - apply N.mod_lt. lia.
  - apply N.Div0.div_lt_upper_bound. lia.
Qed.

Lemma seal_length (key iv plain : list byte) :
  List.length (fst (Aes256Gcm.seal key iv plain)) = List.length plain.
Proof.
  unfold Aes256Gcm.seal. cbn [fst].
  rewrite Aes256GcmFacts.bytes_length, Aes256GcmFacts.xor_list_length;
    rewrite Aes256GcmFacts.values_length; [reflexivity|].
  now rewrite Aes256GcmFacts.stream_length.
Qed.

(** Every code point takes at least as many bytes as code units. *)
Lemma of_code_point_length (c : N) :
  (1 <= List.length (Utf8.of_code_point c) <= 4)%nat.
Proof.
  unfold Utf8.of_code_point.
  destruct (c <? 128); [cbn; lia|].
  destruct (c <? 2048); [cbn; lia|].
  destruct (c <? 65536); cbn; lia.
Qed.

Lemma pair_length (c : N) :
  0x10000 <= c -> List.length (Utf8.of_code_point c) = 4%nat.
Proof.
  intros H. unfold Utf8.of_code_point.
  destruct (N.ltb_spec c 128); [lia|].
  destruct (N.ltb_spec c 2048); [lia|].
  destruct (N.ltb_spec c 65536); [lia|reflexivity].
Qed.

Lemma encode_length_upto (n : nat) (s : jsstring) :
  (List.length s <= n)%nat ->
  (List.length s <= List.length (Utf8.encode s))%nat.
Proof.
  revert s. induction n as [|n IH]; intros s Hn.
  - destruct s; [cbn; lia|cbn in Hn; lia].
  - destruct s as [|u rest]; [cbn; lia|].
    cbn [List.length] in Hn. cbn [Utf8.encode].
    destruct (Utf8.is_high u).
    + destruct rest as [|v rest'].
      * pose proof (of_code_point_length Utf8.replacement). cbn [List.length]. lia.
      * destruct (Utf8.is_low v).
        -- rewrite length_app, pair_length by lia.
           specialize (IH rest'). cbn [List.length] in *. lia.
        -- rewrite length_app.
           pose proof (of_code_point_length Utf8.replacement).
           specialize (IH (v :: rest')). cbn [List.length] in *. lia.
    + destruct (Utf8.is_low u); rewrite length_app;
        [pose proof (of_code_point_length Utf8.replacement)
        |pose proof (of_code_point_length u)];
        specialize (IH rest); cbn [List.length]; lia.
Qed.

Lemma utf8_length (s : jsstring) :
  (List.length s <= List.length (Utf8.encode s))%nat.
Proof. apply (encode_length_upto (List.length s)). lia. Qed.

End FormatFacts.

(** The text [encrypt] returns under AES-256-GCM: 64 characters for the
    nonce and the tag and two for every byte of the plaintext in UTF-8, all
    of them lower-case hexadecimal digits, the first 32 being the nonce just
    drawn; sixteen bytes of the random source are used up.  The text is
    longer than the plaintext, so it is never the plaintext itself. *)
Theorem envelope_is_lower_case_hexadecimal
    (key : list byte) (plain : jsstring) (g : Rng) :
  List.length key = 32%nat ->
  let text := fst (ExchangeTokenCodec.encrypt Aes256Gcm.cipher key plain g) in
  List.length text = (64 + 2 * List.length (Utf8.encode plain))%nat
  /\ forallb lower_hex text = true
  /\ substring 0 32 text = Hex.encode (map (supply g) (seq (drawn g) 16))
  /\ drawn (snd (ExchangeTokenCodec.encrypt Aes256Gcm.cipher key plain g))
     = (drawn g + 16)%nat
  /\ (List.length plain < List.length text)%nat
  /\ text <> plain.
Proof.
  intros Hk text.
  assert (List.length text = (64 + 2 * List.length (Utf8.encode plain))%nat)
    as Hlen.
  { subst text. rewrite encrypt_nonce. cbn [fst].
    rewrite CodecFacts.encrypt_with_parts. cbn [seal Aes256Gcm.cipher].
    rewrite !length_app, !HexFacts.encode_length,
      CodecFacts.randomBytes_length, Aes256GcmFacts.seal_tag_length,
      FormatFacts.seal_length. lia. }
  pose proof (FormatFacts.utf8_length plain) as Hutf.
  split; [exact Hlen|]. split; [|split; [|split; [|split]]].
  - subst text. rewrite encrypt_nonce. cbn [fst].
    rewrite CodecFacts.encrypt_with_parts.
    rewrite !forallb_app, !FormatFacts.encode_lower_hex. reflexivity.
  - subst text. rewrite encrypt_nonce. cbn [fst].
    rewrite CodecFacts.encrypt_with_parts.
    rewrite CodecFacts.substring_prefix
      by (rewrite HexFacts.encode_length, CodecFacts.randomBytes_length;
          reflexivity).
    reflexivity.
  - reflexivity.
  - lia.
  - intros E. rewrite E in Hlen. lia.
Qed.

Lemma envelope_is_lower_case_hexadecimal_witness :
  List.length Fixture.key = 32%nat
  /\ List.length
       (fst (ExchangeTokenCodec.encrypt Aes256Gcm.cipher Fixture.key
               (js "secret-abc") Fixture.rng))
     = (64 + 2 * List.length (Utf8.encode (js "secret-abc")))%nat.
Proof.
  split; [reflexivity|].
  exact (proj1 (envelope_is_lower_case_hexadecimal Fixture.key
                  (js "secret-abc") Fixture.rng eq_refl)).
Defined.

(* ------------------------------------------------------------------ *)
(** * Texts that [decrypt] refuses *)
(* ------------------------------------------------------------------ *)

Module RefusalFacts.

(** A digit put in the place of a digit leaves as many bytes to read. *)
Lemma decode_with_digit_length (bs : list byte) (i : nat) (c d : N) :
  (i < List.length (Hex.encode bs))%nat ->
  Hex.unhex c = Some d ->
  List.length (Hex.decode (with_char i c (Hex.encode bs))) = List.length bs.
Proof.
  revert i. induction bs as [|b bs IH]; intros i Hi Hc; [cbn in Hi; lia|].
  pose proof (to_N_lt b) as Hb.
  assert (Byte.to_N b / 16 < 16) as Hh
      by (apply N.Div0.div_lt_upper_bound; lia).
  assert (Byte.to_N b mod 16 < 16) as Hl by (apply N.mod_lt; lia).
  cbn [Hex.encode] in *. destruct i as [|[|i]].
  - rewrite TamperFacts.with_char_head. cbn [Hex.decode].
    rewrite Hc, HexFacts.unhex_digit by assumption.
    cbn [List.length]. now rewrite HexFacts.hex_roundtrip.
  - rewrite TamperFacts.with_char_tail, TamperFacts.with_char_head.
    cbn [Hex.decode]. rewrite Hc, HexFacts.unhex_digit by assumption.
    cbn [List.length]. now rewrite HexFacts.hex_roundtrip.
  - rewrite !TamperFacts.with_char_tail. cbn [Hex.decode].
    rewrite !HexFacts.unhex_digit by assumption.
    cbn [List.length]. f_equal. apply IH; [cbn in Hi; lia|exact Hc].
Qed.

(** The tag read from a text of fewer than 40 characters has fewer than
    four bytes. *)
Lemma short_tag (s : jsstring) :
  (List.length s < 40)%nat ->
  (List.length (GetTransactionsCodec.authTag_of s) < 4)%nat.
Proof.
  intros H. unfold GetTransactionsCodec.authTag_of, substring,
    GetTransactionsCodec.IV_LENGTH, GetTransactionsCodec.AUTH_TAG_LENGTH.
  set (part := firstn _ (skipn _ s)).
  assert (List.length part < 8)%nat as Hp
      by (subst part; rewrite length_firstn, length_skipn; lia).
  pose proof (TamperFacts.decode_length (List.length part) part (le_n _)).
  lia.
Qed.

End RefusalFacts.

(** Under AES-256-GCM a changed tag is always found out: when one of the 32
    characters of the tag in a valid envelope is replaced by a hexadecimal
    digit of another value, [decrypt] throws the cipher's authentication
    error, whatever the key, the nonce and the plaintext. *)
Theorem changed_tag_is_refused
    (key iv : list byte) (plain : jsstring) (i : nat) (c d : N) :
  List.length key = 32%nat ->
  List.length iv = 16%nat ->
  (32 <= i < 64)%nat ->
  let text := ExchangeTokenCodec.encrypt_with Aes256Gcm.cipher key iv plain in
  Hex.unhex c = Some d ->
  Hex.unhex c <> Hex.unhex (nth i text 0) ->
  GetTransactionsCodec.decrypt Aes256Gcm.cipher key (with_char i c text)
  = Thrown (new_Error
      "Decryption failed: Unsupported state or unable to authenticate data").
Proof.
  intros Hk Hiv Hi text Hc Hne. subst text.
  rewrite CodecFacts.encrypt_with_parts in *.
  cbn [seal Aes256Gcm.cipher] in *.
  set (tag := snd (Aes256Gcm.seal key iv (Utf8.encode plain))) in *.
  set (enc := fst (Aes256Gcm.seal key iv (Utf8.encode plain))) in *.
  assert (List.length tag = 16%nat) as Htag
      by apply Aes256GcmFacts.seal_tag_length.
  assert (List.length (Hex.encode iv) = 32%nat) as La
      by (rewrite HexFacts.encode_length; lia).
  assert (List.length (Hex.encode tag) = 32%nat) as Lb
      by (rewrite HexFacts.encode_length; lia).
  rewrite TamperFacts.with_char_app_r by lia. rewrite La.
  rewrite TamperFacts.with_char_app_l by lia.
  rewrite app_nth2, La in Hne by lia. rewrite app_nth1 in Hne by lia.
  set (tag' := Hex.decode (with_char (i - 32) c (Hex.encode tag))).
  assert (List.length tag' = 16%nat) as Htag'.
  { subst tag'. rewrite (RefusalFacts.decode_with_digit_length tag _ c d);
      [exact Htag|lia|exact Hc]. }
  assert (tag' <> tag) as Hother
      by (apply TamperFacts.decode_with_char_other; [lia|exact Hne]).
  destruct (CodecFacts.parts_of_text (Hex.encode iv)
              (with_char (i - 32) c (Hex.encode tag)) (Hex.encode enc))
    as (E1 & E2 & E3);
    [exact La|rewrite TamperFacts.with_char_length; lia|].
  unfold GetTransactionsCodec.decrypt. cbv zeta.
  rewrite E1, E2, E3, !HexFacts.hex_roundtrip, HexFacts.encode_even.
  fold tag'. cbn [setup open Aes256Gcm.cipher].
  unfold Aes256Gcm.setup. rewrite Hk, Hiv, Htag'.
  cbn [Nat.eqb negb Aes256Gcm.valid_tag_length Nat.leb orb andb].
  subst enc. now rewrite Aes256GcmFacts.gcm_refuses_another_tag.
Qed.

Lemma changed_tag_is_refused_witness :
  Hex.unhex 48 = Some 0
  /\ Hex.unhex 48
     <> Hex.unhex
          (nth 32 (ExchangeTokenCodec.encrypt_with Aes256Gcm.cipher
                     Fixture.key Fixture.iv (js "secret-abc")) 0)
  /\ GetTransactionsCodec.decrypt Aes256Gcm.cipher Fixture.key
       (with_char 32 48
          (ExchangeTokenCodec.encrypt_with Aes256Gcm.cipher Fixture.key
             Fixture.iv (js "secret-abc")))
     = Thrown (new_Error
         "Decryption failed: Unsupported state or unable to authenticate data").
Proof.
  assert (Hex.unhex 48
          <> Hex.unhex
               (nth 32 (ExchangeTokenCodec.encrypt_with Aes256Gcm.cipher
                          Fixture.key Fixture.iv (js "secret-abc")) 0))
    as Hne by (vm_compute; discriminate).
  assert (32 <= 32 < 64)%nat as Hi by lia.
  split; [reflexivity|]. split; [exact Hne|].
  exact (changed_tag_is_refused Fixture.key Fixture.iv (js "secret-abc")
           32 48 0 eq_refl eq_refl Hi eq_refl Hne).
Defined.

(** Under AES-256-GCM no text of fewer than 40 characters decrypts: it
    leaves the cipher no nonce, or a tag of fewer than four bytes, and
    [decrypt] throws before any data is read. *)
Theorem short_text_is_refused (key : list byte) (s : jsstring) :
  List.length key = 32%nat ->
  (List.length s < 40)%nat ->
  exists cause,
    (cause = new_Error "Invalid initialization vector"
     \/ cause
        = new_Error
            ("Invalid authentication tag length: "
             ++ NilZero.string_of_uint
                  (Nat.to_uint
                     (List.length (GetTransactionsCodec.authTag_of s)))))
    /\ GetTransactionsCodec.decrypt Aes256Gcm.cipher key s
       = Thrown (new_Error ("Decryption failed: " ++ message cause)).
Proof.
  intros Hk Hs. pose proof (RefusalFacts.short_tag s Hs) as Htag.
  unfold GetTransactionsCodec.decrypt. cbv zeta.
  cbn [setup Aes256Gcm.cipher]. unfold Aes256Gcm.setup. rewrite Hk.
  cbn [Nat.eqb negb].
  destruct (Nat.eqb (List.length (GetTransactionsCodec.iv_of s)) 0).
  - eexists. split; [left; reflexivity|reflexivity].
  - assert (Aes256Gcm.valid_tag_length
              (List.length (GetTransactionsCodec.authTag_of s)) = false)
      as ->.
    { destruct (List.length (GetTransactionsCodec.authTag_of s))
        as [|[|[|[|n]]]]; try reflexivity. lia. }
    cbn [negb]. eexists. split; [right; reflexivity|reflexivity].
Qed.

Lemma short_text_is_refused_witness :
  List.length Fixture.key = 32%nat
  /\ (List.length (js "a0a1a2a3a4a5a6a7a8a9aaabacadaeafb99e58") < 40)%nat
  /\ exists cause,
       (cause = new_Error "Invalid initialization vector"
        \/ cause
           = new_Error
               ("Invalid authentication tag length: "
                ++ NilZero.string_of_uint
                     (Nat.to_uint
                        (List.length
                           (GetTransactionsCodec.authTag_of
                              (js "a0a1a2a3a4a5a6a7a8a9aaabacadaeafb99e58"))))))
       /\ GetTransactionsCodec.decrypt Aes256Gcm.cipher Fixture.key
            (js "a0a1a2a3a4a5a6a7a8a9aaabacadaeafb99e58")
          = Thrown (new_Error ("Decryption failed: " ++ message cause)).
Proof.
  assert (List.length (js "a0a1a2a3a4a5a6a7a8a9aaabacadaeafb99e58") < 40)%nat
    as H by (vm_compute; lia).
  split; [reflexivity|]. split; [exact H|].
  exact (short_text_is_refused Fixture.key
           (js "a0a1a2a3a4a5a6a7a8a9aaabacadaeafb99e58") eq_refl H).
Defined.

(** Whatever the cipher and the key, [decrypt] refuses every text of odd
    length beyond the 64 characters of the nonce and the tag: the
    ciphertext that is left has an odd number of digits. *)
Theorem odd_text_is_refused
    (cipher : Cipher) (key : list byte) (s : jsstring) :
  (64 < List.length s)%nat ->
  Nat.odd (List.length s) = true ->
  exists e, GetTransactionsCodec.decrypt cipher key s = Thrown e.
Proof.
  intros Hlen Hodd. unfold GetTransactionsCodec.decrypt. cbv zeta.
  destruct (setup cipher key _ _) as [cause|]; [eauto|].
  assert (Nat.odd (List.length (GetTransactionsCodec.encrypted_of s)) = true)
    as ->.
  { unfold GetTransactionsCodec.encrypted_of, substring_from,
      GetTransactionsCodec.IV_LENGTH, GetTransactionsCodec.AUTH_TAG_LENGTH.
    rewrite length_skipn.
    change ((16 + 16) * 2)%nat with 64%nat.
    replace (List.length s) with (64 + (List.length s - 64))%nat in Hodd
      by lia.
    rewrite Nat.odd_add in Hodd. exact Hodd. }
  eauto.
Qed.

Lemma odd_text_is_refused_witness :
  (64 < List.length
          (js "a0a1a2a3a4a5a6a7a8a9aaabacadaeaf022f841c702b66b0bec8111f67de221d0"))%nat
  /\ Nat.odd
       (List.length
          (js "a0a1a2a3a4a5a6a7a8a9aaabacadaeaf022f841c702b66b0bec8111f67de221d0"))
     = true
  /\ exists e,
       GetTransactionsCodec.decrypt Aes256Gcm.cipher Fixture.key
         (js "a0a1a2a3a4a5a6a7a8a9aaabacadaeaf022f841c702b66b0bec8111f67de221d0")
       = Thrown e.
Proof.
  assert (64 < List.length
                 (js "a0a1a2a3a4a5a6a7a8a9aaabacadaeaf022f841c702b66b0bec8111f67de221d0"))%nat
    as H by (vm_compute; lia).
  split; [exact H|]. split; [reflexivity|].
  exact (odd_text_is_refused Aes256Gcm.cipher Fixture.key
           (js "a0a1a2a3a4a5a6a7a8a9aaabacadaeaf022f841c702b66b0bec8111f67de221d0")
           H eq_refl).
Defined.

(* ------------------------------------------------------------------ *)
(** * What a handler leaves of the world *)
(* ------------------------------------------------------------------ *)

Module HandlerFacts.

Lemma untouched_refl (w : World) : untouched w w.
Proof. now split. Qed.

Lemma untouched_trans (w1 w2 w3 : World) :
  untouched w1 w2 -> untouched w2 w3 -> untouched w1 w3.
Proof. unfold untouched. intros [? ?] [? ?]. split; congruence. Qed.

Lemma reads_only_ret {A : Type} (a : A) : reads_only (ret a).
Proof. intros w. apply untouched_refl. Qed.

Lemma reads_only_respond {A : Type} (code : N) (fields : list (string * Json)) :
  reads_only (@respond A code fields).
Proof. intros w. apply untouched_refl. Qed.

Lemma reads_only_throw {A : Type} (e : JsError) : reads_only (@throw A e).
Proof. intros w. apply untouched_refl. Qed.

Lemma reads_only_call {A : Type} (r : result A) : reads_only (call r).
Proof. destruct r; [apply reads_only_ret|apply reads_only_throw]. Qed.

Lemma reads_only_record (ev : Event) : reads_only (record ev).
Proof. intros w. now split. Qed.

Lemma reads_only_now : reads_only now.
Proof. intros w. now split. Qed.

Lemma reads_only_select {A : Type} (env : Env)
    (q : list Row -> option A * option string) :
  reads_only (Store.select env q).
Proof.
  intros w. unfold Store.select.
  destruct (store_failure env); apply untouched_refl.
Qed.

Lemma reads_only_bind {A B : Type} (m : Handler A) (k : A -> Handler B) :
  reads_only m -> (forall a, reads_only (k a)) -> reads_only (bind m k).
Proof.
  intros Hm Hk w. unfold bind. specialize (Hm w).
  destruct (m w) as [[a|r|e] w1]; cbn [snd] in *; try exact Hm.
  eapply untouched_trans; [exact Hm|apply Hk].
Qed.

Lemma reads_only_try_catch {A : Type} (m : Handler A)
    (handler : JsError -> Handler A) :
  reads_only m -> (forall e, reads_only (handler e)) ->
  reads_only (try_catch m handler).
Proof.
  intros Hm Hh w. unfold try_catch. specialize (Hm w).
  destruct (m w) as [[a|r|e] w1]; cbn [snd] in *; try exact Hm.
  eapply untouched_trans; [exact Hm|apply Hh].
Qed.

Lemma reads_only_run (h : Handler Response) (w : World) :
  reads_only h -> untouched w (snd (run h w)).
Proof.
  intros H. unfold run. specialize (H w).
  now destruct (h w) as [[a|r|e] w1].
Qed.

(** Take a handler apart along its steps. *)
Ltac along_the_steps :=
  repeat
    (cbv zeta;
     lazymatch goal with
     | |- forall _, _ => intro
     | |- reads_only (bind _ _) => apply reads_only_bind
     | |- reads_only (try_catch _ _) => apply reads_only_try_catch
     | |- reads_only (ret _) => apply reads_only_ret
     | |- reads_only (respond _ _) => apply reads_only_respond
     | |- reads_only (throw _) => apply reads_only_throw
     | |- reads_only (call _) => apply reads_only_call
     | |- reads_only (record _) => apply reads_only_record
     | |- reads_only now => apply reads_only_now
     | |- reads_only dayjs => unfold dayjs
     | |- reads_only (Store.select _ _) => apply reads_only_select
     | |- reads_only (match ?x with _ => _ end) => destruct x
     end).

(** A [catch] clause that answers whatever it is given makes the whole
    handler answer. *)
Lemma try_catch_answers (m : Handler Response)
    (handler : JsError -> Handler Response) :
  (forall e w, exists r, handler e w = (Answer r, w)) ->
  answers (try_catch m handler).
Proof.
  intros Hh w. unfold run, try_catch.
  destruct (m w) as [[a|r|e] w1]; cbn [fst]; eauto.
  destruct (Hh e w1) as [r ->]. cbn [fst]. eauto.
Qed.

Lemma run_bind_ret {A : Type} (a : A) (k : A -> Handler Response)
    (w : World) :
  run (bind (ret a) k) w = run (k a) w.
Proof. reflexivity. Qed.

(** The [catch] clause of the token exchange answers. *)
Lemma exchange_on_error_answers (e : JsError) (w : World) :
  exists r, ExchangeToken.on_error e w = (Answer r, w).
Proof.
  unfold ExchangeToken.on_error, respond.
  destruct (response e) as [r|]; [destruct (response_data r) as [d|]|];
    try destruct (String.eqb (error_code d) ""); eauto.
Qed.

(** With a body that is JSON the token exchange answers. *)
Lemma exchange_answers_json (cipher : Cipher) (encryptionKey : list byte)
    (env : Env) (fields : list (string * string)) :
  answers (ExchangeToken.POST cipher encryptionKey env (Object fields)).
Proof.
  intros w. unfold ExchangeToken.POST.
  destruct (session_user env) as [userId|]; [|eexists; reflexivity].
  cbn [request_json]. rewrite run_bind_ret.
  destruct (truthy (field "public_token" fields)) as [token|];
    [|eexists; reflexivity].
  apply try_catch_answers, exchange_on_error_answers.
Qed.

End HandlerFacts.

(** The routes that read -- the fetch of transactions by [POST] and by
    [GET], the latest item, the refresh and the link token -- never write:
    whatever the request, the session and the answers of the store and the
    provider, the table and the random source are afterwards as they
    were. *)
Theorem reading_routes_write_nothing
    (cipher : Cipher) (encryptionKey : list byte) (env : Env)
    (client : ItemApi)
    (linkTokenCreate : LinkTokenCreateRequest -> result LinkTokenCreateResponse)
    (request : Body) (w : World) :
  untouched w
    (snd (run (GetTransactions.POST cipher encryptionKey env request) w))
  /\ untouched w (snd (run (GetTransactions.GET env) w))
  /\ untouched w (snd (run (PlaidItems.GET env) w))
  /\ untouched w
       (snd (run (RefreshTransactions.POST env client) w))
  /\ untouched w
       (snd (run (CreateLinkToken.POST env linkTokenCreate) w)).
Proof.
  split; [|split; [|split; [|split]]]; apply HandlerFacts.reads_only_run.
  - unfold GetTransactions.POST, GetTransactions.on_error,
      GetTransactions.decrypt, request_json.
    HandlerFacts.along_the_steps.
  - unfold GetTransactions.GET. HandlerFacts.along_the_steps.
  - unfold PlaidItems.GET. HandlerFacts.along_the_steps.
  - unfold RefreshTransactions.POST. HandlerFacts.along_the_steps.
  - unfold CreateLinkToken.POST, CreateLinkToken.on_error.
    HandlerFacts.along_the_steps.
Qed.

(** The token exchange reads the body and takes it apart before its [try]
    begins, where the other routes do so inside theirs.  So for a caller
    with a session the exchange throws, and the caller gets no answer from
    the handler, exactly when the body is not JSON or is the JSON [null];
    the world is then as it was.  The earlier exchange route and the fetch
    of transactions answer the same two bodies with status 500. *)
Theorem exchange_reads_the_body_outside_its_try
    (cipher : Cipher) (encryptionKey : list byte) (env : Env)
    (userId : string) (request : Body) (w : World) :
  session_user env = Some userId ->
  ((exists e,
       fst (run (ExchangeToken.POST cipher encryptionKey env request) w)
       = Thrown e)
   <-> request = NotJson \/ request = Null)
  /\ (request = NotJson \/ request = Null ->
      snd (run (ExchangeToken.POST cipher encryptionKey env request) w) = w
      /\ (exists rest,
            fst (run (InsertToken.POST cipher encryptionKey env request) w)
            = Ok {| status := 500; body := success false :: rest |})
      /\ (exists rest,
            fst (run (GetTransactions.POST cipher encryptionKey env request) w)
            = Ok {| status := 500; body := success false :: rest |})).
Proof.
  intros Hu. split.
  - split.
    + intros [e He].
      destruct request as [| | |fields]; auto;
        exfalso;
        [destruct (HandlerFacts.exchange_answers_json cipher encryptionKey
                     env [] w) as [r Hr]
        |destruct (HandlerFacts.exchange_answers_json cipher encryptionKey
                     env fields w) as [r Hr]];
        unfold ExchangeToken.POST in *; rewrite Hu in *;
        cbn [request_json] in *; congruence.
    + intros [-> | ->]; unfold ExchangeToken.POST; rewrite Hu;
        unfold run, bind, request_json, throw; cbn [fst]; eauto.
  - intros [-> | ->]; (split; [|split]).
    + unfold ExchangeToken.POST. now rewrite Hu.
    + eexists. reflexivity.
    + unfold GetTransactions.POST. step_handler. rewrite Hu.
      eexists. reflexivity.
    + unfold ExchangeToken.POST. now rewrite Hu.
    + eexists. reflexivity.
    + unfold GetTransactions.POST. step_handler. rewrite Hu.
      eexists. reflexivity.
Qed.

Lemma exchange_reads_the_body_outside_its_try_witness :
  session_user (Scenario.env "u1") = Some "u1"%string
  /\ fst (run (ExchangeToken.POST Aes256Gcm.cipher Fixture.key
                 (Scenario.env "u1") Null) Scenario.empty)
     = Thrown (null_body "public_token")
  /\ exists rest,
       fst (run (GetTransactions.POST Aes256Gcm.cipher Fixture.key
                   (Scenario.env "u1") Null) Scenario.empty)
       = Ok {| status := 500; body := success false :: rest |}.
Proof.
  split; [reflexivity|]. split; [reflexivity|].
  exact (proj2 (proj2
           (proj2 (exchange_reads_the_body_outside_its_try Aes256Gcm.cipher
                     Fixture.key (Scenario.env "u1") "u1" Null
                     Scenario.empty eq_refl)
              (or_intror eq_refl)))).
Defined.

(* ------------------------------------------------------------------ *)
(** * The token exchange, in full *)
(* ------------------------------------------------------------------ *)

Module OutcomeFacts.

(** What the token exchange comes to, for every request. *)
Lemma exchange_outcomes
    (cipher : Cipher) (encryptionKey : list byte) (env : Env)
    (request : Body) (w : World) :
  let out := run (ExchangeToken.POST cipher encryptionKey env request) w in
  (exists userId fields token exchange,
      request = Object fields
      /\ session_user env = Some userId
      /\ truthy (field "public_token" fields) = Some token
      /\ itemPublicTokenExchange env token = Ok exchange
      /\ fst out
         = Ok {| status := 200;
                 body := [success true;
                          text "item_id" (exchanged_item_id exchange);
                          text "message" "Stored successfully"] |}
      /\ plaid_items (snd out)
         = Store.upsert_row (written cipher encryptionKey userId exchange w)
             (plaid_items w))
  \/ (plaid_items (snd out) = plaid_items w
      /\ forall r, fst out = Ok r -> exists rest, body r = success false :: rest).
Proof.
  intros out. subst out.
  destruct (session_user env) as [userId|] eqn:Hu;
    [|right; unfold ExchangeToken.POST; rewrite Hu; cbn;
      split; [reflexivity|intros r [= <-]; cbn; eauto]].
  destruct request as [| | |fields];
    [right; unfold ExchangeToken.POST; rewrite Hu; cbn;
     split; [reflexivity|discriminate]
    |right; unfold ExchangeToken.POST; rewrite Hu; cbn;
     split; [reflexivity|discriminate]
    |right; unfold ExchangeToken.POST; rewrite Hu; cbn;
     split; [reflexivity|intros r [= <-]; cbn; eauto]|].
  destruct (truthy (field "public_token" fields)) as [token|] eqn:Hp;
    [|right; unfold ExchangeToken.POST; rewrite Hu; cbn [request_json];
      rewrite HandlerFacts.run_bind_ret, Hp; cbn;
      split; [reflexivity|intros r [= <-]; cbn; eauto]].
  destruct (itemPublicTokenExchange env token) as [exchange|e] eqn:Hx.
  - destruct (service_role_key env) eqn:Hk.
    + destruct (store_failure env) as [dbError|] eqn:Hs.
      * right. unfold ExchangeToken.POST. rewrite Hu. step_handler.
        rewrite Hp. step_handler. rewrite Hx.
        unfold ExchangeToken.encrypt, ExchangeToken.createServiceRoleClient,
          Store.upsert.
        cbn [random].
        destruct (ExchangeTokenCodec.encrypt _ _ _ _) as [encrypted g].
        rewrite Hk, Hs. step_handler. cbn.
        split; [reflexivity|intros r [= <-]; cbn; eauto].
      * left. exists userId, fields, token, exchange.
        rewrite (POST_stores cipher encryptionKey env w userId token fields
                   exchange) by assumption.
        cbn [fst snd plaid_items]. repeat split; assumption.
    + right. unfold ExchangeToken.POST. rewrite Hu. step_handler.
      rewrite Hp. step_handler. rewrite Hx.
      unfold ExchangeToken.encrypt, ExchangeToken.createServiceRoleClient.
      cbn [random].
      destruct (ExchangeTokenCodec.encrypt _ _ _ _) as [encrypted g].
      rewrite Hk. step_handler. cbn.
      split; [reflexivity|intros r [= <-]; cbn; eauto].
  - right. unfold ExchangeToken.POST. rewrite Hu. step_handler.
    rewrite Hp. step_handler. rewrite Hx. step_handler.
    destruct (HandlerFacts.exchange_on_error_answers e
                {| plaid_items := plaid_items w; random := random w;
                   clock := clock w;
                   events := Exchanged token :: events w |}) as [r Hr].
    rewrite Hr. cbn [fst snd plaid_items].
    split; [reflexivity|]. intros r' [= <-]. revert Hr.
    unfold ExchangeToken.on_error, respond.
    destruct (response e) as [er|]; [destruct (response_data er) as [d|]|];
      try destruct (String.eqb (error_code d) "");
      intros [= <-]; cbn; eauto.
Qed.


End OutcomeFacts.

(** The token exchange writes exactly when it reports success.  Whatever
    the request and the surroundings, either the answer is the success
    answer and the table has the row of the item upserted, owned by the
    user of the session and holding the envelope of the credential the
    provider returned for the body's [public_token]; or the table is as it
    was, and the answer, if there is one, begins with [success: false]. *)
Theorem exchange_stores_exactly_when_it_succeeds
    (cipher : Cipher) (encryptionKey : list byte) (env : Env)
    (request : Body) (w : World) :
  let out := run (ExchangeToken.POST cipher encryptionKey env request) w in
  (exists userId fields token exchange,
      request = Object fields
      /\ session_user env = Some userId
      /\ truthy (field "public_token" fields) = Some token
      /\ itemPublicTokenExchange env token = Ok exchange
      /\ fst out
         = Ok {| status := 200;
                 body := [success true;
                          text "item_id" (exchanged_item_id exchange);
                          text "message" "Stored successfully"] |}
      /\ plaid_items (snd out)
         = Store.upsert_row (written cipher encryptionKey userId exchange w)
             (plaid_items w))
  \/ (plaid_items (snd out) = plaid_items w
      /\ forall r, fst out = Ok r -> exists rest, body r = success false :: rest).
Proof. apply OutcomeFacts.exchange_outcomes. Qed.

(** The token exchange reads nothing of the body but [public_token]: two
    bodies that agree on it get the same answer and leave the same world,
    so a [user_id] sent along changes nothing. *)
Theorem exchange_reads_only_the_public_token
    (cipher : Cipher) (encryptionKey : list byte) (env : Env)
    (fields fields' : list (string * string)) (w : World) :
  field "public_token" fields = field "public_token" fields' ->
  run (ExchangeToken.POST cipher encryptionKey env (Object fields)) w
  = run (ExchangeToken.POST cipher encryptionKey env (Object fields')) w.
Proof.
  intros H. unfold ExchangeToken.POST.
  destruct (session_user env); [|reflexivity].
  cbn [request_json]. rewrite !HandlerFacts.run_bind_ret. now rewrite H.
Qed.

Lemma exchange_reads_only_the_public_token_witness :
  field "public_token" [("public_token", "pub-123")]%string
  = field "public_token"
      [("user_id", "u2"); ("public_token", "pub-123")]%string
  /\ run (ExchangeToken.POST Aes256Gcm.cipher Fixture.key (Scenario.env "u1")
            (Object [("public_token", "pub-123")]%string)) Scenario.empty
     = run (ExchangeToken.POST Aes256Gcm.cipher Fixture.key
              (Scenario.env "u1")
              (Object [("user_id", "u2"); ("public_token", "pub-123")]%string))
         Scenario.empty.
Proof.
  split; [reflexivity|].
  exact (exchange_reads_only_the_public_token Aes256Gcm.cipher Fixture.key
           (Scenario.env "u1") [("public_token", "pub-123")]%string
           [("user_id", "u2"); ("public_token", "pub-123")]%string
           Scenario.empty eq_refl).
Defined.

(** Without the service role key in the configuration the exchange is
    made and the credential encrypted, and then [createServiceRoleClient]
    throws: the caller gets status 500 with its message, nothing is
    written, and the credential is lost with the request. *)
Theorem missing_service_role_key_stops_the_write
    (cipher : Cipher) (encryptionKey : list byte) (env : Env) (w : World)
    (userId token : string) (fields : list (string * string))
    (exchange : ExchangeResponse) :
  session_user env = Some userId ->
  truthy (field "public_token" fields) = Some token ->
  itemPublicTokenExchange env token = Ok exchange ->
  service_role_key env = false ->
  run (ExchangeToken.POST cipher encryptionKey env (Object fields)) w
  = (Ok {| status := 500;
           body := [success false;
                    text "message"
                      "SUPABASE_SERVICE_ROLE_KEY is not defined in environment variables."] |},
     {| plaid_items := plaid_items w;
        random := snd (ExchangeTokenCodec.encrypt cipher encryptionKey
                         (exchanged_access_token exchange) (random w));
        clock := clock w;
        events := Exchanged token :: events w |}).
Proof.
  intros Hu Hp Hx Hk. unfold ExchangeToken.POST.
  rewrite Hu. step_handler. rewrite Hp. step_handler. rewrite Hx.
  unfold ExchangeToken.encrypt, ExchangeToken.createServiceRoleClient.
  cbn [random]. destruct (ExchangeTokenCodec.encrypt _ _ _ _) as [encrypted g].
  rewrite Hk. step_handler. reflexivity.
Qed.

Lemma missing_service_role_key_stops_the_write_witness :
  service_role_key (Scenario.unconfigured "u1") = false
  /\ run (ExchangeToken.POST Aes256Gcm.cipher Fixture.key
            (Scenario.unconfigured "u1") (Scenario.link "pub-123"))
       Scenario.empty
     = (Ok {| status := 500;
              body := [success false;
                       text "message"
                         "SUPABASE_SERVICE_ROLE_KEY is not defined in environment variables."] |},
        {| plaid_items := [];
           random := snd (ExchangeTokenCodec.encrypt Aes256Gcm.cipher
                            Fixture.key (js "secret-abc") Fixture.rng);
           clock := Scenario.wall_clock;
           events := [Exchanged "pub-123"] |}).
Proof.
  split; [reflexivity|].
  exact (missing_service_role_key_stops_the_write Aes256Gcm.cipher
           Fixture.key (Scenario.unconfigured "u1") Scenario.empty
           "u1" "pub-123" [("public_token", "pub-123")]%string
           {| exchanged_access_token := js "secret-abc";
              exchanged_item_id := "item-1" |}
           eq_refl eq_refl eq_refl eq_refl).
Defined.

(** The earlier exchange route stores the row for the user the body
    names, whoever the caller is: it never looks at the session.  It
    inserts: when the item has no row yet the row is added after the
    others; when it has one, the insert fails, the caller gets status 500
    with ["Database error storing token."] and the table is as it was. *)
Theorem earlier_exchange_takes_the_owner_from_the_body
    (cipher : Cipher) (encryptionKey : list byte) (env : Env) (w : World)
    (token user : string) (fields : list (string * string))
    (exchange : ExchangeResponse) :
  truthy (field "public_token" fields) = Some token ->
  truthy (field "user_id" fields) = Some user ->
  itemPublicTokenExchange env token = Ok exchange ->
  store_failure env = None ->
  let out := run (InsertToken.POST cipher encryptionKey env (Object fields)) w in
  let row :=
    {| user_id := user;
       item_id := exchanged_item_id exchange;
       access_token :=
         fst (InsertTokenCodec.encrypt cipher encryptionKey
                (exchanged_access_token exchange) (random w));
       created_at := instant_at (clock w) (readings (clock w)) |} in
  if existsb (Store.eq_item_id (exchanged_item_id exchange)) (plaid_items w)
  then
    fst out
    = Ok {| status := 500;
            body := [success false;
                     text "message" "Database error storing token."] |}
    /\ plaid_items (snd out) = plaid_items w
  else
    fst out
    = Ok {| status := 200;
            body := [success true;
                     text "message"
                       "Token exchanged and stored successfully"] |}
    /\ plaid_items (snd out) = plaid_items w ++ [row].
Proof.
  intros Hp Hu Hx Hs out row. subst out row.
  unfold InsertToken.POST. step_handler. rewrite Hp, Hu. step_handler.
  rewrite Hx. unfold InsertToken.encrypt, Store.insert. cbn [random].
  destruct (InsertTokenCodec.encrypt _ _ _ _) as [encrypted g].
  rewrite Hs. step_handler. cbn [plaid_items fst].
  destruct (existsb _ (plaid_items w)); cbn [fst snd].
  - split; reflexivity.
  - split; reflexivity.
Qed.

Lemma earlier_exchange_takes_the_owner_from_the_body_witness :
  auth_user (Scenario.env "u1") = Some "u1"%string
  /\ map user_id
       (plaid_items
          (snd (run (InsertToken.POST Aes256Gcm.cipher Fixture.key
                       (Scenario.env "u1")
                       (Object [("public_token", "pub-123");
                                ("user_id", "u2")]%string))
                  Scenario.empty)))
     = ["u2"%string].
Proof.
  split; [reflexivity|].
  exact (f_equal (map user_id)
           (proj2
              (earlier_exchange_takes_the_owner_from_the_body
                 Aes256Gcm.cipher Fixture.key (Scenario.env "u1")
                 Scenario.empty "pub-123" "u2"
                 [("public_token", "pub-123"); ("user_id", "u2")]%string
                 {| exchanged_access_token := js "secret-abc";
                    exchanged_item_id := "item-1" |}
                 eq_refl eq_refl eq_refl eq_refl))).
Defined.

(* ------------------------------------------------------------------ *)
(** * The fetch of transactions: its other answers *)
(* ------------------------------------------------------------------ *)

(** When the provider refuses the fetch, the caller gets the provider's
    status and, as [details], the provider's error message alone (or
    ["Unknown Plaid error"]): the error code and the rest of the provider's
    answer are not passed on, unlike in the token exchange. *)
Theorem fetch_refusal_passes_the_message_alone
    (cipher : Cipher) (encryptionKey : list byte)
    (env : Env) (w : World) (userId itemId : string)
    (fields : list (string * string)) (c : N) (rest accessToken : jsstring)
    (e : JsError) (r : ErrorResponse) (d : PlaidErrorData) :
  session_user env = Some userId ->
  store_failure env = None ->
  truthy (field "item_id" fields) = Some itemId ->
  owned userId itemId w = [c :: rest] ->
  GetTransactionsCodec.decrypt cipher encryptionKey (c :: rest)
  = Ok accessToken ->
  transactionsGet env
    {| request_access_token := accessToken;
       start_date :=
         format_date env
           (subtract_days env 30
              (Z.of_N (instant_at (clock w) (readings (clock w)))));
       end_date :=
         format_date env
           (Z.of_N (instant_at (clock w) (S (readings (clock w)))));
       count := 500;
       offset := 0 |}
  = Thrown e ->
  response e = Some r ->
  response_data r = Some d ->
  fst (run (GetTransactions.POST cipher encryptionKey env (Object fields)) w)
  = Ok {| status := match response_status r with
                    | Some n => n
                    | None => 500
                    end;
          body := [success false; text "message" "Plaid API error";
                   text "details"
                     (or_else (error_message d) "Unknown Plaid error")] |}.
Proof.
  intros Hu Hs Hi Hrows Hdec Hget Hr Hd. unfold GetTransactions.POST.
  step_handler. rewrite Hu. step_handler. rewrite Hi. step_handler.
  rewrite Hs. unfold owned in Hrows. rewrite Hrows.
  cbn [Store.single]. unfold GetTransactions.decrypt. step_handler.
  rewrite Hdec. cbn [clock readings instant_at]. rewrite Hget.
  unfold GetTransactions.on_error. rewrite Hr, Hd. reflexivity.
Qed.

Lemma fetch_refusal_passes_the_message_alone_witness :
  fst (run (GetTransactions.POST Aes256Gcm.cipher Fixture.key
              (Scenario.revoked "u1") (Scenario.fetch "item-1"))
         Scenario.linked)
  = Ok {| status := 400;
          body := [success false; text "message" "Plaid API error";
                   text "details" "could not find matching access token"] |}.
Proof.
  assert (owned "u1" "item-1" Scenario.linked
          = [97 :: js "0a1a2a3a4a5a6a7a8a9aaabacadaeafb99e58ec098df330fb576ee1c2147cbb59c640ce7db9e017a1fd"])
    as Hrow by (vm_compute; reflexivity).
  assert (GetTransactionsCodec.decrypt Aes256Gcm.cipher Fixture.key
            (97 :: js "0a1a2a3a4a5a6a7a8a9aaabacadaeafb99e58ec098df330fb576ee1c2147cbb59c640ce7db9e017a1fd")
          = Ok (js "secret-abc"))
    as Hdec by (vm_compute; reflexivity).
  exact (fetch_refusal_passes_the_message_alone Aes256Gcm.cipher Fixture.key
           (Scenario.revoked "u1") Scenario.linked "u1" "item-1"
           [("item_id", "item-1")]%string 97 _ _
           Scenario.invalid_access_token _ _
           eq_refl eq_refl eq_refl Hrow Hdec eq_refl eq_refl eq_refl).
Defined.

(* ------------------------------------------------------------------ *)
(** * The caller's latest item *)
(* ------------------------------------------------------------------ *)

Module LatestFacts.

(** Of rows ordered by [created_at], newest first, the first is as new as
    any. *)
Lemma newest_first (rows : list Row) (r : Row) :
  In r rows ->
  exists newest rest,
    Store.order_created_at_desc rows = newest :: rest
    /\ In newest rows
    /\ forall r', In r' rows -> created_at r' <= created_at newest.
Proof.
  intros Hr. unfold Store.order_created_at_desc.
  pose proof (SortFacts.sort_by_permutation newer rows) as Hperm.
  assert (Sorted (fun a b => newer a b = true) (Store.sort_by newer rows))
    as Hsorted.
  { apply SortFacts.sort_by_sorted. unfold newer. intros a b H.
    apply N.leb_gt in H. apply N.leb_le. lia. }
  apply Sorted_StronglySorted in Hsorted;
    [|unfold newer; intros a b c Hab Hbc;
      apply N.leb_le in Hab, Hbc; apply N.leb_le; lia].
  fold newer.
  destruct (Store.sort_by newer rows) as [|newest rest] eqn:E.
  - apply Permutation_nil in Hperm. subst rows. elim Hr.
  - exists newest, rest. split; [reflexivity|]. split.
    + apply (Permutation_in _ Hperm). now left.
    + intros r' Hr'. apply (Permutation_in _ (Permutation_sym Hperm)) in Hr'.
      destruct Hr' as [<-|Hin]; [lia|].
      apply StronglySorted_inv in Hsorted. destruct Hsorted as [_ Hall].
      rewrite Forall_forall in Hall. specialize (Hall r' Hin).
      unfold newer in Hall. now apply N.leb_le in Hall.
Qed.

(** The same for the rows of one user. *)
Lemma newest_of_user (userId : string) (rows : list Row) (r : Row) :
  In r rows -> user_id r = userId ->
  exists newest rest,
    Store.order_created_at_desc (filter (Store.eq_user_id userId) rows)
    = newest :: rest
    /\ In newest rows
    /\ user_id newest = userId
    /\ forall r', In r' rows -> user_id r' = userId ->
                  created_at r' <= created_at newest.
Proof.
  intros Hr Hu.
  assert (In r (filter (Store.eq_user_id userId) rows)) as Hin.
  { apply filter_In. split; [exact Hr|].
    unfold Store.eq_user_id. now apply String.eqb_eq. }
  destruct (newest_first _ r Hin) as (newest & rest & E & Hn & Hmax).
  apply filter_In in Hn. destruct Hn as [Hn Hnu].
  unfold Store.eq_user_id in Hnu. apply String.eqb_eq in Hnu.
  exists newest, rest. repeat split; try assumption.
  intros r' Hr' Hu'. apply Hmax, filter_In. split; [exact Hr'|].
  unfold Store.eq_user_id. now apply String.eqb_eq.
Qed.

End LatestFacts.

(** For a caller who has a row, [GET /api/user/plaid-items] answers with
    the item of a row of the caller that no other row of the caller is
    newer than. *)
Theorem latest_item_is_the_newest_row
    (env : Env) (w : World) (userId : string) (r : Row) :
  session_user env = Some userId ->
  store_failure env = None ->
  In r (plaid_items w) ->
  user_id r = userId ->
  exists newest,
    In newest (plaid_items w)
    /\ user_id newest = userId
    /\ (forall r', In r' (plaid_items w) -> user_id r' = userId ->
                   created_at r' <= created_at newest)
    /\ run (PlaidItems.GET env) w
       = (Ok {| status := 200;
                body := [success true;
                         ("item_id"%string, JString (item_id newest))] |},
          w).
Proof.
  intros Hs Hf Hr Hu.
  destruct (LatestFacts.newest_of_user userId (plaid_items w) r Hr Hu)
    as (newest & rest & E & Hn & Hnu & Hmax).
  exists newest. repeat split; try assumption.
  unfold PlaidItems.GET. step_handler. rewrite Hs. step_handler.
  rewrite Hf, E. reflexivity.
Qed.

Lemma latest_item_is_the_newest_row_witness :
  exists newest,
    In newest (plaid_items Scenario.linked)
    /\ user_id newest = "u1"%string
    /\ (forall r', In r' (plaid_items Scenario.linked) ->
                   user_id r' = "u1"%string ->
                   created_at r' <= created_at newest)
    /\ run (PlaidItems.GET (Scenario.env "u1")) Scenario.linked
       = (Ok {| status := 200;
                body := [success true;
                         ("item_id"%string, JString (item_id newest))] |},
          Scenario.linked).
Proof.
  assert (In {| user_id := "u1"; item_id := "item-1";
                access_token := js "a0a1a2a3a4a5a6a7a8a9aaabacadaeafb99e58ec098df330fb576ee1c2147cbb59c640ce7db9e017a1fd";
                created_at := 1762128000000 |}
            (plaid_items Scenario.linked)) as Hin
      by (vm_compute; left; reflexivity).
  exact (latest_item_is_the_newest_row (Scenario.env "u1") Scenario.linked
           "u1" _ eq_refl eq_refl Hin eq_refl).
Defined.

(** For a caller who has a row, [GET /api/plaid/get-transactions] asks for
    the transactions of the item of the caller's newest row, and of no
    other: it answers with them as the runtime's sort returns them for the
    comparison by date, with 404 when there are none to return, and with
    status 500 and the message of what the fetch threw. *)
Theorem get_fetches_for_the_newest_item
    (env : Env) (w : World) (userId : string) (r : Row) :
  auth_user env = Some userId ->
  store_failure env = None ->
  In r (plaid_items w) ->
  user_id r = userId ->
  exists newest,
    In newest (plaid_items w)
    /\ user_id newest = userId
    /\ (forall r', In r' (plaid_items w) -> user_id r' = userId ->
                   created_at r' <= created_at newest)
    /\ (item_id newest <> ""%string ->
        run (GetTransactions.GET env) w
        = (match fetchPlaidTransactions env userId (item_id newest) with
           | Ok (Some fetched) =>
               Ok {| status := 200;
                     body := [success true;
                              ("transactions"%string,
                               JTransactions
                                 (GetTransactions.sort env fetched))] |}
           | Ok None =>
               Ok {| status := 404;
                     body := [success false;
                              text "message" "No transactions found"] |}
           | Thrown e =>
               Ok {| status := 500;
                     body := [success false; text "message" (message e)] |}
           end, w)).
Proof.
  intros Hs Hf Hr Hu.
  destruct (LatestFacts.newest_of_user userId (plaid_items w) r Hr Hu)
    as (newest & rest & E & Hn & Hnu & Hmax).
  exists newest. repeat split; try assumption.
  intros Hitem. unfold GetTransactions.GET. step_handler. rewrite Hs.
  step_handler. rewrite Hf, E.
  cbn [Store.limit firstn map Store.maybeSingle]. unfold truthy.
  destruct (String.eqb_spec (item_id newest) ""); [contradiction|].
  destruct (fetchPlaidTransactions env userId (item_id newest))
    as [[fetched|]|e]; reflexivity.
Qed.

Lemma get_fetches_for_the_newest_item_witness :
  exists newest,
    In newest (plaid_items Scenario.linked)
    /\ user_id newest = "u1"%string
    /\ (forall r', In r' (plaid_items Scenario.linked) ->
                   user_id r' = "u1"%string ->
                   created_at r' <= created_at newest)
    /\ (item_id newest <> ""%string ->
        run (GetTransactions.GET (Scenario.env "u1")) Scenario.linked
        = (match fetchPlaidTransactions (Scenario.env "u1") "u1"
                   (item_id newest) with
           | Ok (Some fetched) =>
               Ok {| status := 200;
                     body := [success true;
                              ("transactions"%string,
                               JTransactions
                                 (GetTransactions.sort (Scenario.env "u1")
                                    fetched))] |}
           | Ok None =>
               Ok {| status := 404;
                     body := [success false;
                              text "message" "No transactions found"] |}
           | Thrown e =>
               Ok {| status := 500;
                     body := [success false; text "message" (message e)] |}
           end, Scenario.linked)).
Proof.
  assert (In {| user_id := "u1"; item_id := "item-1";
                access_token := js "a0a1a2a3a4a5a6a7a8a9aaabacadaeafb99e58ec098df330fb576ee1c2147cbb59c640ce7db9e017a1fd";
                created_at := 1762128000000 |}
            (plaid_items Scenario.linked)) as Hin
      by (vm_compute; left; reflexivity).
  exact (get_fetches_for_the_newest_item (Scenario.env "u1") Scenario.linked
           "u1" _ eq_refl eq_refl Hin eq_refl).
Defined.

(** For a caller without a row, the two routes that need an item -- [GET
    /api/plaid/get-transactions] and the refresh -- answer 404 ["No Plaid
    account connected"], where [GET /api/user/plaid-items] answers 200;
    when the store fails they answer 500 ["Error fetching Plaid
    connection"] and keep the store's message to themselves.  Neither the
    fetch nor the provider is asked anything. *)
Theorem no_connection_is_not_found
    (env : Env) (client : ItemApi) (w : World) (userId : string) :
  auth_user env = Some userId ->
  (store_failure env = None ->
   filter (Store.eq_user_id userId) (plaid_items w) = [] ->
   let not_found :=
     (Ok {| status := 404;
            body := [success false;
                     text "message" "No Plaid account connected"] |}, w) in
   run (GetTransactions.GET env) w = not_found
   /\ run (RefreshTransactions.POST env client) w = not_found)
  /\ (store_failure env <> None ->
      let failed :=
        (Ok {| status := 500;
               body := [success false;
                        text "message"
                          "Error fetching Plaid connection"] |}, w) in
      run (GetTransactions.GET env) w = failed
      /\ run (RefreshTransactions.POST env client) w = failed).
Proof.
  intros Hu. split.
  - intros Hf Hrows not_found. subst not_found.
    unfold GetTransactions.GET, RefreshTransactions.POST. step_handler.
    rewrite Hu. step_handler. rewrite Hf, Hrows. split; reflexivity.
  - intros Hf failed. subst failed.
    unfold GetTransactions.GET, RefreshTransactions.POST. step_handler.
    rewrite Hu. step_handler.
    destruct (store_failure env); [split; reflexivity|now elim Hf].
Qed.

Lemma no_connection_is_not_found_witness :
  auth_user (Scenario.env "u2") = Some "u2"%string
  /\ store_failure (Scenario.env "u2") = None
  /\ filter (Store.eq_user_id "u2") (plaid_items Scenario.linked) = []
  /\ run (RefreshTransactions.POST (Scenario.env "u2") Scenario.item_api)
       Scenario.linked
     = (Ok {| status := 404;
              body := [success false;
                       text "message" "No Plaid account connected"] |},
        Scenario.linked).
Proof.
  assert (filter (Store.eq_user_id "u2") (plaid_items Scenario.linked) = [])
    as H by (vm_compute; reflexivity).
  split; [reflexivity|]. split; [reflexivity|]. split; [exact H|].
  exact (proj2 (proj1 (no_connection_is_not_found (Scenario.env "u2")
                         Scenario.item_api Scenario.linked "u2" eq_refl)
                  eq_refl H)).
Defined.

(* ------------------------------------------------------------------ *)
(** * The refresh, the link token, the callback, the module guards *)
(* ------------------------------------------------------------------ *)

(** The refresh hands the provider the text of the column [access_token]
    of the caller's newest row exactly as it is stored -- the envelope,
    which it never decrypts -- in both of its calls; the second call is
    made only when the first returned, and whatever a call throws becomes
    status 500 with its message. *)
Theorem refresh_sends_the_stored_text
    (env : Env) (client : ItemApi) (w : World) (userId : string) (r : Row) :
  auth_user env = Some userId ->
  store_failure env = None ->
  In r (plaid_items w) ->
  user_id r = userId ->
  exists newest,
    In newest (plaid_items w)
    /\ user_id newest = userId
    /\ (forall r', In r' (plaid_items w) -> user_id r' = userId ->
                   created_at r' <= created_at newest)
    /\ (item_id newest <> ""%string ->
        access_token newest <> [] ->
        let later :=
          {| plaid_items := plaid_items w; random := random w;
             clock := {| instant_at := instant_at (clock w);
                         readings := S (S (readings (clock w))) |};
             events := events w |} in
        run (RefreshTransactions.POST env client) w
        = match itemGet client (access_token newest) with
          | Thrown e =>
              (Ok {| status := 500;
                     body := [success false; text "message" (message e)] |},
               w)
          | Ok _ =>
              match transactionsSync client (access_token newest)
                      "latest" with
              | Thrown e =>
                  (Ok {| status := 500;
                         body := [success false;
                                  text "message" (message e)] |}, later)
              | Ok _ =>
                  (Ok {| status := 200;
                         body := [success true;
                                  text "message"
                                    "Transactions synced successfully"] |},
                   later)
              end
          end).
Proof.
  intros Hs Hf Hr Hu.
  destruct (LatestFacts.newest_of_user userId (plaid_items w) r Hr Hu)
    as (newest & rest & E & Hn & Hnu & Hmax).
  exists newest. repeat split; try assumption.
  intros Hitem Htoken later. subst later.
  unfold RefreshTransactions.POST. step_handler. rewrite Hs.
  step_handler. rewrite Hf, E.
  cbn [Store.limit firstn map Store.maybeSingle].
  destruct (access_token newest) as [|c rest']; [contradiction|].
  destruct (String.eqb_spec (item_id newest) ""); [contradiction|].
  destruct (itemGet client (c :: rest')) as [[]|e]; [|reflexivity].
  cbn [clock readings instant_at].
  destruct (transactionsSync client (c :: rest') "latest") as [[]|e];
    reflexivity.
Qed.

Lemma refresh_sends_the_stored_text_witness :
  map access_token (plaid_items Scenario.linked)
  = [js "a0a1a2a3a4a5a6a7a8a9aaabacadaeafb99e58ec098df330fb576ee1c2147cbb59c640ce7db9e017a1fd"]
  /\ exists newest,
       In newest (plaid_items Scenario.linked)
       /\ user_id newest = "u1"%string
       /\ (forall r', In r' (plaid_items Scenario.linked) ->
                      user_id r' = "u1"%string ->
                      created_at r' <= created_at newest)
       /\ (item_id newest <> ""%string ->
           access_token newest <> [] ->
           let later :=
             {| plaid_items := plaid_items Scenario.linked;
                random := random Scenario.linked;
                clock := {| instant_at := instant_at (clock Scenario.linked);
                            readings :=
                              S (S (readings (clock Scenario.linked))) |};
                events := events Scenario.linked |} in
           run (RefreshTransactions.POST (Scenario.env "u1")
                  Scenario.item_api) Scenario.linked
           = match itemGet Scenario.item_api (access_token newest) with
             | Thrown e =>
                 (Ok {| status := 500;
                        body := [success false;
                                 text "message" (message e)] |},
                  Scenario.linked)
             | Ok _ =>
                 match transactionsSync Scenario.item_api
                         (access_token newest) "latest" with
                 | Thrown e =>
                     (Ok {| status := 500;
                            body := [success false;
                                     text "message" (message e)] |}, later)
                 | Ok _ =>
                     (Ok {| status := 200;
                            body := [success true;
                                     text "message"
                                       "Transactions synced successfully"] |},
                      later)
                 end
             end).
Proof.
  assert (In {| user_id := "u1"; item_id := "item-1";
                access_token := js "a0a1a2a3a4a5a6a7a8a9aaabacadaeafb99e58ec098df330fb576ee1c2147cbb59c640ce7db9e017a1fd";
                created_at := 1762128000000 |}
            (plaid_items Scenario.linked)) as Hin
      by (vm_compute; left; reflexivity).
  split; [vm_compute; reflexivity|].
  exact (refresh_sends_the_stored_text (Scenario.env "u1")
           Scenario.item_api Scenario.linked "u1" _
           eq_refl eq_refl Hin eq_refl).
Defined.

(** The scenario, run: the provider that knows the credential
    ["secret-abc"] is asked with the stored envelope and refuses it. *)
Example refresh_of_a_linked_item :
  fst (run (RefreshTransactions.POST (Scenario.env "u1") Scenario.item_api)
         Scenario.linked)
  = Ok {| status := 500;
          body := [success false;
                   text "message" "Request failed with status code 400"] |}.
Proof. vm_compute. reflexivity. Qed.

(** The link token is asked for the user of the session, for the products
    [auth] and [transactions], the country [US] and the language [en]; the
    caller gets the provider's [link_token] and nothing else of its
    answer, and nothing of the world changes. *)
Theorem link_token_is_for_the_session_user
    (env : Env)
    (linkTokenCreate : LinkTokenCreateRequest -> result LinkTokenCreateResponse)
    (w : World) (userId : string) (created : LinkTokenCreateResponse) :
  session_user env = Some userId ->
  linkTokenCreate
    {| client_user_id := userId;
       client_name := "Cash Cushion App";
       products := [Auth; Transactions];
       country_codes := [Us];
       language := "en" |}
  = Ok created ->
  run (CreateLinkToken.POST env linkTokenCreate) w
  = (Ok {| status := 200;
           body := [success true;
                    text "link_token" (link_token created)] |}, w).
Proof.
  intros Hu Hc. unfold CreateLinkToken.POST. step_handler.
  rewrite Hu. step_handler. now rewrite Hc.
Qed.

Lemma link_token_is_for_the_session_user_witness :
  run (CreateLinkToken.POST (Scenario.env "u1") Scenario.link_tokens)
    Scenario.empty
  = (Ok {| status := 200;
           body := [success true;
                    text "link_token" "link-sandbox-u1"] |},
     Scenario.empty).
Proof.
  exact (link_token_is_for_the_session_user (Scenario.env "u1")
           Scenario.link_tokens Scenario.empty "u1" _ eq_refl eq_refl).
Defined.

(** Wherever the sign-in callback sends the browser, it is a path of the
    application's own origin: the target is the origin followed by a path
    that begins with ["/"], whatever [code] and [next] the URL carries.
    And any target other than the error page is reached only after the
    identity provider has taken a code that is there and not empty. *)
Theorem callback_redirects_within_the_origin
    (origin : jsstring) (code next : option jsstring)
    (exchangeCodeForSession : jsstring -> option string) :
  (exists path,
      AuthCallback.GET origin code next exchangeCodeForSession
      = origin ++ 47 :: path)
  /\ (AuthCallback.GET origin code next exchangeCodeForSession
      <> origin ++ js "/auth/auth-code-error" ->
      exists c rest,
        code = Some (c :: rest)
        /\ exchangeCodeForSession (c :: rest) = None).
Proof.
  unfold AuthCallback.GET.
  destruct code as [[|c rest]|].
  - split; [now eexists|intros H; now elim H].
  - destruct (exchangeCodeForSession (c :: rest)) as [error|] eqn:E.
    + split; [now eexists|intros H; now elim H].
    + split; [|intros _; now exists c, rest].
      destruct next as [[|n next]|]; cbn [AuthCallback.startsWith_slash].
      * now eexists.
      * destruct (N.eqb_spec n 47) as [->|]; now eexists.
      * now eexists.
  - split; [now eexists|intros H; now elim H].
Qed.

(** The path the callback takes from [next]: [next] itself when it begins
    with ["/"], with a ["/"] put before it when it does not, and ["/"] when
    the URL has no [next]. *)
Example callback_paths :
  AuthCallback.GET (js "https://app.example") (Some (js "code-1"))
    (Some (js "/dashboard")) Scenario.exchange_code
  = js "https://app.example/dashboard"
  /\ AuthCallback.GET (js "https://app.example") (Some (js "code-1"))
       (Some (js "dashboard")) Scenario.exchange_code
     = js "https://app.example/dashboard"
  /\ AuthCallback.GET (js "https://app.example") (Some (js "code-1"))
       (Some (js "//other.example")) Scenario.exchange_code
     = js "https://app.example//other.example"
  /\ AuthCallback.GET (js "https://app.example") (Some (js "code-1"))
       None Scenario.exchange_code
     = js "https://app.example/"
  /\ AuthCallback.GET (js "https://app.example") (Some (js "code-2"))
       (Some (js "/dashboard")) Scenario.exchange_code
     = js "https://app.example/auth/auth-code-error"
  /\ AuthCallback.GET (js "https://app.example") (Some [])
       (Some (js "/dashboard")) Scenario.exchange_code
     = js "https://app.example/auth/auth-code-error".
Proof. vm_compute. repeat split; reflexivity. Qed.

(** A module that holds the key and its own store client loads only when
    the key has 32 bytes, both settings of the store are there and not
    empty, and [createClient] takes them.  The key is checked first: with
    a key of another length the key guard's error is thrown whatever the
    settings are. *)
Theorem server_module_guards
    (base64 : jsstring -> list byte)
    (createClient : string -> string -> option JsError)
    (key : jsstring) (url role : option string) :
  (List.length (base64 key) <> 32%nat ->
   ServerModule.load base64 createClient (Some key) url role
   = Thrown (new_Error GetTransactionsCodec.guard_message))
  /\ (List.length (base64 key) = 32%nat ->
      truthy url = None \/ truthy role = None ->
      ServerModule.load base64 createClient (Some key) url role
      = Thrown (new_Error ServerModule.settings_message))
  /\ (forall supabaseUrl supabaseServiceRoleKey,
        List.length (base64 key) = 32%nat ->
        truthy url = Some supabaseUrl ->
        truthy role = Some supabaseServiceRoleKey ->
        ServerModule.load base64 createClient (Some key) url role
        = match createClient supabaseUrl supabaseServiceRoleKey with
          | Some e => Thrown e
          | None => Ok (base64 key)
          end).
Proof.
  unfold ServerModule.load, load_encryptionKey.
  destruct (Nat.eqb_spec (List.length (base64 key)) 32) as [E|E].
  - split; [intros H; contradiction|]. split.
    + intros _ [H|H]; rewrite H; [reflexivity|].
      now destruct (truthy url).
    + intros u r _ Hu Hr. now rewrite Hu, Hr.
  - split; [reflexivity|]. split; intros; contradiction.
Qed.

(* ------------------------------------------------------------------ *)
(** * The pages and the routes they call *)
(* ------------------------------------------------------------------ *)

Module PageFacts.

Lemma truthy_not_empty (v : option string) (s : string) :
  truthy v = Some s -> s <> ""%string.
Proof.
  unfold truthy. destruct v as [t|]; [|discriminate].
  destruct (String.eqb_spec t ""); [discriminate|]. now intros [= <-].
Qed.

Lemma truthy_some (s : string) : s <> ""%string -> truthy (Some s) = Some s.
Proof.
  intros H. unfold truthy. now destruct (String.eqb_spec s "").
Qed.

Lemma includes_not_empty (c : ascii) (needle s : string) :
  includes (String c needle) s = true -> s <> ""%string.
Proof. intros H ->. discriminate. Qed.

(** The [catch] clause of the fetch answers with a failure and a message
    that is not empty. *)
Lemma fetch_on_error_outcomes (e : JsError) (w : World) :
  exists code m rest,
    GetTransactions.on_error e w
    = (Answer {| status := code;
                 body := success false :: text "message" m :: rest |}, w)
    /\ m <> ""%string.
Proof.
  unfold GetTransactions.on_error, respond. cbv zeta.
  destruct (response e) as [r|]; [destruct (response_data r) as [d|]|];
    try (do 3 eexists; split; [reflexivity|discriminate]);
    destruct (includes "Database error" (message e)) eqn:E;
    do 3 eexists;
    (split; [reflexivity|]);
    try discriminate; now apply includes_not_empty in E.
Qed.

(** What the fetch of transactions comes to, for every request: the
    provider's data under [success: true], or a failure with a message. *)
Lemma fetch_outcomes
    (cipher : Cipher) (encryptionKey : list byte) (env : Env)
    (request : Body) (w : World) :
  let answer :=
    fst (run (GetTransactions.POST cipher encryptionKey env request) w) in
  (exists data,
      answer
      = Ok {| status := 200;
              body := [success true;
                       ("transactions"%string,
                        JTransactions (transactions data));
                       ("accounts"%string, JAccounts (accounts data));
                       ("item"%string, JItem (item data))] |})
  \/ (exists code m rest,
        answer
        = Ok {| status := code;
                body := success false :: text "message" m :: rest |}
        /\ m <> ""%string).
Proof.
  intros answer. subst answer.
  assert (forall e w1,
            exists code m rest,
              fst (let (o, w') := GetTransactions.on_error e w1 in
                   match o with
                   | Value r0 | Answer r0 => (Ok r0, w')
                   | Raise e0 => (Thrown e0, w')
                   end)
              = Ok {| status := code;
                      body := success false :: text "message" m :: rest |}
              /\ m <> ""%string) as Hcatch.
  { intros e w1.
    destruct (fetch_on_error_outcomes e w1) as (code & m & rest & -> & Hm).
    now exists code, m, rest. }
  unfold GetTransactions.POST. step_handler.
  destruct (session_user env) as [userId|];
    [|right; do 3 eexists; split; [reflexivity|discriminate]].
  destruct request as [| | |fields]; step_handler;
    [right; apply Hcatch|right; apply Hcatch
    |right; do 3 eexists; split; [reflexivity|discriminate]|].
  destruct (truthy (field "item_id" fields)) as [itemId|];
    [|right; do 3 eexists; split; [reflexivity|discriminate]].
  step_handler.
  destruct (store_failure env) as [dbError|]; [right; apply Hcatch|].
  destruct (Store.single _) as [[[|c rest]|] [dbError|]];
    try (right; apply Hcatch);
    try (right; do 3 eexists; split; [reflexivity|discriminate]).
  unfold GetTransactions.decrypt. step_handler.
  destruct (GetTransactionsCodec.decrypt _ _ _) as [accessToken|e];
    [|right; do 3 eexists; split; [reflexivity|discriminate]].
  cbn [clock readings instant_at].
  match goal with
  | |- context [transactionsGet env ?r] =>
      destruct (transactionsGet env r) as [data|e]
  end.
  - left. now exists data.
  - right. apply Hcatch.
Qed.

End PageFacts.

(** The name [TransactionList] shows for an account is never blank: the
    account's name when an account with that identifier is known and has
    one, the identifier itself when it does not or when no such account is
    known, and ["N/A"] for a transaction without an account. *)
Theorem account_name_is_never_blank
    (accounts : list Account) (accountId : option string) :
  Client.getAccountName accounts accountId <> ""%string
  /\ (truthy accountId = None ->
      Client.getAccountName accounts accountId = "N/A"%string)
  /\ (forall id,
        truthy accountId = Some id ->
        ~ In id (map account_account_id accounts) ->
        Client.getAccountName accounts accountId = id).
Proof.
  unfold Client.getAccountName.
  destruct (truthy accountId) as [id|] eqn:E.
  - pose proof (PageFacts.truthy_not_empty _ _ E) as Hid.
    split; [|split; [discriminate|]].
    + destruct (find _ accounts) as [account|]; [|exact Hid].
      unfold or_else.
      destruct (String.eqb_spec (account_name account) "");
        [exact Hid|assumption].
    + intros id' [= <-] Hnone.
      destruct (find _ accounts) as [account|] eqn:F; [|reflexivity].
      apply find_some in F. destruct F as [Hin Heq].
      apply String.eqb_eq in Heq. exfalso. apply Hnone.
      rewrite <- Heq. now apply in_map.
  - split; [discriminate|]. split; [reflexivity|discriminate].
Qed.

(** The connector and the token exchange, put together: when the page
    sends a public token, it calls [onConnectionSuccess] with the item and
    shows its success exactly when the route has stored the row of that
    item; in every other case it calls nothing, shows an error, and the
    table is as it was.  Either way it stops showing that it is at
    work. *)
Theorem page_reports_success_exactly_when_the_row_is_stored
    (cipher : Cipher) (encryptionKey : list byte) (env : Env) (w : World)
    (user publicToken : string) (s : Client.Connector) :
  (forall token exchange,
      itemPublicTokenExchange env token = Ok exchange ->
      exchanged_item_id exchange <> ""%string) ->
  let route (request : Body) :=
    run (ExchangeToken.POST cipher encryptionKey env request) w in
  let fetch : Client.Fetch :=
    fun url body =>
      fst (route (match body with Some request => request | None => NotJson end)) in
  let sent := Object [("public_token"%string, publicToken)] in
  let page := Client.handleSuccess (Some user) fetch publicToken s in
  Client.exchangeLoading (fst page) = false
  /\ ((exists userId exchange,
          session_user env = Some userId
          /\ itemPublicTokenExchange env publicToken = Ok exchange
          /\ plaid_items (snd (route sent))
             = Store.upsert_row
                 (written cipher encryptionKey userId exchange w)
                 (plaid_items w)
          /\ snd page = [JString (exchanged_item_id exchange)]
          /\ Client.exchangeSuccess (fst page) = true
          /\ Client.apiError (fst page) = None)
      \/ (plaid_items (snd (route sent)) = plaid_items w
          /\ snd page = []
          /\ Client.exchangeSuccess (fst page) = false
          /\ Client.apiError (fst page) <> None)).
Proof.
  intros Hitem route fetch sent page. subst page fetch sent route.
  unfold Client.handleSuccess. cbv beta iota.
  destruct (OutcomeFacts.exchange_outcomes cipher encryptionKey env
              (Object [("public_token"%string, publicToken)]) w)
    as [(userId & fields & token & exchange & Hf & Hu & Hp & Hx & Hr & Hw)
       |[Hw Hr]].
  - injection Hf as <-. rewrite Hr.
    assert (token = publicToken) as ->.
    { revert Hp. cbn [field]. rewrite String.eqb_refl. unfold truthy.
      destruct (String.eqb publicToken ""); [discriminate|].
      now intros [= <-]. }
    pose proof (Hitem _ _ Hx) as Hne.
    cbn [body status Client.ok Client.get success text].
    cbn [String.eqb Ascii.eqb Bool.eqb andb orb negb Client.truthy_value
         fst snd].
    destruct (String.eqb_spec (exchanged_item_id exchange) "");
      [contradiction|].
    cbn [negb orb fst snd Client.exchangeLoading Client.exchangeSuccess
         Client.apiError].
    split; [reflexivity|]. left. exists userId, exchange.
    repeat split; assumption.
  - destruct (fst (run (ExchangeToken.POST cipher encryptionKey env
                          (Object [("public_token"%string, publicToken)])) w))
      as [r|e] eqn:E.
    + destruct (Hr r eq_refl) as [rest Hbody]. rewrite Hbody.
      cbn [Client.get success]. cbn [String.eqb Ascii.eqb Bool.eqb].
      cbn [Client.truthy_value negb orb].
      rewrite orb_true_r. cbn [orb fst snd Client.exchangeLoading
        Client.exchangeSuccess Client.apiError].
      split; [reflexivity|]. right. repeat split; try assumption.
      discriminate.
    + cbn [fst snd Client.exchangeLoading Client.exchangeSuccess
           Client.apiError].
      split; [reflexivity|]. right. repeat split; try assumption.
      discriminate.
Qed.

Lemma page_reports_success_exactly_when_the_row_is_stored_witness :
  (forall token exchange,
      itemPublicTokenExchange (Scenario.env "u1") token = Ok exchange ->
      exchanged_item_id exchange <> ""%string)
  /\ Client.exchangeLoading
       (fst (Client.handleSuccess (Some "u1"%string)
               (fun url body =>
                  fst (run (ExchangeToken.POST Aes256Gcm.cipher Fixture.key
                              (Scenario.env "u1")
                              (match body with
                               | Some request => request
                               | None => NotJson
                               end)) Scenario.empty))
               "pub-123"
               {| Client.linkToken := Some "link-sandbox-u1"%string;
                  Client.loadingLinkToken := false;
                  Client.apiError := None;
                  Client.exchangeLoading := false;
                  Client.exchangeSuccess := false |}))
     = false.
Proof.
  assert (forall token exchange,
            itemPublicTokenExchange (Scenario.env "u1") token = Ok exchange ->
            exchanged_item_id exchange <> ""%string) as H.
  { intros token exchange. cbn [itemPublicTokenExchange Scenario.env].
    destruct (String.eqb token "pub-123"); [|discriminate].
    intros [= <-]. discriminate. }
  split; [exact H|].
  exact (proj1 (page_reports_success_exactly_when_the_row_is_stored
                  Aes256Gcm.cipher Fixture.key (Scenario.env "u1")
                  Scenario.empty "u1" "pub-123"
                  {| Client.linkToken := Some "link-sandbox-u1"%string;
                     Client.loadingLinkToken := false;
                     Client.apiError := None;
                     Client.exchangeLoading := false;
                     Client.exchangeSuccess := false |} H)).
Defined.

(** The scenario, run on the page: the connector calls back with the
    item and shows its success. *)
Example connector_after_a_link :
  Client.handleSuccess (Some "u1"%string) (Scenario.server "u1" Scenario.empty)
    "pub-123"
    {| Client.linkToken := Some "link-sandbox-u1"%string;
       Client.loadingLinkToken := false;
       Client.apiError := Some "earlier"%string;
       Client.exchangeLoading := false;
       Client.exchangeSuccess := false |}
  = ({| Client.linkToken := Some "link-sandbox-u1"%string;
        Client.loadingLinkToken := false;
        Client.apiError := None;
        Client.exchangeLoading := false;
        Client.exchangeSuccess := true |}, [JString "item-1"]).
Proof. vm_compute. reflexivity. Qed.

(** The list of transactions and the fetch route, put together: for an
    item the page names, the list shows the provider's transactions in the
    provider's order (or that there are none), or it shows an error box
    with the route's message.  What a route sends as [details] -- the
    provider's error message, the text of an unexpected error -- is never
    shown, since a failure always has a message. *)
Theorem list_shows_the_transactions_or_the_message
    (cipher : Cipher) (encryptionKey : list byte) (env : Env) (w : World)
    (itemId : string) (s : Client.TransactionListState) :
  itemId <> ""%string ->
  let route (request : Body) :=
    fst (run (GetTransactions.POST cipher encryptionKey env request) w) in
  let fetch : Client.Fetch :=
    fun url body =>
      route (match body with Some request => request | None => NotJson end) in
  let sent := Object [("item_id"%string, itemId)] in
  let view :=
    Client.TransactionList false (Some itemId)
      (Client.fetchTransactions false (Some itemId) fetch s) in
  (exists data,
      route sent
      = Ok {| status := 200;
              body := [success true;
                       ("transactions"%string,
                        JTransactions (transactions data));
                       ("accounts"%string, JAccounts (accounts data));
                       ("item"%string, JItem (item data))] |}
      /\ view = match transactions data with
                | [] => Client.NoTransactions
                | ts => Client.Listing ts (accounts data)
                end)
  \/ (exists code m rest,
        route sent
        = Ok {| status := code;
                body := success false :: text "message" m :: rest |}
        /\ view
           = Client.ErrorBox ("Error fetching transactions: " ++ m)%string).
Proof.
  intros Hitem route fetch sent view. subst view fetch sent route.
  unfold Client.fetchTransactions, Client.TransactionList.
  rewrite (PageFacts.truthy_some itemId Hitem). cbv beta iota.
  destruct (PageFacts.fetch_outcomes cipher encryptionKey env
              (Object [("item_id"%string, itemId)]) w)
    as [(data & Hr)|(code & m & rest & Hr & Hm)]; cbv zeta in Hr;
    rewrite Hr.
  - left. exists data. split; [reflexivity|].
    cbn [body status Client.ok Client.get success].
    cbn [String.eqb Ascii.eqb Bool.eqb andb orb negb Client.truthy_value
         N.leb].
    cbn. now destruct (transactions data).
  - right. exists code, m, rest. split; [reflexivity|].
    cbn [body Client.get success text].
    cbn [String.eqb Ascii.eqb Bool.eqb Client.truthy_value negb orb].
    rewrite orb_true_r.
    cbn [Client.first_truthy Client.truthy_value].
    destruct (String.eqb_spec m ""); [contradiction|].
    cbn [negb Client.String_of Client.list_isLoading Client.list_error
         message new_Error orb].
    reflexivity.
Qed.

Lemma list_shows_the_transactions_or_the_message_witness :
  "item-1"%string <> ""%string
  /\ ((exists data,
          fst (run (GetTransactions.POST Aes256Gcm.cipher Fixture.key
                      (Scenario.env "u2") (Scenario.fetch "item-1"))
                 Scenario.linked)
          = Ok {| status := 200;
                  body := [success true;
                           ("transactions"%string,
                            JTransactions (transactions data));
                           ("accounts"%string, JAccounts (accounts data));
                           ("item"%string, JItem (item data))] |}
          /\ Client.TransactionList false (Some "item-1"%string)
               (Client.fetchTransactions false (Some "item-1"%string)
                  (fun url body =>
                     fst (run (GetTransactions.POST Aes256Gcm.cipher
                                 Fixture.key (Scenario.env "u2")
                                 (match body with
                                  | Some request => request
                                  | None => NotJson
                                  end)) Scenario.linked))
                  {| Client.list_transactions := [];
                     Client.list_accounts := [];
                     Client.list_isLoading := false;
                     Client.list_error := None |})
             = match transactions data with
               | [] => Client.NoTransactions
               | ts => Client.Listing ts (accounts data)
               end)
      \/ (exists code m rest,
            fst (run (GetTransactions.POST Aes256Gcm.cipher Fixture.key
                        (Scenario.env "u2") (Scenario.fetch "item-1"))
                   Scenario.linked)
            = Ok {| status := code;
                    body := success false :: text "message" m :: rest |}
            /\ Client.TransactionList false (Some "item-1"%string)
                 (Client.fetchTransactions false (Some "item-1"%string)
                    (fun url body =>
                       fst (run (GetTransactions.POST Aes256Gcm.cipher
                                   Fixture.key (Scenario.env "u2")
                                   (match body with
                                    | Some request => request
                                    | None => NotJson
                                    end)) Scenario.linked))
                    {| Client.list_transactions := [];
                       Client.list_accounts := [];
                       Client.list_isLoading := false;
                       Client.list_error := None |})
               = Client.ErrorBox
                   ("Error fetching transactions: " ++ m)%string)).
Proof.
  assert ("item-1"%string <> ""%string) as H by discriminate.
  split; [exact H|].
  exact (list_shows_the_transactions_or_the_message Aes256Gcm.cipher
           Fixture.key (Scenario.env "u2") Scenario.linked "item-1"
           {| Client.list_transactions := [];
              Client.list_accounts := [];
              Client.list_isLoading := false;
              Client.list_error := None |} H).
Defined.

(** The scenario, run on the page: the owner sees the provider's two
    transactions as the provider sent them; a stranger who names the item
    sees the store's error. *)
Example list_for_the_owner_and_for_a_stranger :
  let blank :=
    {| Client.list_transactions := []; Client.list_accounts := [];
       Client.list_isLoading := true; Client.list_error := None |} in
  Client.TransactionList false (Some "item-1"%string)
    (Client.fetchTransactions false (Some "item-1"%string)
       (Scenario.server "u1" Scenario.linked) blank)
  = Client.Listing [Scenario.t1; Scenario.t2] (accounts Scenario.data)
  /\ Client.TransactionList false (Some "item-1"%string)
       (Client.fetchTransactions false (Some "item-1"%string)
          (Scenario.server "u2" Scenario.linked) blank)
     = Client.ErrorBox
         "Error fetching transactions: Database error fetching token: JSON object requested, multiple (or no) rows returned".
Proof. vm_compute. split; reflexivity. Qed.

(** The dashboard and the latest-item route, put together, for a user who
    is signed in on both sides: the page offers to connect a bank exactly
    when the store answered and the user's newest row has no item to
    show; it shows the transactions of the newest item when there is one;
    and when the store fails it shows the error and neither. *)
Theorem dashboard_offers_to_connect_only_without_an_item
    (env : Env) (w : World) (userId : string) (s : Client.HomeState) :
  session_user env = Some userId ->
  let fetch : Client.Fetch := fun url body => fst (run (PlaidItems.GET env) w) in
  let view :=
    Client.Home false (Some userId)
      (Client.fetchItemId false (Some userId) fetch s) in
  match store_failure env with
  | Some dbError =>
      view
      = Client.Dashboard
          (Some "Failed to load account connection status: Internal Server Error fetching Plaid item ID"%string)
          Client.Nothing
  | None =>
      match Store.order_created_at_desc
              (filter (Store.eq_user_id userId) (plaid_items w)) with
      | [] => view = Client.Dashboard None Client.ConnectBank
      | newest :: _ =>
          if String.eqb (item_id newest) "" then
            view = Client.Dashboard None Client.ConnectBank
          else
            view
            = Client.Dashboard None (Client.Transactions_of (item_id newest))
      end
  end.
Proof.
  intros Hu fetch view. subst view fetch.
  unfold Client.fetchItemId, Client.Home, PlaidItems.GET. step_handler.
  rewrite Hu. step_handler.
  destruct (store_failure env) as [dbError|]; [reflexivity|].
  destruct (Store.order_created_at_desc _) as [|newest rest];
    [reflexivity|].
  cbn [Store.limit firstn map fst body status Client.ok Client.get success].
  cbn [String.eqb Ascii.eqb Bool.eqb Client.truthy_value N.leb andb negb].
  cbn. unfold truthy.
  now destruct (String.eqb (item_id newest) "").
Qed.

Lemma dashboard_offers_to_connect_only_without_an_item_witness :
  session_user (Scenario.env "u1") = Some "u1"%string
  /\ Client.Home false (Some "u1"%string)
       (Client.fetchItemId false (Some "u1"%string)
          (fun url body =>
             fst (run (PlaidItems.GET (Scenario.env "u1")) Scenario.empty))
          {| Client.currentItemId := None;
             Client.isCheckingItemId := true;
             Client.fetchError := None |})
     = Client.Dashboard None Client.ConnectBank.
Proof.
  split; [reflexivity|].
  exact (dashboard_offers_to_connect_only_without_an_item
           (Scenario.env "u1") Scenario.empty "u1"
           {| Client.currentItemId := None;
              Client.isCheckingItemId := true;
              Client.fetchError := None |} eq_refl).
Defined.

Module ModalFacts.

(** The statuses the refresh answers with. *)
Lemma refresh_statuses (env : Env) (client : ItemApi) (w : World)
    (r : Response) :
  fst (run (RefreshTransactions.POST env client) w) = Ok r ->
  status r = 200 \/ status r = 401 \/ status r = 404 \/ status r = 500.
Proof.
  unfold RefreshTransactions.POST. step_handler.
  destruct (auth_user env) as [userId|]; [|intros [= <-]; cbn; auto].
  step_handler.
  destruct (store_failure env) as [dbError|]; [intros [= <-]; cbn; auto|].
  destruct (Store.maybeSingle _) as [[[itemId [|c rest]]|] [itemError|]];
    try (intros [= <-]; cbn; auto).
  destruct (String.eqb itemId ""); [intros [= <-]; cbn; auto|].
  destruct (itemGet client (c :: rest)) as [[]|e];
    [|intros [= <-]; cbn; auto].
  cbn [clock readings instant_at].
  destruct (transactionsSync client (c :: rest) "latest") as [[]|e];
    intros [= <-]; cbn; auto.
Qed.

(** What [GET /api/plaid/get-transactions] answers with: transactions
    under status 200, or a failure under 401, 404 or 500. *)
Lemma get_outcomes (env : Env) (w : World) (r : Response) :
  fst (run (GetTransactions.GET env) w) = Ok r ->
  (exists ts,
      r = {| status := 200;
             body := [success true;
                      ("transactions"%string, JTransactions ts)] |})
  \/ (exists m rest,
        body r = success false :: text "message" m :: rest
        /\ (status r = 401 \/ status r = 404 \/ status r = 500)).
Proof.
  unfold GetTransactions.GET. step_handler.
  destruct (auth_user env) as [userId|];
    [|intros [= <-]; right; cbn; eauto 10].
  step_handler.
  destruct (store_failure env) as [dbError|];
    [intros [= <-]; right; cbn; eauto 10|].
  destruct (Store.maybeSingle _) as [itemData [itemError|]];
    [intros [= <-]; right; cbn; eauto 10|].
  destruct (truthy itemData) as [itemId|];
    [|intros [= <-]; right; cbn; eauto 10].
  destruct (fetchPlaidTransactions env userId itemId) as [[fetched|]|e];
    intros [= <-]; [left|right|right]; cbn; eauto 10.
Qed.

End ModalFacts.

(** The modal and the transactions it fetches, put together: it shows the
    transactions as [GET /api/plaid/get-transactions] sorted them, or the
    error ["Failed to fetch transactions: "] with the status 401, 404 or
    500.  The route's own message -- that no account is connected, that
    there are no transactions -- never reaches the user, since the modal
    stops at the status. *)
Theorem modal_shows_the_status_not_the_message
    (env : Env) (w : World) (fetch : Client.ModalFetch)
    (s : Client.ModalState) (r : Response) :
  fst (run (GetTransactions.GET env) w) = Ok r ->
  fetch "/api/plaid/get-transactions"%string None = Ok (Client.reply_of r) ->
  let s' := Client.modal_fetchTransactions fetch s in
  Client.modal_isLoading s' = false
  /\ ((exists ts,
          r = {| status := 200;
                 body := [success true;
                          ("transactions"%string, JTransactions ts)] |}
          /\ Client.modal_transactions s' = ts
          /\ Client.modal_error s' = Client.modal_error s)
      \/ (exists m rest,
            body r = success false :: text "message" m :: rest
            /\ (status r = 401 \/ status r = 404 \/ status r = 500)
            /\ Client.modal_transactions s' = Client.modal_transactions s
            /\ Client.modal_error s'
               = Some ("Failed to fetch transactions: "
                       ++ Client.decimal (status r))%string)).
Proof.
  intros Hr Hfetch s'. subst s'. unfold Client.modal_fetchTransactions.
  rewrite Hfetch.
  destruct (ModalFacts.get_outcomes env w r Hr)
    as [(ts & ->)|(m & rest & Hbody & Hstatus)].
  - split; [reflexivity|]. left. exists ts. repeat split.
  - unfold Client.reply_ok, Client.reply_of. cbn [Client.reply_status].
    assert ((200 <=? status r) && (status r <=? 299) = false) as ->
        by (destruct Hstatus as [->|[->| ->]]; reflexivity).
    split; [reflexivity|]. right. exists m, rest. repeat split; assumption.
Qed.

Lemma modal_shows_the_status_not_the_message_witness :
  fst (run (GetTransactions.GET (Scenario.env "u2")) Scenario.linked)
  = Ok {| status := 404;
          body := [success false;
                   text "message" "No Plaid account connected"] |}
  /\ Client.modal_error
       (Client.modal_fetchTransactions
          (Scenario.modal_server "u2" Scenario.linked)
          {| Client.modal_transactions := [];
             Client.modal_isLoading := true;
             Client.modal_error := None;
             Client.modal_searchTerm := [] |})
     = Some "Failed to fetch transactions: 404"%string.
Proof.
  assert (fst (run (GetTransactions.GET (Scenario.env "u2")) Scenario.linked)
          = Ok {| status := 404;
                  body := [success false;
                           text "message" "No Plaid account connected"] |})
    as Hr by (vm_compute; reflexivity).
  assert (Scenario.modal_server "u2" Scenario.linked
            "/api/plaid/get-transactions"%string None
          = Ok (Client.reply_of
                  {| status := 404;
                     body := [success false;
                              text "message"
                                "No Plaid account connected"] |}))
    as Hfetch by (vm_compute; reflexivity).
  split; [exact Hr|].
  destruct (modal_shows_the_status_not_the_message (Scenario.env "u2")
              Scenario.linked (Scenario.modal_server "u2" Scenario.linked)
              {| Client.modal_transactions := [];
                 Client.modal_isLoading := true;
                 Client.modal_error := None;
                 Client.modal_searchTerm := [] |} _ Hr Hfetch)
    as [_ [(ts & H & _)|(m & rest & _ & _ & _ & H)]].
  - discriminate H.
  - exact H.
Defined.

(** A refresh that fails is silent: when the refresh route answers with
    anything but status 200 -- no session, no item, a provider that
    refuses what it is sent -- [handleRefresh] fetches nothing more and
    leaves the transactions and the error on the page as they were. *)
Theorem failed_refresh_is_silent
    (env : Env) (client : ItemApi) (w : World) (fetch : Client.ModalFetch)
    (s : Client.ModalState) (r : Response) :
  fst (run (RefreshTransactions.POST env client) w) = Ok r ->
  fetch "/api/plaid/refresh-transactions"%string None
  = Ok (Client.reply_of r) ->
  status r <> 200 ->
  Client.handleRefresh fetch s
  = {| Client.modal_transactions := Client.modal_transactions s;
       Client.modal_isLoading := false;
       Client.modal_error := Client.modal_error s;
       Client.modal_searchTerm := Client.modal_searchTerm s |}.
Proof.
  intros Hr Hfetch Hstatus. unfold Client.handleRefresh. rewrite Hfetch.
  unfold Client.reply_ok, Client.reply_of. cbn [Client.reply_status].
  destruct (ModalFacts.refresh_statuses env client w r Hr)
    as [H|[H|[H|H]]]; [contradiction| | |]; rewrite H; reflexivity.
Qed.

Lemma failed_refresh_is_silent_witness :
  fst (run (RefreshTransactions.POST (Scenario.env "u1") Scenario.item_api)
         Scenario.linked)
  = Ok {| status := 500;
          body := [success false;
                   text "message" "Request failed with status code 400"] |}
  /\ Client.handleRefresh (Scenario.modal_server "u1" Scenario.linked)
       {| Client.modal_transactions := [Scenario.t2; Scenario.t1];
          Client.modal_isLoading := false;
          Client.modal_error := None;
          Client.modal_searchTerm := [] |}
     = {| Client.modal_transactions := [Scenario.t2; Scenario.t1];
          Client.modal_isLoading := false;
          Client.modal_error := None;
          Client.modal_searchTerm := [] |}.
Proof.
  assert (fst (run (RefreshTransactions.POST (Scenario.env "u1")
                      Scenario.item_api) Scenario.linked)
          = Ok {| status := 500;
                  body := [success false;
                           text "message"
                             "Request failed with status code 400"] |})
    as Hr by (vm_compute; reflexivity).
  assert (Scenario.modal_server "u1" Scenario.linked
            "/api/plaid/refresh-transactions"%string None
          = Ok (Client.reply_of
                  {| status := 500;
                     body := [success false;
                              text "message"
                                "Request failed with status code 400"] |}))
    as Hfetch by (vm_compute; reflexivity).
  assert (500 <> 200) as Hstatus by discriminate.
  split; [exact Hr|].
  exact (failed_refresh_is_silent (Scenario.env "u1") Scenario.item_api
           Scenario.linked (Scenario.modal_server "u1" Scenario.linked)
           {| Client.modal_transactions := [Scenario.t2; Scenario.t1];
              Client.modal_isLoading := false;
              Client.modal_error := None;
              Client.modal_searchTerm := [] |} _ Hr Hfetch Hstatus).
Defined.

(* ------------------------------------------------------------------ *)
(** * The two copies of the fetch route *)
(* ------------------------------------------------------------------ *)

Module CopyFacts.

(** On an error of the provider, and on the errors the route makes
    itself, the two [catch] clauses answer alike. *)
Lemma on_error_same (e : JsError) (w : World) :
  provider_error e ->
  GetTransactionsUntyped.on_error e w = GetTransactions.on_error e w.
Proof.
  intros [Hm Hr].
  unfold GetTransactionsUntyped.on_error, GetTransactions.on_error.
  cbv zeta.
  assert (or_else (Some (message e)) "An unexpected error occurred"
          = message e) as ->
      by (unfold or_else; now destruct (String.eqb_spec (message e) "")).
  destruct (response e) as [r|]; [|reflexivity].
  destruct (response_data r) as [d|] eqn:Hd; [|reflexivity].
  destruct (Hr r d eq_refl Hd) as [Hc Hs].
  destruct (String.eqb_spec (error_code d) ""); [contradiction|].
  destruct (response_status r) as [code|]; [|reflexivity].
  destruct (N.eqb_spec code 0) as [->|]; [now elim Hs|reflexivity].
Qed.

Lemma made_here (m : string) :
  m <> ""%string -> provider_error (new_Error m).
Proof. intros H. split; [exact H|]. intros r d [=]. Qed.

End CopyFacts.

(** The two copies of [POST /api/plaid/get-transactions] answer every
    request alike and leave the same world, as long as what
    [transactionsGet] throws is an error of the provider: one with a
    message whose answer, if it carries one, has an error code and a status
    other than 0. *)
Theorem both_copies_of_the_fetch_answer_alike
    (cipher : Cipher) (encryptionKey : list byte) (env : Env)
    (request : Body) (w : World) :
  (forall transactionsRequest e,
      transactionsGet env transactionsRequest = Thrown e ->
      provider_error e) ->
  run (GetTransactionsUntyped.POST cipher encryptionKey env request) w
  = run (GetTransactions.POST cipher encryptionKey env request) w.
Proof.
  intros Hprovider.
  unfold GetTransactionsUntyped.POST, GetTransactions.POST. step_handler.
  destruct (session_user env) as [userId|]; [|reflexivity].
  destruct request as [| | |fields]; step_handler;
    [now rewrite CopyFacts.on_error_same
       by (apply CopyFacts.made_here; discriminate)
    |now rewrite CopyFacts.on_error_same
       by (apply CopyFacts.made_here; discriminate)
    |reflexivity|].
  destruct (truthy (field "item_id" fields)) as [itemId|]; [|reflexivity].
  step_handler.
  destruct (store_failure env) as [dbError|];
    [now rewrite CopyFacts.on_error_same
       by (apply CopyFacts.made_here; discriminate)|].
  destruct (Store.single _) as [[[|c rest]|] [dbError|]];
    try reflexivity;
    try (now rewrite CopyFacts.on_error_same
           by (apply CopyFacts.made_here; discriminate)).
  unfold GetTransactions.decrypt. step_handler.
  destruct (GetTransactionsCodec.decrypt _ _ _) as [accessToken|e];
    [|reflexivity].
  cbn [clock readings instant_at].
  match goal with
  | |- context [transactionsGet env ?r] =>
      destruct (transactionsGet env r) as [data|e] eqn:E
  end; [reflexivity|].
  now rewrite CopyFacts.on_error_same by (eapply Hprovider; exact E).
Qed.

Lemma both_copies_of_the_fetch_answer_alike_witness :
  (forall transactionsRequest e,
      transactionsGet (Scenario.revoked "u1") transactionsRequest = Thrown e ->
      provider_error e)
  /\ run (GetTransactionsUntyped.POST Aes256Gcm.cipher Fixture.key
            (Scenario.revoked "u1") (Scenario.fetch "item-1"))
       Scenario.linked
     = run (GetTransactions.POST Aes256Gcm.cipher Fixture.key
              (Scenario.revoked "u1") (Scenario.fetch "item-1"))
         Scenario.linked.
Proof.
  assert (forall transactionsRequest e,
            transactionsGet (Scenario.revoked "u1") transactionsRequest
            = Thrown e ->
            provider_error e) as H.
  { intros transactionsRequest e [= <-]. split; [discriminate|].
    intros r d [= <-] [= <-]. split; discriminate. }
  split; [exact H|].
  exact (both_copies_of_the_fetch_answer_alike Aes256Gcm.cipher Fixture.key
           (Scenario.revoked "u1") (Scenario.fetch "item-1")
           Scenario.linked H).
Defined.

(** Where the two copies part: an error that carries an answer whose
    error code is empty is a provider's error for the one, which looks
    for the key, and an unexpected error for the other, which looks at
    the value. *)
Example the_copies_part_on_an_empty_code :
  fst (run (GetTransactions.on_error Scenario.uncoded) Scenario.empty)
  = Ok {| status := 500;
          body := [success false; text "message" "Plaid API error";
                   text "details" "internal"] |}
  /\ fst (run (GetTransactionsUntyped.on_error Scenario.uncoded)
            Scenario.empty)
     = Ok {| status := 500;
             body := [success false; text "message" "Internal Server Error";
                      text "details"
                        "Request failed with status code 500"] |}.
Proof. vm_compute. split; reflexivity. Qed.
